(** * Trade settlement and share-count reconciliation

    A shallow embedding of [src/utils/tradeExecution.ts]
    ([executeTradeTransaction]), of its reworked variant
    ([executeTradeTransactionImproved]) and of the two reconciliation
    routines of [src/utils/debugTrading.ts] ([debugAllTradeableUsers],
    [fixShareCountDiscrepancies]).

    The TypeScript functions are [async] functions that talk to a
    Postgres database through the supabase client: every [await] is one
    statement sent to the database.  They are embedded as programs of a
    small free monad ([Prog]) whose only effect is "await one database
    statement"; the database is an explicit value ([Database]) and a
    statement is given its meaning by [perform].  A program is run
    sequentially by [run] (with an optional fault plan that makes chosen
    statements return an error) and two programs are run interleaved at
    their [await] points by [interleave].

    Numbers.  The columns [quantity], [total_shares], [available_shares]
    are INTEGER columns and are modelled by [Z].  The DECIMAL(10,2)
    columns ([balance], [average_price], [price_per_share],
    [total_amount]) hold amounts of whole cents; they and the price
    argument (which the callers read from [profiles.current_price]) are
    modelled by rationals [Q].  A sum or product of such amounts and of
    whole quantities is again an amount of whole cents: the double the
    client computes for it is off by far less than half a cent and the
    column rounds what it is sent to the cent, so the model keeps these
    values exact.  Two things are not of that kind and are modelled as
    they happen.  The comparison [balance < totalAmount] is made by the
    client, on doubles: [lt_total] evaluates it in binary64.  The average
    price is a quotient, and the column keeps it rounded to the cent:
    [decimal_10_2], applied by the store to the average it is sent.  NaN
    and the infinities are outside the model.

    Row level security.  The schema enables row level security on every
    table and creates, for [shares] and [transactions], policies for
    SELECT, UPDATE and INSERT only (the later migrations add none for
    DELETE; one of them states the rule: no DELETE policy, no one can
    delete).  A DELETE sent by the client therefore removes no row and
    reports no error, and this is how [perform] answers it. *)

From Stdlib Require Import ZArith QArith Qminmax Qround Qabs Lqa SpecFloat String List Lia.
From stdpp Require Import gmap strings list fin_maps sorting.

Local Open Scope string_scope.
Local Open Scope Z_scope.

(** ** Data model (the tables of the schema) *)

(** Users are identified by UUIDs, kept as strings; [transactions.id]
    is a generated key, kept as a natural number.  Each table's row type
    lives in a module of its own so that the columns keep their names. *)

Inductive TransactionType : Set := buy | sell.

Definition TransactionType_eqb (a b : TransactionType) : bool :=
  match a, b with
  | buy, buy | sell, sell => true
  | _, _ => false
  end.

(** A row of [profiles], keyed by [user_id] (UNIQUE). *)
Module Profile.
Record t : Type := mk {
  username : string;
  is_tradeable : bool;
  total_shares : Z;
  available_shares : Z;
  current_price : Q
}.
End Profile.

(** A row of [shares], keyed by [(owner_id, tradeable_user_id)]
    (UNIQUE); the row [id] the code uses in [.eq('id', existingShares.id)]
    designates the same row as that pair. *)
Module Shares.
Record t : Type := mk {
  quantity : Z;
  average_price : Q
}.
End Shares.

(** A row of [transactions]. *)
Module Transaction.
Record t : Type := mk {
  id : nat;
  buyer_id : string;
  seller_id : option string;
  tradeable_user_id : string;
  transaction_type : TransactionType;
  quantity : Z;
  price_per_share : Q;
  total_amount : Q
}.
End Transaction.

Record Database : Type := mkDatabase {
  user_accounts : gmap string Q;            (* user_id |-> balance *)
  profiles : gmap string Profile.t;           (* user_id |-> row *)
  shares : gmap (string * string) Shares.t;   (* (owner_id, tradeable_user_id) |-> row *)
  transactions : list Transaction.t
}.

(** ** What the supabase client returns *)

Record PostgrestError : Type := mkError {
  code : string;
  message : string
}.

(** [{ data, error }]: exactly one of the two is non-null. *)
Inductive Response (A : Type) : Type :=
| Data (data : A)
| Error (error : PostgrestError).
Arguments Data {A} data.
Arguments Error {A} error.

(** The statements the three source files send. *)
Inductive Query : Type -> Type :=
(* from('user_accounts').select('balance').eq('user_id', u).single() *)
| select_balance (user_id : string) : Query Q
(* from('profiles').select(...).eq('user_id', u).single() *)
| select_profile (user_id : string) : Query Profile.t
(* from('user_accounts').update({ balance }).eq('user_id', u) *)
| update_balance (user_id : string) (balance : Q) : Query unit
(* from('profiles').update({ available_shares }).eq('user_id', u)
   (and .eq('id', user.id) in fixShareCountDiscrepancies) *)
| update_available_shares (user_id : string) (n : Z) : Query unit
(* from('shares').select('quantity').eq(owner).eq(tradeable).single() *)
| select_shares_single (owner tradeable : string) : Query Shares.t
(* from('shares').select('*').eq(owner).eq(tradeable).maybeSingle() *)
| select_shares_maybe (owner tradeable : string) : Query (option Shares.t)
(* from('shares').delete().eq('id', existingShares.id) *)
| delete_shares (owner tradeable : string) : Query unit
(* from('shares').update({ quantity, average_price }).eq('id', ...) *)
| update_shares (owner tradeable : string) (q : Z) (avg : Q) : Query unit
(* from('shares').insert({ owner_id, tradeable_user_id, quantity, average_price }) *)
| insert_shares (owner tradeable : string) (q : Z) (avg : Q) : Query unit
(* from('transactions').insert({...}).select('id').single() *)
| insert_transaction (buyer : string) (seller : option string)
    (tradeable : string) (ty : TransactionType) (q : Z) (price total : Q)
  : Query nat
(* from('transactions').delete().eq('id', id) *)
| delete_transaction (txid : nat) : Query unit
(* from('profiles').select(...).eq('is_tradeable', true) *)
| select_tradeable_profiles : Query (list (string * Profile.t))
(* from('transactions').select('*').eq('tradeable_user_id', u) *)
| select_transactions (tradeable : string) : Query (list Transaction.t).

(** ** The database's side of each statement *)

Definition no_rows : PostgrestError :=
  {| code := "PGRST116"; message := "JSON object requested, multiple (or no) rows returned" |}.

Definition unique_violation : PostgrestError :=
  {| code := "23505"; message := "duplicate key value violates unique constraint" |}.

(** The generated key of a new [transactions] row: any key not in the
    table would do; the model takes the successor of the largest one. *)
Definition fresh_id (log : list Transaction.t) : nat :=
  S (list_max (List.map Transaction.id log)).

Definition set_user_accounts (db : Database) (a : gmap string Q) : Database :=
  {| user_accounts := a; profiles := profiles db;
     shares := shares db; transactions := transactions db |}.

Definition set_profiles (db : Database) (p : gmap string Profile.t) : Database :=
  {| user_accounts := user_accounts db; profiles := p;
     shares := shares db; transactions := transactions db |}.

Definition set_shares (db : Database) (s : gmap (string * string) Shares.t) : Database :=
  {| user_accounts := user_accounts db; profiles := profiles db;
     shares := s; transactions := transactions db |}.

Definition set_transactions (db : Database) (t : list Transaction.t) : Database :=
  {| user_accounts := user_accounts db; profiles := profiles db;
     shares := shares db; transactions := t |}.

Definition with_available_shares (n : Z) (p : Profile.t) : Profile.t :=
  {| Profile.username := Profile.username p;
     Profile.is_tradeable := Profile.is_tradeable p;
     Profile.total_shares := Profile.total_shares p;
     Profile.available_shares := n;
     Profile.current_price := Profile.current_price p |}.

(** What a DECIMAL(10,2) column keeps of a value: the value itself when
    it is a whole number of cents, the nearest number of cents
    otherwise.  (At an exact half cent the column rounds the digits the
    client sent, which are those of a double; the model rounds away from
    zero there.) *)
Definition whole_cents (q : Q) : bool :=
  (Qnum q * 100) mod Z.pos (Qden q) =? 0.

Definition cents (q : Q) : Z :=
  if Qle_bool (0 # 1) q
  then Qfloor (q * (100 # 1) + (1 # 2))
  else - Qfloor (- q * (100 # 1) + (1 # 2)).

Definition decimal_10_2 (q : Q) : Q :=
  if whole_cents q then q else cents q # 100.

(** [perform q db]: the response to [q] and the database after it.  An
    UPDATE whose filter matches no row succeeds and changes nothing;
    [.single()] fails when there is no row; a DELETE removes nothing
    (there is no DELETE policy on [shares] or on [transactions]) and
    succeeds; [shares.average_price] is kept as a DECIMAL(10,2) keeps
    it. *)
Definition perform {R : Type} (q : Query R) (db : Database) : Response R * Database :=
  match q in Query R return Response R * Database with
  | select_balance u =>
      match user_accounts db !! u with
      | Some b => (Data b, db)
      | None => (Error no_rows, db)
      end
  | select_profile u =>
      match profiles db !! u with
      | Some p => (Data p, db)
      | None => (Error no_rows, db)
      end
  | update_balance u b =>
      (Data tt, set_user_accounts db (alter (fun _ => b) u (user_accounts db)))
  | update_available_shares u n =>
      (Data tt, set_profiles db (alter (with_available_shares n) u (profiles db)))
  | select_shares_single o t =>
      match shares db !! (o, t) with
      | Some s => (Data s, db)
      | None => (Error no_rows, db)
      end
  | select_shares_maybe o t => (Data (shares db !! (o, t)), db)
  | delete_shares o t => (Data tt, db)
  | update_shares o t q avg =>
      (Data tt, set_shares db
         (alter (fun _ => {| Shares.quantity := q;
                             Shares.average_price := decimal_10_2 avg |})
            (o, t) (shares db)))
  | insert_shares o t q avg =>
      match shares db !! (o, t) with
      | Some _ => (Error unique_violation, db)
      | None =>
          (Data tt, set_shares db
             (<[(o, t) := {| Shares.quantity := q; Shares.average_price := avg |}]> (shares db)))
      end
  | insert_transaction b s t ty q price total =>
      let i := fresh_id (transactions db) in
      (Data i, set_transactions db
         (transactions db ++
            [{| Transaction.id := i; Transaction.buyer_id := b;
                Transaction.seller_id := s; Transaction.tradeable_user_id := t;
                Transaction.transaction_type := ty; Transaction.quantity := q;
                Transaction.price_per_share := price;
                Transaction.total_amount := total |}]))
  | delete_transaction i => (Data tt, db)
  | select_tradeable_profiles =>
      (Data (List.filter (fun up => Profile.is_tradeable (snd up)) (map_to_list (profiles db))), db)
  | select_transactions u =>
      (Data (List.filter (fun t => String.eqb (Transaction.tradeable_user_id t) u) (transactions db)), db)
  end.

(** ** Programs: sequences of awaited statements *)

Inductive Prog (T : Type) : Type :=
| Ret (t : T)
| Await {R : Type} (q : Query R) (k : Response R -> Prog T).
Arguments Ret {T} t.
Arguments Await {T R} q k.

(** A fault plan says which awaited statement (counted from 0 within one
    call) is answered by an error instead of being executed. *)
Definition Faults := nat -> option PostgrestError.

Definition no_faults : Faults := fun _ => None.

Definition fail_at (k : nat) (e : PostgrestError) : Faults :=
  fun n => if Nat.eqb n k then Some e else None.

(** Sequential execution of one call. *)
Fixpoint run {T : Type} (p : Prog T) (faults : Faults) (n : nat) (db : Database)
  : T * Database :=
  match p with
  | Ret t => (t, db)
  | Await q k =>
      match faults n with
      | Some e => run (k (Error e)) faults (S n) db
      | None => let (r, db') := perform q db in run (k r) faults (S n) db'
      end
  end.

(** ** Small JavaScript helpers *)

(** A JavaScript number is a binary64 double. *)
Definition double : Set := spec_float.

(** The double of a whole number (exact below 2^53). *)
Definition double_of_Z (z : Z) : double := binary_normalize 53 1024 z 0 false.

(** The double nearest to a rational (numerator and denominator below
    2^53): what parsing the decimal digits of an amount gives. *)
Definition double_of_Q (q : Q) : double :=
  SFdiv 53 1024 (double_of_Z (Qnum q)) (double_of_Z (Z.pos (Qden q))).

(** [balance < quantity * pricePerShare], as the client evaluates it. *)
Definition lt_total (balance : Q) (quantity : Z) (pricePerShare : Q) : bool :=
  SFltb (double_of_Q balance)
    (SFmul 53 1024 (double_of_Z quantity) (double_of_Q pricePerShare)).

(** [a < b] on exact amounts. *)
Definition Qltb (a b : Q) : bool := negb (Qle_bool b a).

(** [s.includes(needle)]. *)
Fixpoint includes (needle s : string) : bool :=
  String.prefix needle s ||
  match s with
  | EmptyString => false
  | String _ s' => includes needle s'
  end.

(** ** [TradeExecutionResult] *)

Record TradeExecutionResult : Type := mkResult {
  success : bool;
  error : option string;
  transactionId : option nat
}.

(* { success: false, error: msg } *)
Definition failed (msg : string) : TradeExecutionResult :=
  {| success := false; error := Some msg; transactionId := None |}.

(* { success: true, transactionId } *)
Definition succeeded (txid : nat) : TradeExecutionResult :=
  {| success := true; error := None; transactionId := Some txid |}.

(** [const { data: x, error: e } = await q; if (e) h; k] *)
Notation "'do' x '<-' q 'on_error' e '=>' h ';' k" :=
  (Await q (fun r => match r with Error e => h | Data x => k end))
  (at level 10, x name, e name, q at level 9, h at level 200, k at level 200,
   format "'[v' 'do'  x  '<-'  q  'on_error'  e  '=>'  h ';' '/' k ']'").

(** ** [executeTradeTransaction] (src/utils/tradeExecution.ts)

    The statements return their errors in the response; nothing in the
    model throws, so the [catch] clause of the source has no counterpart. *)
Definition executeTradeTransaction
    (buyerId tradeableUserId : string) (quantity : Z) (pricePerShare : Q)
    (transactionType : TransactionType) : Prog TradeExecutionResult :=
  let totalAmount := (inject_Z quantity * pricePerShare)%Q in
  (* 1. Check buyer's balance *)
  do buyerAccount <- (select_balance buyerId)
    on_error buyerError => Ret (failed "Failed to fetch buyer account information");
  if TransactionType_eqb transactionType buy
     && lt_total buyerAccount quantity pricePerShare
  then Ret (failed "Insufficient funds") else
  (* 2. Check available shares *)
  do tradeableProfile <- (select_profile tradeableUserId)
    on_error profileError => Ret (failed "Failed to fetch trader information");
  if TransactionType_eqb transactionType buy
     && (Profile.available_shares tradeableProfile <? quantity)
  then Ret (failed "Insufficient shares available") else
  (* 3. Update buyer's balance *)
  let newBalance :=
    match transactionType with
    | buy => (buyerAccount - totalAmount)%Q
    | sell => (buyerAccount + totalAmount)%Q
    end in
  do _ <- (update_balance buyerId newBalance)
    on_error balanceError => Ret (failed "Failed to update account balance");
  (* 4. Update available shares *)
  let newAvailableShares :=
    match transactionType with
    | buy => Profile.available_shares tradeableProfile - quantity
    | sell => Profile.available_shares tradeableProfile + quantity
    end in
  do _ <- (update_available_shares tradeableUserId newAvailableShares)
    on_error sharesError =>
      (if includes "policy" (message sharesError) || String.eqb (code sharesError) "42501"
       then Ret (failed "Permission denied: Cannot update share availability. This may be a Row Level Security policy issue.")
       else Ret (failed "Failed to update share availability"));
  (* 5. Update or create shares ownership record *)
  do existingShares <- (select_shares_maybe buyerId tradeableUserId)
    on_error existingSharesError => Ret (failed "Failed to check existing shares");
  (* 6. Record the transaction (the common tail of the branches of 5) *)
  let record_transaction :=
    do transaction <-
        (insert_transaction buyerId
           (match transactionType with sell => Some buyerId | buy => None end)
           tradeableUserId transactionType quantity pricePerShare totalAmount)
      on_error transactionError => Ret (failed "Failed to record transaction");
    Ret (succeeded transaction) in
  match existingShares with
  | Some existing =>
      let newQuantity :=
        match transactionType with
        | buy => Shares.quantity existing + quantity
        | sell => Shares.quantity existing - quantity
        end in
      let newAveragePrice :=
        match transactionType with
        | buy =>
            ((inject_Z (Shares.quantity existing) * Shares.average_price existing
              + inject_Z quantity * pricePerShare)
             / inject_Z (Shares.quantity existing + quantity))%Q
        | sell => Shares.average_price existing (* Keep same average on sell *)
        end in
      if newQuantity <=? 0 then
        (* Delete the shares record if quantity becomes 0 or negative *)
        do _ <- (delete_shares buyerId tradeableUserId)
          on_error deleteError => Ret (failed "Failed to update shares record");
        record_transaction
      else
        do _ <- (update_shares buyerId tradeableUserId newQuantity newAveragePrice)
          on_error updateSharesError => Ret (failed "Failed to update shares record");
        record_transaction
  | None =>
      match transactionType with
      | buy =>
          (* Create new shares record *)
          do _ <- (insert_shares buyerId tradeableUserId quantity pricePerShare)
            on_error insertSharesError => Ret (failed "Failed to create shares record");
          record_transaction
      | sell => Ret (failed "Cannot sell shares you do not own")
      end
  end.

(** [await q; k], the response being ignored (the compensating
    statements of the improved variant). *)
Notation "'await_' q ';' k" :=
  (Await q (fun _ => k))
  (at level 10, q at level 9, k at level 200,
   format "'[v' 'await_'  q ';' '/' k ']'").

(** ** [executeTradeTransactionImproved] *)
Definition executeTradeTransactionImproved
    (buyerId tradeableUserId : string) (quantity : Z) (pricePerShare : Q)
    (transactionType : TransactionType) : Prog TradeExecutionResult :=
  let totalAmount := (inject_Z quantity * pricePerShare)%Q in
  (* Step 1: checking constraints BEFORE making any changes *)
  (* 1. Check buyer's balance *)
  do buyerAccount <- (select_balance buyerId)
    on_error buyerError => Ret (failed "Failed to fetch buyer account information");
  if TransactionType_eqb transactionType buy
     && lt_total buyerAccount quantity pricePerShare
  then Ret (failed "Insufficient funds") else
  (* 2. Check available shares *)
  do tradeableProfile <- (select_profile tradeableUserId)
    on_error profileError => Ret (failed "Failed to fetch trader information");
  if TransactionType_eqb transactionType buy
     && (Profile.available_shares tradeableProfile <? quantity)
  then Ret (failed "Insufficient shares available") else
  (* 3. For sell orders, verify user owns enough shares *)
  (match transactionType with
   | sell => fun validated =>
       Await (select_shares_single buyerId tradeableUserId) (fun r =>
         match r with
         | Error existingSharesError => Ret (failed "Cannot sell shares you do not own")
         | Data existingShares =>
             if Shares.quantity existingShares <? quantity
             then Ret (failed "Cannot sell shares you do not own")
             else validated
         end)
   | buy => fun validated => validated
   end)
  (* Step 1 done: all constraints validated *)
  (
    (* Record the transaction FIRST for audit trail *)
    do transaction <-
        (insert_transaction buyerId
           (match transactionType with sell => Some buyerId | buy => None end)
           tradeableUserId transactionType quantity pricePerShare totalAmount)
      on_error transactionError => Ret (failed "Failed to record transaction");
    (* Step 3: Update buyer's balance *)
    let newBalance :=
      match transactionType with
      | buy => (buyerAccount - totalAmount)%Q
      | sell => (buyerAccount + totalAmount)%Q
      end in
    do _ <- (update_balance buyerId newBalance)
      on_error balanceError =>
        (* Try to clean up the transaction record *)
        (await_ (delete_transaction transaction);
         Ret (failed "Failed to update account balance"));
    (* Step 4: Update available shares with extra verification *)
    let newAvailableShares :=
      match transactionType with
      | buy => Profile.available_shares tradeableProfile - quantity
      | sell => Profile.available_shares tradeableProfile + quantity
      end in
    let rollback_balance (msg : string) :=
      await_ (update_balance buyerId buyerAccount);
      await_ (delete_transaction transaction);
      Ret (failed msg) in
    if newAvailableShares <? 0 then rollback_balance "Invalid share calculation" else
    if Profile.total_shares tradeableProfile <? newAvailableShares
    then rollback_balance "Invalid share calculation" else
    do _ <- (update_available_shares tradeableUserId newAvailableShares)
      on_error sharesError => rollback_balance "Failed to update share availability";
    (* Step 5: Update or create shares ownership record *)
    let rollback (msg : string) :=
      await_ (update_balance buyerId buyerAccount);
      await_ (update_available_shares tradeableUserId
                (Profile.available_shares tradeableProfile));
      await_ (delete_transaction transaction);
      Ret (failed msg) in
    do existingShares <- (select_shares_maybe buyerId tradeableUserId)
      on_error existingSharesError => rollback "Failed to check existing shares";
    match existingShares with
    | Some existing =>
        let newQuantity :=
          match transactionType with
          | buy => Shares.quantity existing + quantity
          | sell => Shares.quantity existing - quantity
          end in
        let newAveragePrice :=
          match transactionType with
          | buy =>
              ((inject_Z (Shares.quantity existing) * Shares.average_price existing
                + inject_Z quantity * pricePerShare)
               / inject_Z (Shares.quantity existing + quantity))%Q
          | sell => Shares.average_price existing (* Keep same average on sell *)
          end in
        if newQuantity <=? 0 then
          (* Delete the shares record if quantity becomes 0 or negative *)
          do _ <- (delete_shares buyerId tradeableUserId)
            on_error deleteError => rollback "Failed to update shares record";
          Ret (succeeded transaction)
        else
          do _ <- (update_shares buyerId tradeableUserId newQuantity newAveragePrice)
            on_error updateSharesError => rollback "Failed to update shares record";
          Ret (succeeded transaction)
    | None =>
        match transactionType with
        | buy =>
            (* Create new shares record *)
            do _ <- (insert_shares buyerId tradeableUserId quantity pricePerShare)
              on_error insertSharesError => rollback "Failed to create shares record";
            Ret (succeeded transaction)
        | sell =>
            (* the source has no [else] here: nothing is written *)
            Ret (succeeded transaction)
        end
    end).

(** ** Which table a statement writes, and the order of the writes *)

Inductive Table : Set :=
| user_accounts_table | profiles_table | shares_table | transactions_table.

Definition written {R : Type} (q : Query R) : option Table :=
  match q with
  | update_balance _ _ => Some user_accounts_table
  | update_available_shares _ _ => Some profiles_table
  | delete_shares _ _ | update_shares _ _ _ _ | insert_shares _ _ _ _ => Some shares_table
  | insert_transaction _ _ _ _ _ _ _ | delete_transaction _ => Some transactions_table
  | _ => None
  end.

Definition is_data {R : Type} (r : Response R) : bool :=
  match r with Data _ => true | Error _ => false end.

(** The tables written by the statements of one call that the database
    executed, in the order of execution. *)
Fixpoint writes {T : Type} (p : Prog T) (faults : Faults) (n : nat) (db : Database)
  : list Table :=
  match p with
  | Ret _ => []
  | Await q k =>
      match faults n with
      | Some e => writes (k (Error e)) faults (S n) db
      | None =>
          let (r, db') := perform q db in
          match written q with
          | Some t => if is_data r then t :: writes (k r) faults (S n) db'
                      else writes (k r) faults (S n) db'
          | None => writes (k r) faults (S n) db'
          end
      end
  end.

(** ** Two calls in flight at once

    An [async] function runs until its next [await]; the database
    executes one statement at a time.  A schedule says, statement by
    statement, which of the two calls proceeds ([true]: the first); when
    the schedule is used up, the first call finishes, then the second. *)
Definition step {T : Type} (p : Prog T) (db : Database) : Prog T * Database :=
  match p with
  | Ret t => (Ret t, db)
  | Await q k => let (r, db') := perform q db in (k r, db')
  end.

Fixpoint interleave {A B : Type} (schedule : list bool)
    (p1 : Prog A) (p2 : Prog B) (db : Database) : A * B * Database :=
  match schedule with
  | [] =>
      let (a, db1) := run p1 no_faults 0 db in
      let (b, db2) := run p2 no_faults 0 db1 in
      (a, b, db2)
  | true :: s => let (p1', db') := step p1 db in interleave s p1' p2 db'
  | false :: s => let (p2', db') := step p2 db in interleave s p1 p2' db'
  end.

(** The first [n] statements of a call that meets no failure. *)
Fixpoint steps {T : Type} (n : nat) (p : Prog T) (db : Database) : Prog T * Database :=
  match n with
  | O => (p, db)
  | S n => let (p', db') := step p db in steps n p' db'
  end.

(** Both settlement functions read the issuer's row in their second
    statement and write its [available_shares] in their fourth.  With
    [done1] and [done2] statements of the two calls executed so far:
    the second call reads the issuer's row only after the first call has
    written it. *)
Fixpoint second_reads_after_first_writes (done1 done2 : nat) (schedule : list bool)
  : bool :=
  match schedule with
  | [] => true
  | true :: s => second_reads_after_first_writes (S done1) done2 s
  | false :: s =>
      match done2 with
      | O => second_reads_after_first_writes done1 1 s
      | S _ => (4 <=? done1)%nat
      end
  end.

(** The first call reads the issuer's row only after the second call has
    written it (when the schedule is used up, the first call proceeds). *)
Fixpoint first_reads_after_second_writes (done1 done2 : nat) (schedule : list bool)
  : bool :=
  match schedule with
  | [] => (4 <=? done2)%nat
  | false :: s => first_reads_after_second_writes done1 (S done2) s
  | true :: s =>
      match done1 with
      | O => first_reads_after_second_writes 1 done2 s
      | S _ => (4 <=? done2)%nat
      end
  end.

(** ** The reconciliation routines (src/utils/debugTrading.ts) *)

(** [transactions.filter(t => t.transaction_type === ty)
                 .reduce((sum, t) => sum + t.quantity, 0)] *)
Definition sum_quantity (ty : TransactionType) (transactions : list Transaction.t) : Z :=
  fold_left (fun sum t => sum + Transaction.quantity t)
    (List.filter (fun t => TransactionType_eqb (Transaction.transaction_type t) ty)
       transactions) 0.

(** [x || 0] on a number. *)
Definition or_zero (x : Z) : Z := if x =? 0 then 0 else x.

(** What [debugAllTradeableUsers] prints for one user. *)
Record AuditReport : Type := mkReport {
  report_username : string;
  report_total_shares : Z;
  totalBought : Z;
  totalSold : Z;
  expectedAvailable : Z;
  actualAvailable : Z;
  discrepancy : Z;
  consistent : bool      (* which of the two closing lines is printed *)
}.

Definition audit_user (user : Profile.t) (transactions : list Transaction.t) : AuditReport :=
  let totalBought := or_zero (sum_quantity buy transactions) in
  let totalSold := or_zero (sum_quantity sell transactions) in
  let expectedAvailable := Profile.total_shares user - (totalBought - totalSold) in
  let discrepancy := Profile.available_shares user - expectedAvailable in
  {| report_username := Profile.username user;
     report_total_shares := Profile.total_shares user;
     totalBought := totalBought;
     totalSold := totalSold;
     expectedAvailable := expectedAvailable;
     actualAvailable := Profile.available_shares user;
     discrepancy := discrepancy;
     consistent := discrepancy =? 0 |}.

(** The [for (const user of tradeableUsers)] loop; [console] is what has
    been printed so far. *)
Fixpoint debug_loop (tradeableUsers : list (string * Profile.t))
    (console : list AuditReport) : Prog (list AuditReport) :=
  match tradeableUsers with
  | [] => Ret console
  | user :: rest =>
      do transactions <- (select_transactions (fst user))
        on_error transError => debug_loop rest console (* continue *);
      debug_loop rest (console ++ [audit_user (snd user) transactions])
  end.

Definition debugAllTradeableUsers : Prog (list AuditReport) :=
  do tradeableUsers <- select_tradeable_profiles
    on_error error => Ret [];
  debug_loop tradeableUsers [].

Fixpoint fix_loop (tradeableUsers : list (string * Profile.t)) : Prog unit :=
  match tradeableUsers with
  | [] => Ret tt
  | user :: rest =>
      do transactions <- (select_transactions (fst user))
        on_error transError => fix_loop rest (* continue *);
      let totalBought := or_zero (sum_quantity buy transactions) in
      let totalSold := or_zero (sum_quantity sell transactions) in
      let correctAvailableShares :=
        Profile.total_shares (snd user) - (totalBought - totalSold) in
      if negb (Profile.available_shares (snd user) =? correctAvailableShares) then
        Await (update_available_shares (fst user) correctAvailableShares)
          (fun _ => fix_loop rest)
      else fix_loop rest
  end.

Definition fixShareCountDiscrepancies : Prog unit :=
  do tradeableUsers <- select_tradeable_profiles
    on_error error => Ret tt;
  fix_loop tradeableUsers.

(** ** Share conservation *)

(** The number of shares of [issuer] held, summed over all owners. *)
Definition held (issuer : string) (s : gmap (string * string) Shares.t) : Z :=
  map_fold (fun k pos acc =>
              if String.eqb (snd k) issuer then acc + Shares.quantity pos else acc)
    0 s.

(** [availableShares + sum of the positions' quantities == totalShares]. *)
Definition conserved (issuer : string) (db : Database) : Prop :=
  exists p, profiles db !! issuer = Some p
    /\ Profile.available_shares p + held issuer (shares db) = Profile.total_shares p.

(** What one [shares] row adds to [held issuer]. *)
Definition counted (issuer : string) (k : string * string) (pos : Shares.t) : Z :=
  if String.eqb (snd k) issuer then Shares.quantity pos else 0.

(** The value both variants compute for [available_shares]. *)
Definition new_available_shares
    (transactionType : TransactionType) (p : Profile.t) (quantity : Z) : Z :=
  match transactionType with
  | buy => Profile.available_shares p - quantity
  | sell => Profile.available_shares p + quantity
  end.

(** No owner holds a negative quantity. *)
Definition nonneg_rows (m : gmap (string * string) Shares.t) : Prop :=
  forall k pos, m !! k = Some pos -> 0 <= Shares.quantity pos.

Definition positions_nonneg (db : Database) : Prop := nonneg_rows (shares db).

(** ** The auditor in the words of the specification *)

(** The sum of [quantity] over the [ty] transactions of the log that are
    against [issuer]. *)
Definition total_quantity (ty : TransactionType) (issuer : string)
    (log : list Transaction.t) : Z :=
  foldr Z.add 0
    (List.map Transaction.quantity
       (List.filter
          (fun t => String.eqb (Transaction.tradeable_user_id t) issuer
                    && TransactionType_eqb (Transaction.transaction_type t) ty)
          log)).

(** buys minus sells *)
Definition netIssued (issuer : string) (log : list Transaction.t) : Z :=
  total_quantity buy issuer log - total_quantity sell issuer log.

(** [expectedAvailable = totalShares - netIssued] *)
Definition expected_available (issuer : string) (p : Profile.t)
    (log : list Transaction.t) : Z :=
  Profile.total_shares p - netIssued issuer log.

(** What repair is to make of a [profiles] row: the counter of a
    tradeable user is set to the expected value, everything else is left
    alone. *)
Definition repaired (log : list Transaction.t) (issuer : string) (p : Profile.t)
  : Profile.t :=
  if Profile.is_tradeable p
  then with_available_shares (expected_available issuer p log) p
  else p.

(** The rows of [profiles] the two routines select. *)
Definition tradeable_users (db : Database) : list (string * Profile.t) :=
  List.filter (fun up => Profile.is_tradeable (snd up)) (map_to_list (profiles db)).

(** The tradeable users whose counter differs from the expected value. *)
Definition drifted_users (db : Database) : list (string * Profile.t) :=
  List.filter
    (fun up => negb (Profile.available_shares (snd up)
                     =? expected_available (fst up) (snd up) (transactions db)))
    (tradeable_users db).

(** The report the audit makes for one tradeable user. *)
Definition report_for (db : Database) (user : string * Profile.t) : AuditReport :=
  audit_user (snd user)
    (List.filter (fun t => String.eqb (Transaction.tradeable_user_id t) (fst user))
       (transactions db)).

(** What one turn of the repair loop does to [profiles]. *)
Definition repair_row (log : list Transaction.t)
    (m : gmap string Profile.t) (user : string * Profile.t) : gmap string Profile.t :=
  if negb (Profile.available_shares (snd user)
           =? expected_available (fst user) (snd user) log)
  then alter (with_available_shares (expected_available (fst user) (snd user) log))
         (fst user) m
  else m.

(** ** Sequences of orders against one issuer *)

Record Order : Type := mkOrder {
  order_buyer : string;
  order_quantity : Z;
  order_price : Q;
  order_type : TransactionType;
  order_faults : Faults   (* what the store does during this call *)
}.

(** The orders are settled one after the other by [settle]; the result
    of each call is listed with the database it leaves. *)
Fixpoint settle_sequence
    (settle : string -> string -> Z -> Q -> TransactionType -> Prog TradeExecutionResult)
    (issuer : string) (orders : list Order) (db : Database)
  : list (TradeExecutionResult * Database) :=
  match orders with
  | [] => []
  | o :: rest =>
      let outcome :=
        run (settle (order_buyer o) issuer (order_quantity o) (order_price o) (order_type o))
          (order_faults o) 0 db in
      outcome :: settle_sequence settle issuer rest (snd outcome)
  end.

(** No sell of the sequence asks for all that the seller holds or for
    more, in the database its order is settled in: each sell leaves a
    positive quantity in the seller's row. *)
Fixpoint sells_below_position
    (settle : string -> string -> Z -> Q -> TransactionType -> Prog TradeExecutionResult)
    (issuer : string) (orders : list Order) (db : Database) : Prop :=
  match orders with
  | [] => True
  | o :: rest =>
      (order_type o = sell ->
       forall pos, shares db !! (order_buyer o, issuer) = Some pos ->
                   order_quantity o < Shares.quantity pos)
      /\ sells_below_position settle issuer rest
           (snd (run (settle (order_buyer o) issuer (order_quantity o) (order_price o)
                        (order_type o))
                   (order_faults o) 0 db))
  end.

(** ** A sample database

    bob is tradeable: 100 shares, 95 available, priced at 10. alice has
    1000 in cash and holds 5 of bob's shares (bought at 10); carol has
    1000 in cash and holds nothing. *)
Module Sample.

Definition bob : Profile.t :=
  {| Profile.username := "bob"; Profile.is_tradeable := true;
     Profile.total_shares := 100; Profile.available_shares := 95;
     Profile.current_price := 10 # 1 |}.

Definition db : Database :=
  {| user_accounts := {[ "alice" := 1000 # 1; "carol" := 1000 # 1 ]};
     profiles := {[ "bob" := bob ]};
     shares := {[ ("alice", "bob") := {| Shares.quantity := 5; Shares.average_price := 10 # 1 |} ]};
     transactions :=
       [ {| Transaction.id := 1; Transaction.buyer_id := "alice";
            Transaction.seller_id := None; Transaction.tradeable_user_id := "bob";
            Transaction.transaction_type := buy; Transaction.quantity := 5;
            Transaction.price_per_share := 10 # 1;
            Transaction.total_amount := 50 # 1 |} ] |}.

(** The scenario of two buyers: 50 of bob's 100 shares are available. *)
Definition bob50 : Profile.t :=
  {| Profile.username := "bob"; Profile.is_tradeable := true;
     Profile.total_shares := 100; Profile.available_shares := 50;
     Profile.current_price := 10 # 1 |}.

Definition db50 : Database :=
  {| user_accounts := {[ "alice" := 1000 # 1; "carol" := 1000 # 1 ]};
     profiles := {[ "bob" := bob50 ]};
     shares := ∅;
     transactions := [] |}.

(** A database whose counter has drifted: the log says 5 shares are out,
    the counter says 2. *)
Definition drifted : Database :=
  set_profiles db {[ "bob" := with_available_shares 98 bob ]}.

(** The scenario of the specification: an issuer with 10000 shares, all
    of them available, and a buyer with 20000 in cash. *)
Definition issuer10000 : Profile.t :=
  {| Profile.username := "issuer"; Profile.is_tradeable := true;
     Profile.total_shares := 10000; Profile.available_shares := 10000;
     Profile.current_price := 100 # 1 |}.

Definition fresh_market : Database :=
  {| user_accounts := {[ "A" := 20000 # 1 ]};
     profiles := {[ "issuer" := issuer10000 ]};
     shares := ∅;
     transactions := [] |}.

(** A buyer whose cash is exactly the price of three shares: dave has
    300.03 and erin's shares cost 100.01. *)
Definition erin : Profile.t :=
  {| Profile.username := "erin"; Profile.is_tradeable := true;
     Profile.total_shares := 10000; Profile.available_shares := 10000;
     Profile.current_price := 10001 # 100 |}.

Definition exactly_funded : Database :=
  {| user_accounts := {[ "dave" := 30003 # 100 ]};
     profiles := {[ "erin" := erin ]};
     shares := ∅;
     transactions := [] |}.

End Sample.

(** ** The counter against the log *)

(** The stored counter of [issuer] is what the log says it should be
    (the auditor's test, as a predicate on the database). *)
Definition counter_matches_log (issuer : string) (db : Database) : Prop :=
  exists p, profiles db !! issuer = Some p
    /\ Profile.available_shares p = expected_available issuer p (transactions db).

(** The row a settled order adds to [transactions]. *)
Definition transaction_row (txid : nat) (buyerId tradeableUserId : string)
    (quantity : Z) (pricePerShare : Q) (transactionType : TransactionType)
  : Transaction.t :=
  {| Transaction.id := txid;
     Transaction.buyer_id := buyerId;
     Transaction.seller_id :=
       match transactionType with sell => Some buyerId | buy => None end;
     Transaction.tradeable_user_id := tradeableUserId;
     Transaction.transaction_type := transactionType;
     Transaction.quantity := quantity;
     Transaction.price_per_share := pricePerShare;
     Transaction.total_amount := (inject_Z quantity * pricePerShare)%Q |}.

(** The failures after which nothing has been written: the ones both
    variants issue before their first write, ... *)
Definition early_rejections : list string :=
  [ "Failed to fetch buyer account information";
    "Insufficient funds";
    "Failed to fetch trader information";
    "Insufficient shares available" ].

(** ... for [executeTradeTransaction], the failure of its first write
    as well, ... *)
Definition original_unwritten : list string :=
  (early_rejections ++ [ "Failed to update account balance" ])%list.

(** ... and for [executeTradeTransactionImproved], the refusal of a sell
    and the failure of its first write. *)
Definition improved_unwritten : list string :=
  (early_rejections
   ++ [ "Cannot sell shares you do not own"; "Failed to record transaction" ])%list.

(** ** Positions against the log *)

(** The sum of [quantity] over the [ty] transactions of [owner] in the
    shares of [issuer]. *)
Definition traded_quantity (ty : TransactionType) (owner issuer : string)
    (log : list Transaction.t) : Z :=
  foldr Z.add 0
    (List.map Transaction.quantity
       (List.filter
          (fun t => String.eqb (Transaction.buyer_id t) owner
                    && String.eqb (Transaction.tradeable_user_id t) issuer
                    && TransactionType_eqb (Transaction.transaction_type t) ty)
          log)).

(** What the log says [owner] holds of [issuer]: bought minus sold. *)
Definition net_bought (owner issuer : string) (log : list Transaction.t) : Z :=
  traded_quantity buy owner issuer log - traded_quantity sell owner issuer log.

(** What [shares] says [owner] holds of [issuer]: the quantity of the
    row, nothing when there is no row. *)
Definition holding (owner issuer : string) (db : Database) : Z :=
  match shares db !! (owner, issuer) with
  | Some pos => Shares.quantity pos
  | None => 0
  end.

(** Every position is what the log says it is. *)
Definition positions_match_log (db : Database) : Prop :=
  forall owner issuer, holding owner issuer db = net_bought owner issuer (transactions db).

(** ** The reasons of a failure

    Every message either variant returns with [success: false]; none of
    them is about the quantity or the price of the order. *)
Definition failure_messages : list string :=
  [ "Failed to fetch buyer account information";
    "Insufficient funds";
    "Failed to fetch trader information";
    "Insufficient shares available";
    "Failed to update account balance";
    "Permission denied: Cannot update share availability. This may be a Row Level Security policy issue.";
    "Failed to update share availability";
    "Failed to check existing shares";
    "Failed to update shares record";
    "Failed to create shares record";
    "Cannot sell shares you do not own";
    "Failed to record transaction";
    "Invalid share calculation" ].
(** ** Technical indicators (second part of src/utils/chartDataAggregation.ts)

    Periods and indices are integers ([Z]).  Prices are JavaScript
    numbers; the model computes with exact rationals, so that a value of
    the model is the value of the source up to the rounding of its double
    arithmetic.  What is proved of the indicators and of the chart below
    is what does not depend on that rounding: when a function throws, how
    many points it returns and at which times, which element a sort, a
    maximum or a minimum selects, and the formula a value is computed by.
    Reading a property of [undefined] (an array read out of range
    followed by [.time] or [.close]) throws a TypeError in the source: the
    functions return an [option], [None] standing for that exception. *)

Module Candle.
Record t : Type := mk {
  time : Z;   (* Unix timestamp in seconds *)
  open : Q;
  high : Q;
  low : Q;
  close : Q
}.
End Candle.

Record IndicatorData : Type := mkIndicator {
  indicator_time : Z;
  indicator_value : Q
}.

(** [arr[i]]: [undefined] outside the array. *)
Definition at_index {A : Type} (arr : list A) (i : Z) : option A :=
  if i <? 0 then None else arr !! Z.to_nat i.

(** [arr.slice(start, end)]: a negative bound counts from the end, and
    both bounds are clamped to the array. *)
Definition js_slice {A : Type} (arr : list A) (start stop : Z) : list A :=
  let len := Z.of_nat (List.length arr) in
  let clamp (k : Z) := if k <? 0 then Z.max (len + k) 0 else Z.min k len in
  let from := clamp start in
  let to := clamp stop in
  take (Z.to_nat (to - from)) (drop (Z.to_nat from) arr).

(** [for (let i = from; i < to; i++) body], [to] being fixed; the body
    may throw. *)
Fixpoint for_loop {S : Type} (count : nat) (i : Z) (body : Z -> S -> option S) (s : S)
  : option S :=
  match count with
  | O => Some s
  | S count' =>
      match body i s with
      | None => None
      | Some s' => for_loop count' (i + 1) body s'
      end
  end.

Definition for_range {S : Type} (from to : Z) (body : Z -> S -> option S) (s : S)
  : option S :=
  for_loop (Z.to_nat (to - from)) from body s.

(** [items.reduce((acc, item) => acc + item.close, 0)] *)
Definition sum_close (items : list Candle.t) : Q :=
  fold_left (fun acc item => (acc + Candle.close item)%Q) items (0 # 1).

(** Simple Moving Average *)
Definition calculateSMA (data : list Candle.t) (period : Z) : option (list IndicatorData) :=
  for_range (period - 1) (Z.of_nat (List.length data))
    (fun i (smaData : list IndicatorData) =>
       let slice := js_slice data (i - period + 1) (i + 1) in
       let sum := sum_close slice in
       let average := (sum / inject_Z period)%Q in
       match at_index data i with
       | None => None (* data[i].time *)
       | Some item =>
           Some (smaData ++ [ {| indicator_time := Candle.time item;
                                 indicator_value := average |} ])%list
       end)
    [].

(** Exponential Moving Average *)
Definition calculateEMA (data : list Candle.t) (period : Z) : option (list IndicatorData) :=
  let multiplier := ((2 # 1) / inject_Z (period + 1))%Q in
  if (List.length data =? 0)%nat then Some [] else
  (* Start with SMA for the first value *)
  let ema := (sum_close (js_slice data 0 period) / inject_Z period)%Q in
  match at_index data (period - 1) with
  | None => None (* data[period - 1].time *)
  | Some first =>
      let emaData := [ {| indicator_time := Candle.time first; indicator_value := ema |} ] in
      option_map snd
        (for_range period (Z.of_nat (List.length data))
           (fun i (state : Q * list IndicatorData) =>
              let (ema, emaData) := state in
              match at_index data i with
              | None => None (* data[i].close *)
              | Some item =>
                  let ema := (Candle.close item * multiplier + ema * ((1 # 1) - multiplier))%Q in
                  Some (ema, (emaData ++ [ {| indicator_time := Candle.time item;
                                              indicator_value := ema |} ])%list)
              end)
           (ema, emaData))
  end.

Record MACDData : Type := mkMACD {
  macd_time : Z;
  macd : Q;
  signal : Q;
  histogram : Q
}.

(** [x?.value || 0] *)
Definition value_or_zero (x : option IndicatorData) : Q :=
  match x with
  | Some item => if Qeq_bool (indicator_value item) (0 # 1) then 0 # 1
                 else indicator_value item
  | None => 0 # 1
  end.

(** MACD (Moving Average Convergence Divergence) *)
Definition calculateMACD (data : list Candle.t) (fastPeriod slowPeriod signalPeriod : Z)
  : option (list MACDData) :=
  (* Calculate EMAs *)
  match calculateEMA data fastPeriod with
  | None => None
  | Some fastEMA =>
  match calculateEMA data slowPeriod with
  | None => None
  | Some slowEMA =>
  (* Calculate MACD line *)
  let fastLength := Z.of_nat (List.length fastEMA) in
  let slowLength := Z.of_nat (List.length slowEMA) in
  let startIndex := Z.max fastLength slowLength - Z.min fastLength slowLength in
  match
    for_range startIndex (Z.min fastLength slowLength)
      (fun i (macdLine : list IndicatorData) =>
         let fastValue := value_or_zero (at_index fastEMA i) in
         let slowValue := value_or_zero (at_index slowEMA i) in
         match at_index data (i + slowPeriod - 1) with
         | None => None (* data[i + slowPeriod - 1].time *)
         | Some item =>
             Some (macdLine ++ [ {| indicator_time := Candle.time item;
                                    indicator_value := (fastValue - slowValue)%Q |} ])%list
         end)
      []
  with
  | None => None
  | Some macdLine =>
  (* Calculate signal line (EMA of MACD) *)
  match
    calculateEMA
      (List.map (fun item =>
                   {| Candle.time := indicator_time item;
                      Candle.close := indicator_value item;
                      Candle.open := indicator_value item;
                      Candle.high := indicator_value item;
                      Candle.low := indicator_value item |}) macdLine)
      signalPeriod
  with
  | None => None
  | Some signalLine =>
  (* Combine MACD and signal *)
  let macdLength := Z.of_nat (List.length macdLine) in
  let signalLength := Z.of_nat (List.length signalLine) in
  for_range 0 (Z.min macdLength signalLength)
    (fun i (macdData : list MACDData) =>
       let macdValue := value_or_zero (at_index macdLine (i + (macdLength - signalLength))) in
       let signalValue := value_or_zero (at_index signalLine i) in
       match at_index signalLine i with
       | None => None (* signalLine[i].time *)
       | Some point =>
           Some (macdData ++ [ {| macd_time := indicator_time point;
                                  macd := macdValue;
                                  signal := signalValue;
                                  histogram := (macdValue - signalValue)%Q |} ])%list
       end)
    []
  end end end end.

(** Sample candles: [n] candles, one a minute, closing at 100, 101, ... *)
Definition sample_candles (n : nat) : list Candle.t :=
  List.map (fun k => {| Candle.time := 60 * Z.of_nat k;
                        Candle.open := inject_Z (100 + Z.of_nat k);
                        Candle.high := inject_Z (100 + Z.of_nat k);
                        Candle.low := inject_Z (100 + Z.of_nat k);
                        Candle.close := inject_Z (100 + Z.of_nat k) |})
    (seq 0 n).

(** ** Chart aggregation (first part of src/utils/chartDataAggregation.ts)

    A [Date] is its number of milliseconds since the epoch ([Z]).  The
    source reads and rounds dates in local time; the model takes the
    zone to be at a fixed offset [zone] from UTC, in minutes (zones that
    change their offset are outside the model).  [created_at] is kept as
    the instant it denotes, and [toISOString()], used as map key, as the
    instant itself. *)

Module ChartTransaction.
Record t : Type := mk {
  id : string;
  buyer_id : string;
  seller_id : option string;
  tradeable_user_id : string;
  transaction_type : TransactionType;
  quantity : Z;
  price_per_share : Q;
  total_amount : Q;
  created_at : Z
}.
End ChartTransaction.

Record VolumeData : Type := mkVolume {
  volume_time : Z;
  volume_value : Z
}.

Record ChartDataResult : Type := mkChart {
  candlestickData : list Candle.t;
  volumeData : list VolumeData;
  currentPrice : Q;
  priceChange : Q;
  priceChangePercent : Q
}.

Inductive TimeInterval : Set :=
| interval_1min | interval_5min | interval_15min | interval_1h | interval_1d.

(** The length of an interval, in milliseconds. *)
Definition interval_ms (interval : TimeInterval) : Z :=
  match interval with
  | interval_1min => 60000
  | interval_5min => 5 * 60000
  | interval_15min => 15 * 60000
  | interval_1h => 3600000
  | interval_1d => 86400000
  end.

Section LocalTime.

(** Local time is UTC plus [zone] minutes. *)
Variable zone : Z.

Definition local (date : Z) : Z := date + zone * 60000.
Definition from_local (l : Z) : Z := l - zone * 60000.

(* date-fns startOfMinute, startOfHour, startOfDay *)
Definition startOfMinute (date : Z) : Z :=
  from_local (local date / 60000 * 60000).
Definition startOfHour (date : Z) : Z :=
  from_local (local date / 3600000 * 3600000).
Definition startOfDay (date : Z) : Z :=
  from_local (local date / 86400000 * 86400000).

(* Date.prototype.getMinutes *)
Definition getMinutes (date : Z) : Z := (local date / 60000) mod 60.

(* Date.prototype.setMinutes(min, sec, ms) *)
Definition setMinutes (date : Z) (min sec ms : Z) : Z :=
  from_local (local date / 3600000 * 3600000 + min * 60000 + sec * 1000 + ms).

(* date-fns addMinutes, addHours, addDays *)
Definition addMinutes (date amount : Z) : Z := date + amount * 60000.
Definition addHours (date amount : Z) : Z := date + amount * 3600000.
Definition addDays (date amount : Z) : Z := date + amount * 86400000.

Definition getTimeIntervalStart (date : Z) (interval : TimeInterval) : Z :=
  match interval with
  | interval_1min => startOfMinute date
  | interval_5min =>
      let minute := getMinutes date in
      let roundedMinute := minute / 5 * 5 in
      setMinutes date roundedMinute 0 0
  | interval_15min =>
      let minute15 := getMinutes date in
      let roundedMinute15 := minute15 / 15 * 15 in
      setMinutes date roundedMinute15 0 0
  | interval_1h => startOfHour date
  | interval_1d => startOfDay date
  end.

(** The step at the end of a turn of [generateTimeRange]'s loop. *)
Definition advance (current : Z) (interval : TimeInterval) : Z :=
  match interval with
  | interval_1min => addMinutes current 1
  | interval_5min => addMinutes current 5
  | interval_15min => addMinutes current 15
  | interval_1h => addHours current 1
  | interval_1d => addDays current 1
  end.

(** [while (current <= endDate) { timePoints.push(current); current = ... }],
    run for at most [fuel] turns. *)
Fixpoint time_range_loop (fuel : nat) (current endDate : Z) (interval : TimeInterval)
    (timePoints : list Z) : list Z :=
  match fuel with
  | O => timePoints
  | S fuel' =>
      if current <=? endDate
      then time_range_loop fuel' (advance current interval) endDate interval
             (timePoints ++ [current])
      else timePoints
  end.

(** The turns given to the loop: one more than the number of whole
    intervals between its first point and [endDate], which is enough for
    it to reach its exit (lemma [time_range_loop_exits]). *)
Definition turns (current endDate : Z) (interval : TimeInterval) : nat :=
  Z.to_nat ((endDate - current) / interval_ms interval + 1).

Definition generateTimeRange (startDate endDate : Z) (interval : TimeInterval) : list Z :=
  let current := getTimeIntervalStart startDate interval in
  time_range_loop (turns current endDate interval) current endDate interval [].

End LocalTime.

(** [array.sort((a, b) => time(a) - time(b))]: a stable sort by time. *)
Fixpoint insert_by_time (t : ChartTransaction.t) (sorted : list ChartTransaction.t)
  : list ChartTransaction.t :=
  match sorted with
  | [] => [t]
  | u :: rest =>
      if ChartTransaction.created_at t <=? ChartTransaction.created_at u
      then t :: u :: rest
      else u :: insert_by_time t rest
  end.

Definition sort_by_time (transactions : list ChartTransaction.t)
  : list ChartTransaction.t :=
  foldr insert_by_time [] transactions.

(** [Math.max(...prices)] and [Math.min(...prices)] of a non-empty array. *)
Definition max_price (first : Q) (rest : list Q) : Q := fold_left Qmax rest first.
Definition min_price (first : Q) (rest : list Q) : Q := fold_left Qmin rest first.

(** One turn of [timePoints.forEach]: the candle and the volume bar of
    [timePoint], and the price carried to the next turn. *)
Definition candle_of (intervalMap : gmap Z (list ChartTransaction.t))
    (lastPrice : Q) (timePoint : Z) : Q * Candle.t * VolumeData :=
  let intervalTransactions := default [] (intervalMap !! timePoint) in
  let timestamp := timePoint / 1000 in
  match sort_by_time intervalTransactions with
  | first :: rest =>
      let sortedInterval := first :: rest in
      let open := ChartTransaction.price_per_share first in
      let close := ChartTransaction.price_per_share (List.last rest first) in
      let prices := List.map ChartTransaction.price_per_share rest in
      let high := max_price (ChartTransaction.price_per_share first) prices in
      let low := min_price (ChartTransaction.price_per_share first) prices in
      let volume :=
        fold_left (fun sum t => sum + ChartTransaction.quantity t) sortedInterval 0 in
      (close,
       {| Candle.time := timestamp; Candle.open := open; Candle.high := high;
          Candle.low := low; Candle.close := close |},
       {| volume_time := timestamp; volume_value := volume |})
  | [] =>
      (* No transactions in this interval - use last price for all OHLC *)
      (lastPrice,
       {| Candle.time := timestamp; Candle.open := lastPrice; Candle.high := lastPrice;
          Candle.low := lastPrice; Candle.close := lastPrice |},
       {| volume_time := timestamp; volume_value := 0 |})
  end.

(** The body of [timePoints.forEach]: it pushes the candle and the bar
    and keeps the last price. *)
Abbreviation candle_step intervalMap :=
  (fun (state : Q * list Candle.t * list VolumeData) timePoint =>
     let '(lastPrice, candlestickData, volumeData) := state in
     let '(lastPrice', candle, volume) := candle_of intervalMap lastPrice timePoint in
     (lastPrice', (candlestickData ++ [candle])%list, (volumeData ++ [volume])%list)).

Definition candles_of (intervalMap : gmap Z (list ChartTransaction.t))
    (timePoints : list Z) : Q * list Candle.t * list VolumeData :=
  fold_left (candle_step intervalMap) timePoints (100 # 1, [], []).

Section Aggregation.

(** Local time is UTC plus [zone] minutes. *)
Variable zone : Z.

(** Group transactions by time intervals. *)
Definition group_by_interval (interval : TimeInterval)
    (sortedTransactions : list ChartTransaction.t) : gmap Z (list ChartTransaction.t) :=
  fold_left
    (fun intervalMap transaction =>
       let transactionDate := ChartTransaction.created_at transaction in
       let key := getTimeIntervalStart zone transactionDate interval in
       <[key := (default [] (intervalMap !! key) ++ [transaction])%list]> intervalMap)
    sortedTransactions ∅.

(** [aggregateToOHLCV]; [now] is what [new Date()] and [Date.now()]
    return during the call. *)
Definition aggregateToOHLCV (now : Z) (transactions : list ChartTransaction.t)
    (interval : TimeInterval) : ChartDataResult :=
  let default_result :=
    (* Return default data with starting price of $100 *)
    let startTime := now / 1000 - 86400 in
    {| candlestickData :=
         [ {| Candle.time := startTime; Candle.open := 100 # 1; Candle.high := 100 # 1;
              Candle.low := 100 # 1; Candle.close := 100 # 1 |} ];
       volumeData := [ {| volume_time := startTime; volume_value := 0 |} ];
       currentPrice := 100 # 1;
       priceChange := 0 # 1;
       priceChangePercent := 0 # 1 |} in
  if (List.length transactions =? 0)%nat then default_result else
  (* Sort transactions by time *)
  match sort_by_time transactions with
  | [] => default_result (* not reached: sorting keeps every transaction *)
  | firstTransaction :: others =>
      let sortedTransactions := firstTransaction :: others in
      let lastTransaction := List.last others firstTransaction in
      let startDate := ChartTransaction.created_at firstTransaction in
      let endDate := ChartTransaction.created_at lastTransaction in
      (* Extend range to have more chart context *)
      let extendedStartDate := startDate - 24 * 60 * 60 * 1000 in
      let extendedEndDate := Z.max endDate now in
      let timePoints := generateTimeRange zone extendedStartDate extendedEndDate interval in
      let intervalMap := group_by_interval interval sortedTransactions in
      let '(lastPrice, candlestickData, volumeData) := candles_of intervalMap timePoints in
      (* Calculate price change *)
      let firstPrice :=
        match candlestickData with
        | first :: _ =>
            if Qeq_bool (Candle.open first) (0 # 1) then 100 # 1 else Candle.open first
        | [] => 100 # 1
        end in
      let currentPrice := lastPrice in
      let priceChange := (currentPrice - firstPrice)%Q in
      let priceChangePercent :=
        if Qltb (0 # 1) firstPrice then (priceChange / firstPrice * (100 # 1))%Q
        else 0 # 1 in
      {| candlestickData := candlestickData;
         volumeData := volumeData;
         currentPrice := currentPrice;
         priceChange := priceChange;
         priceChangePercent := priceChangePercent |}
  end.

End Aggregation.

(** The interval a transaction falls in: its key in the interval map. *)
Definition interval_of (zone : Z) (interval : TimeInterval) (t : ChartTransaction.t) : Z :=
  getTimeIntervalStart zone (ChartTransaction.created_at t) interval.


(** The shares that change hands in a list of transactions, and the
    volume a list of bars shows. *)
Definition traded (transactions : list ChartTransaction.t) : Z :=
  foldr (fun t sum => ChartTransaction.quantity t + sum) 0 transactions.

Definition total_volume (bars : list VolumeData) : Z :=
  foldr (fun bar sum => volume_value bar + sum) 0 bars.

(** A candle whose body lies within its wicks. *)
Definition well_formed (c : Candle.t) : Prop :=
  (Candle.low c <= Candle.open c <= Candle.high c
   /\ Candle.low c <= Candle.close c <= Candle.high c)%Q.


(** Volume Weighted Average Price (VWAP).  The loop reads
    [candlestickData[i]] within the array, and [volumeData[i]?.value || 0]
    is 0 where [volumeData] is shorter. *)
Definition calculateVWAP (candlestickData : list Candle.t) (volumeData : list VolumeData)
  : option (list IndicatorData) :=
  option_map snd
    (for_range 0 (Z.of_nat (List.length candlestickData))
       (fun i (state : Q * Q * list IndicatorData) =>
          let '(cumulativePriceVolume, cumulativeVolume, vwapData) := state in
          match at_index candlestickData i with
          | None => None (* candle.high *)
          | Some candle =>
              let volume :=
                match at_index volumeData i with
                | Some bar =>
                    if volume_value bar =? 0 then 0 # 1 else inject_Z (volume_value bar)
                | None => 0 # 1
                end in
              (* Typical price (high + low + close) / 3 *)
              let typicalPrice :=
                ((Candle.high candle + Candle.low candle + Candle.close candle) / (3 # 1))%Q in
              let cumulativePriceVolume :=
                (cumulativePriceVolume + typicalPrice * volume)%Q in
              let cumulativeVolume := (cumulativeVolume + volume)%Q in
              let vwap :=
                if Qltb (0 # 1) cumulativeVolume
                then (cumulativePriceVolume / cumulativeVolume)%Q
                else typicalPrice in
              Some (cumulativePriceVolume, cumulativeVolume,
                    (vwapData ++ [ {| indicator_time := Candle.time candle;
                                      indicator_value := vwap |} ])%list)
          end)
       (0 # 1, 0 # 1, [])).

(** A price between two bounds. *)
Definition within (lowest highest price : Q) : Prop := (lowest <= price <= highest)%Q.

(** Sample trades, the later one first. *)
Definition sample_trades : list ChartTransaction.t :=
  [ {| ChartTransaction.id := "t2"; ChartTransaction.buyer_id := "bob";
       ChartTransaction.seller_id := None; ChartTransaction.tradeable_user_id := "alice";
       ChartTransaction.transaction_type := buy; ChartTransaction.quantity := 3;
       ChartTransaction.price_per_share := 105 # 1;
       ChartTransaction.total_amount := 315 # 1;
       ChartTransaction.created_at := 7200000 |};
    {| ChartTransaction.id := "t1"; ChartTransaction.buyer_id := "bob";
       ChartTransaction.seller_id := None; ChartTransaction.tradeable_user_id := "alice";
       ChartTransaction.transaction_type := buy; ChartTransaction.quantity := 5;
       ChartTransaction.price_per_share := 102 # 1;
       ChartTransaction.total_amount := 510 # 1;
       ChartTransaction.created_at := 3600000 |} ].
(** * Properties *)

(** ** Auxiliary facts *)

(** One step of case analysis on a terminated run: the scrutinee is a
    fault, a response, a comparison or a looked-up row. *)
Ltac break_run H :=
  cbn [run perform TransactionType_eqb andb
       user_accounts profiles shares transactions
       set_user_accounts set_profiles set_shares set_transactions] in H;
  match type of H with
  | context [match ?x with _ => _ end] =>
      lazymatch x with
      | context [match _ with _ => _ end] => fail
      | _ => destruct x eqn:?
      end
  end.

(** A run that ended in a [failed] result is not a settled one. *)
Ltac not_settled H Hs :=
  cbn [run] in H; injection H as <- <-; discriminate Hs.

(** Case analysis of a settled run: every branch that returns [failed]
    is closed, the settled ones remain. *)
Ltac settled_cases H Hs :=
  repeat (break_run H; try solve [not_settled H Hs]);
  cbn [run] in H; try solve [not_settled H Hs].

(** Boolean comparisons of a branch, as propositions. *)
Ltac leb_facts :=
  repeat match goal with
    | H : (_ <=? _) = true |- _ => apply Z.leb_le in H
    | H : (_ <=? _) = false |- _ => apply Z.leb_gt in H
    | H : (_ <? _) = true |- _ => apply Z.ltb_lt in H
    | H : (_ <? _) = false |- _ => apply Z.ltb_ge in H
    | H : (_ =? _) = true |- _ => apply Z.eqb_eq in H
    | H : (_ =? _) = false |- _ => apply Z.eqb_neq in H
    end.

(** The row read back from a table that was looked up before. *)
Ltac known_row :=
  match goal with
  | E : ?m !! ?k = _ |- context [?m !! ?k] => rewrite E
  end.

(** ** A sell without a position (executeTradeTransaction) *)

(** C10. A sell order given to [executeTradeTransaction] when the seller
    has no [shares] row for the issuer returns a failure whose message is
    'Cannot sell shares you do not own'; by then the seller's balance has
    been credited by quantity x pricePerShare and the issuer's
    [available_shares] is the former value plus the quantity (the rest of
    the issuer's row being as it was), neither write is undone, and no
    transaction row has been recorded. *)
Theorem sell_without_position_fails_after_crediting
    (buyerId tradeableUserId : string) (quantity : Z) (pricePerShare : Q)
    (db : Database) (faults : Faults) (balance : Q) (profile : Profile.t) :
  user_accounts db !! buyerId = Some balance ->
  profiles db !! tradeableUserId = Some profile ->
  shares db !! (buyerId, tradeableUserId) = None ->
  (forall n, (n < 5)%nat -> faults n = None) ->
  let (result, db') :=
    run (executeTradeTransaction buyerId tradeableUserId quantity pricePerShare sell)
      faults 0 db in
  success result = false
  /\ error result = Some "Cannot sell shares you do not own"
  /\ transactionId result = None
  /\ user_accounts db' !! buyerId
     = Some (balance + inject_Z quantity * pricePerShare)%Q
  /\ (exists profile',
        profiles db' !! tradeableUserId = Some profile'
        /\ Profile.available_shares profile' = Profile.available_shares profile + quantity
        /\ Profile.total_shares profile' = Profile.total_shares profile
        /\ Profile.is_tradeable profile' = Profile.is_tradeable profile
        /\ Profile.username profile' = Profile.username profile
        /\ Profile.current_price profile' = Profile.current_price profile)
  /\ transactions db' = transactions db
  /\ shares db' = shares db.
Proof.
  intros Ha Hp Hs Hf.
  unfold executeTradeTransaction.
  cbn [run]. rewrite (Hf 0%nat) by lia. cbn [perform]. rewrite Ha.
  cbn [run TransactionType_eqb andb]. rewrite (Hf 1%nat) by lia.
  cbn [perform]. rewrite Hp.
  cbn [run TransactionType_eqb andb]. rewrite (Hf 2%nat) by lia. cbn [perform].
  cbn [run]. rewrite (Hf 3%nat) by lia. cbn [perform].
  cbn [run]. rewrite (Hf 4%nat) by lia.
  cbn [perform shares set_profiles set_user_accounts]. rewrite Hs.
  cbn [run user_accounts profiles shares transactions set_profiles set_user_accounts
       success error transactionId failed].
  split; [reflexivity|]. split; [reflexivity|]. split; [reflexivity|].
  split; [rewrite lookup_alter_eq, Ha; reflexivity|].
  split; [|split; reflexivity].
  eexists. split; [rewrite lookup_alter_eq, Hp; reflexivity|].
  cbn. repeat split.
Qed.

Lemma sell_without_position_witness :
  let (result, db') :=
    run (executeTradeTransaction "carol" "bob" 10 (10 # 1) sell) no_faults 0 Sample.db in
  success result = false
  /\ error result = Some "Cannot sell shares you do not own"
  /\ user_accounts db' !! "carol" = Some ((1000 # 1) + inject_Z 10 * (10 # 1))%Q
  /\ (Profile.available_shares <$> profiles db' !! "bob") = Some (95 + 10)
  /\ transactions db' = transactions Sample.db
  /\ shares db' = shares Sample.db.
Proof.
  pose proof (sell_without_position_fails_after_crediting
                "carol" "bob" 10 (10 # 1) Sample.db no_faults (1000 # 1) Sample.bob
                eq_refl eq_refl eq_refl (fun n _ => eq_refl)) as H.
  destruct (run _ no_faults 0%nat Sample.db) as [result db'].
  destruct H as (Hs & He & _ & Ha & (profile' & Hp & Havailable & _) & Hlog & Hshares).
  repeat split; try assumption.
  rewrite Hp. cbn. rewrite Havailable. reflexivity.
Defined.

(** ** The funds check of a buy (executeTradeTransaction) *)

(** C8, at its failing input: dave has 300.03 in cash and buys 3 shares
    at 100.01, which cost 300.03.  His balance is not less than
    quantity x pricePerShare, yet [executeTradeTransaction] refuses the
    order with 'Insufficient funds' and debits nothing: the product it
    compares the balance with is a double, 300.03000000000003. *)
Theorem exactly_funded_buy_is_refused :
  let balance := 30003 # 100 in
  let pricePerShare := 10001 # 100 in
  let (result, db') :=
    run (executeTradeTransaction "dave" "erin" 3 pricePerShare buy)
      no_faults 0 Sample.exactly_funded in
  user_accounts Sample.exactly_funded !! "dave" = Some balance
  /\ (inject_Z 3 * pricePerShare == balance)%Q
  /\ ~ (balance < inject_Z 3 * pricePerShare)%Q
  /\ success result = false
  /\ error result = Some "Insufficient funds"
  /\ db' = Sample.exactly_funded.
Proof.
  cbv zeta.
  destruct (run _ no_faults 0%nat Sample.exactly_funded) as [result db'] eqn:H.
  vm_compute in H. injection H as <- <-.
  split; [reflexivity|]. split; [reflexivity|].
  split; [intros Hlt; vm_compute in Hlt; discriminate Hlt|].
  split; [reflexivity|]. split; reflexivity.
Qed.

(** The comparison is the only place where the double matters: with one
    cent more the same order settles, and is debited 300.03 exactly. *)
Lemma funded_buy_is_debited :
  let db := set_user_accounts Sample.exactly_funded {[ "dave" := 30004 # 100 ]} in
  let (result, db') :=
    run (executeTradeTransaction "dave" "erin" 3 (10001 # 100) buy) no_faults 0 db in
  success result = true
  /\ exists balance', user_accounts db' !! "dave" = Some balance'
                      /\ (balance' == 1 # 100)%Q.
Proof.
  cbv zeta.
  destruct (run _ no_faults 0%nat _) as [result db'] eqn:H.
  vm_compute in H. injection H as <- <-.
  split; [reflexivity|]. eexists. split; reflexivity.
Qed.

(** ** What a DECIMAL(10,2) column keeps *)

Lemma decimal_10_2_exact (q : Q) : whole_cents q = true -> decimal_10_2 q = q.
Proof. unfold decimal_10_2. intros ->. reflexivity. Qed.

Lemma whole_cents_hundredths (c : Z) : whole_cents (c # 100) = true.
Proof. unfold whole_cents. cbn [Qnum Qden]. rewrite Z.mod_mul by lia. reflexivity. Qed.

Lemma decimal_10_2_whole (q : Q) : whole_cents (decimal_10_2 q) = true.
Proof.
  unfold decimal_10_2. destruct (whole_cents q) eqn:Hq; [exact Hq|].
  apply whole_cents_hundredths.
Qed.

Lemma hundredths (c : Z) : (c # 100 == inject_Z c * (1 # 100))%Q.
Proof. unfold Qeq, inject_Z. cbn. lia. Qed.

(** The column keeps a value within half a cent of what it is sent. *)
Lemma decimal_10_2_near (q : Q) : (Qabs (decimal_10_2 q - q) <= 1 # 200)%Q.
Proof.
  unfold decimal_10_2. destruct (whole_cents q).
  - apply Qabs_Qle_condition. split; lra.
  - apply Qabs_Qle_condition. unfold cents.
    destruct (Qle_bool (0 # 1) q).
    + pose proof (Qfloor_le (q * (100 # 1) + (1 # 2))) as Hlow.
      pose proof (Qlt_floor (q * (100 # 1) + (1 # 2))) as Hhigh.
      rewrite hundredths.
      rewrite inject_Z_plus in Hhigh. change (inject_Z 1) with (1 # 1)%Q in Hhigh.
      split; lra.
    + pose proof (Qfloor_le (- q * (100 # 1) + (1 # 2))) as Hlow.
      pose proof (Qlt_floor (- q * (100 # 1) + (1 # 2))) as Hhigh.
      rewrite hundredths, inject_Z_opp.
      rewrite inject_Z_plus in Hhigh. change (inject_Z 1) with (1 # 1)%Q in Hhigh.
      split; lra.
Qed.

(** ** Position arithmetic (executeTradeTransaction) *)

(** C7, counterexample.  alice holds 5 of bob's shares at 10.00 and buys
    one more at 11.00: the order settles and the average cost stored is
    10.17, not (5*10 + 1*11)/6.  And when she sells her 5 shares the
    order settles and her row is still there, with its 5 shares: the
    DELETE the code issues removes nothing. *)
Lemma stored_average_differs_from_the_formula :
  (let (result, db') :=
     run (executeTradeTransaction "alice" "bob" 1 (11 # 1) buy) no_faults 0 Sample.db in
   shares Sample.db !! ("alice", "bob")
     = Some {| Shares.quantity := 5; Shares.average_price := 10 # 1 |}
   /\ success result = true
   /\ shares db' !! ("alice", "bob")
      = Some {| Shares.quantity := 6; Shares.average_price := 1017 # 100 |}
   /\ ~ (1017 # 100
         == (inject_Z 5 * (10 # 1) + inject_Z 1 * (11 # 1)) / inject_Z (5 + 1))%Q)
  /\ (let (result, db') :=
        run (executeTradeTransaction "alice" "bob" 5 (11 # 1) sell) no_faults 0 Sample.db in
      success result = true
      /\ shares db' !! ("alice", "bob")
         = Some {| Shares.quantity := 5; Shares.average_price := 10 # 1 |}).
Proof.
  split.
  - destruct (run _ no_faults 0%nat Sample.db) as [result db'] eqn:H.
    vm_compute in H. injection H as <- <-.
    split; [reflexivity|]. split; [reflexivity|]. split; [reflexivity|].
    intros Heq. vm_compute in Heq. discriminate Heq.
  - destruct (run _ no_faults 0%nat Sample.db) as [result db'] eqn:H.
    vm_compute in H. injection H as <- <-.
    split; reflexivity.
Qed.

(** C7 (amended). Against an existing position [(q1, avg1)] (a held
    quantity is not negative, an order's quantity is positive, a stored
    average is a whole number of cents): a settled buy of [q2] at [p2]
    leaves the position at quantity [q1 + q2] and at the average cost
    [(q1*avg1 + q2*p2) / (q1 + q2)] as the DECIMAL(10,2) column keeps it,
    a whole number of cents within half a cent of it, and that value
    itself when it is a whole number of cents; a settled sell that leaves
    a positive quantity leaves the position at [(q1 - q2, avg1)], the
    average cost unchanged. *)
Theorem position_cost_basis_law
    (buyerId tradeableUserId : string) (q2 : Z) (p2 : Q)
    (transactionType : TransactionType)
    (db : Database) (faults : Faults) (q1 : Z) (avg1 : Q) :
  shares db !! (buyerId, tradeableUserId)
    = Some {| Shares.quantity := q1; Shares.average_price := avg1 |} ->
  let (result, db') :=
    run (executeTradeTransaction buyerId tradeableUserId q2 p2 transactionType)
      faults 0 db in
  success result = true ->
  let position := shares db' !! (buyerId, tradeableUserId) in
  match transactionType with
  | buy =>
      0 <= q1 -> 0 < q2 ->
      let average :=
        ((inject_Z q1 * avg1 + inject_Z q2 * p2) / inject_Z (q1 + q2))%Q in
      exists stored,
        position = Some {| Shares.quantity := q1 + q2; Shares.average_price := stored |}
        /\ whole_cents stored = true
        /\ (Qabs (stored - average) <= 1 # 200)%Q
        /\ (whole_cents average = true -> stored = average)
  | sell =>
      whole_cents avg1 = true -> 0 < q1 - q2 ->
      position = Some {| Shares.quantity := q1 - q2; Shares.average_price := avg1 |}
  end.
Proof.
  intros Hpos.
  destruct (run _ faults 0%nat db) as [result db'] eqn:H.
  intros Hs position. subst position.
  unfold executeTradeTransaction in H.
  destruct transactionType.
  - intros Hq1 Hq2 average.
    settled_cases H Hs; simplify_eq; leb_facts;
      cbn [shares set_transactions set_shares set_profiles set_user_accounts
           Shares.quantity Shares.average_price] in *; try lia.
    rewrite lookup_alter_eq. known_row. cbn [fmap option_fmap option_map].
    eexists. split; [reflexivity|].
    split; [apply decimal_10_2_whole|].
    split; [apply decimal_10_2_near | apply decimal_10_2_exact].
  - intros Hcents Hleft.
    settled_cases H Hs; simplify_eq; leb_facts;
      cbn [shares set_transactions set_shares set_profiles set_user_accounts
           Shares.quantity Shares.average_price] in *; try lia.
    rewrite lookup_alter_eq. known_row. cbn [fmap option_fmap option_map].
    rewrite (decimal_10_2_exact _ Hcents). reflexivity.
Qed.

Lemma position_cost_basis_witness :
  (let (result, db') :=
     run (executeTradeTransaction "alice" "bob" 20 (12 # 1) buy) no_faults 0 Sample.db in
   shares db' !! ("alice", "bob")
   = Some {| Shares.quantity := 5 + 20;
             Shares.average_price :=
               ((inject_Z 5 * (10 # 1) + inject_Z 20 * (12 # 1)) / inject_Z (5 + 20))%Q |})
  /\ (let (result, db') :=
        run (executeTradeTransaction "alice" "bob" 1 (11 # 1) buy) no_faults 0 Sample.db in
      exists stored,
        shares db' !! ("alice", "bob")
        = Some {| Shares.quantity := 5 + 1; Shares.average_price := stored |}
        /\ (Qabs (stored
                  - (inject_Z 5 * (10 # 1) + inject_Z 1 * (11 # 1)) / inject_Z (5 + 1))
            <= 1 # 200)%Q)
  /\ (let (result, db') :=
        run (executeTradeTransaction "alice" "bob" 2 (12 # 1) sell) no_faults 0 Sample.db in
      shares db' !! ("alice", "bob")
      = Some {| Shares.quantity := 5 - 2; Shares.average_price := 10 # 1 |}).
Proof.
  split; [|split].
  - pose proof (position_cost_basis_law "alice" "bob" 20 (12 # 1) buy
                  Sample.db no_faults 5 (10 # 1) eq_refl) as H.
    destruct (run _ no_faults 0%nat Sample.db) as [result db'] eqn:E.
    destruct H as (stored & Hposition & _ & _ & Hexact); [|lia|lia|].
    { vm_compute in E. injection E as <- _. reflexivity. }
    rewrite Hposition, Hexact; reflexivity.
  - pose proof (position_cost_basis_law "alice" "bob" 1 (11 # 1) buy
                  Sample.db no_faults 5 (10 # 1) eq_refl) as H.
    destruct (run _ no_faults 0%nat Sample.db) as [result db'] eqn:E.
    destruct H as (stored & Hposition & _ & Hnear & _); [|lia|lia|].
    { vm_compute in E. injection E as <- _. reflexivity. }
    exists stored. split; assumption.
  - pose proof (position_cost_basis_law "alice" "bob" 2 (12 # 1) sell
                  Sample.db no_faults 5 (10 # 1) eq_refl) as H.
    destruct (run _ no_faults 0%nat Sample.db) as [result db'] eqn:E.
    apply H; [|reflexivity|lia]. vm_compute in E. injection E as <- _. reflexivity.
Defined.

(** ** No validation of quantity and price *)

(** C9, counterexample: a buy of -5 shares.  Both variants settle it,
    and have then paid 50 to the buyer. *)
Lemma nonpositive_quantity_settles :
  -5 <= 0
  /\ (let (result, db') :=
        run (executeTradeTransaction "alice" "bob" (-5) (10 # 1) buy)
          no_faults 0 Sample.db in
      success result = true
      /\ user_accounts db' !! "alice" = Some (1050 # 1)
      /\ List.length (transactions db') = 2%nat)
  /\ (let (result, db') :=
        run (executeTradeTransactionImproved "alice" "bob" (-5) (10 # 1) buy)
          no_faults 0 Sample.db in
      success result = true
      /\ user_accounts db' !! "alice" = Some (1050 # 1)
      /\ List.length (transactions db') = 2%nat).
Proof.
  split; [lia|]. split; vm_compute; repeat split; reflexivity.
Qed.

(** Every outcome of a call: [success: true], or a failure with one of
    the messages of [failure_messages]. *)
Ltac outcome_listed H :=
  repeat (break_run H);
  cbn [run] in H; injection H as <- <-;
  cbn [success error failed succeeded];
  first [ left; split; reflexivity
        | right; split; [reflexivity|];
          eexists; split; [reflexivity|]; cbn [In failure_messages]; tauto ].

(** C9 (amended). Neither variant validates the quantity or the price:
    whatever they are, positive or not, the first thing a call does is
    to read the buyer's account (so that, without one, it fails with
    'Failed to fetch buyer account information'), and the call either
    settles or fails with one of the messages of [failure_messages], of
    which none is about the quantity or the price. *)
Theorem orders_are_not_validated
    (buyerId tradeableUserId : string) (quantity : Z) (pricePerShare : Q)
    (transactionType : TransactionType) (db : Database) (faults : Faults) :
  forall settle,
  settle = executeTradeTransaction \/ settle = executeTradeTransactionImproved ->
  let result :=
    fst (run (settle buyerId tradeableUserId quantity pricePerShare transactionType)
           faults 0 db) in
  (user_accounts db !! buyerId = None ->
   success result = false
   /\ error result = Some "Failed to fetch buyer account information")
  /\ (success result = true /\ error result = None
      \/ success result = false
         /\ exists msg, error result = Some msg /\ In msg failure_messages).
Proof.
  intros settle Hsettle result. subst result. split.
  - intros Hnone.
    destruct Hsettle as [-> | ->];
      [unfold executeTradeTransaction | unfold executeTradeTransactionImproved];
      cbn [run perform]; rewrite Hnone; destruct (faults 0%nat);
      cbn [run fst success error failed]; split; reflexivity.
  - destruct (run _ faults 0%nat db) as [result db'] eqn:H. cbn [fst].
    destruct Hsettle as [-> | ->].
    + unfold executeTradeTransaction in H.
      destruct transactionType; outcome_listed H.
    + unfold executeTradeTransactionImproved in H.
      destruct transactionType; outcome_listed H.
Qed.

Lemma orders_are_not_validated_witness :
  (let result :=
     fst (run (executeTradeTransaction "alice" "bob" (-5) (10 # 1) buy)
            no_faults 0 Sample.db) in
   success result = true /\ error result = None)
  /\ (let result :=
        fst (run (executeTradeTransactionImproved "nobody" "bob" (-5) (0 # 1) sell)
               no_faults 0 Sample.db) in
      success result = false
      /\ error result = Some "Failed to fetch buyer account information").
Proof.
  split.
  - destruct (orders_are_not_validated "alice" "bob" (-5) (10 # 1) buy Sample.db
                no_faults executeTradeTransaction (or_introl eq_refl))
      as [_ [Hsettled | [Hfailed _]]].
    + exact Hsettled.
    + vm_compute in Hfailed. discriminate Hfailed.
  - destruct (orders_are_not_validated "nobody" "bob" (-5) (0 # 1) sell Sample.db
                no_faults executeTradeTransactionImproved (or_intror eq_refl))
      as [Hfirst _].
    apply Hfirst. reflexivity.
Defined.

(** ** Where the transaction row is written *)

(** Case analysis of a call, for goals that speak of [run] and [writes]
    of the same call. *)
Ltac break_goal :=
  cbn [run writes perform written is_data fst snd TransactionType_eqb andb
       user_accounts profiles shares transactions
       set_user_accounts set_profiles set_shares set_transactions];
  match goal with
  | |- context [match ?x with _ => _ end] =>
      lazymatch x with
      | context [match _ with _ => _ end] => fail
      | _ => destruct x eqn:?
      end
  end.

Ltac all_cases :=
  repeat break_goal;
  cbn [run writes perform written is_data fst snd success failed succeeded].

(** C4, counterexample: a plain buy of 20 shares.  The first table
    [executeTradeTransaction] writes is [user_accounts]; the
    [transactions] row comes last. *)
Lemma original_records_transaction_last :
  success (fst (run (executeTradeTransaction "alice" "bob" 20 (10 # 1) buy)
                  no_faults 0 Sample.db)) = true
  /\ writes (executeTradeTransaction "alice" "bob" 20 (10 # 1) buy)
       no_faults 0 Sample.db
     = [user_accounts_table; profiles_table; shares_table; transactions_table]
  /\ hd_error (writes (executeTradeTransaction "alice" "bob" 20 (10 # 1) buy)
                 no_faults 0 Sample.db)
     <> Some transactions_table.
Proof.
  split; [|split]; vm_compute; [reflexivity | reflexivity | discriminate].
Qed.

(** C4 (amended). [executeTradeTransactionImproved] appends the
    transaction row as its first mutating step, whether or not the order
    then settles: whatever statements fail, the tables it writes are
    none, or begin with [transactions]; when it settles they are
    [transactions], then the cash account, the issuer supply and the
    position.  [executeTradeTransaction] appends the row as its last
    mutating step: whenever it writes the transaction row, it has written
    the cash account, the issuer supply and the position before it, in
    that order, and it does so whenever it settles. *)
Theorem transaction_row_write_order
    (buyerId tradeableUserId : string) (quantity : Z) (pricePerShare : Q)
    (transactionType : TransactionType) (db : Database) (faults : Faults) :
  let improved :=
    executeTradeTransactionImproved buyerId tradeableUserId quantity pricePerShare
      transactionType in
  let original :=
    executeTradeTransaction buyerId tradeableUserId quantity pricePerShare
      transactionType in
  (writes improved faults 0 db = []
   \/ exists rest, writes improved faults 0 db = transactions_table :: rest)
  /\ (success (fst (run improved faults 0 db)) = true ->
      writes improved faults 0 db
      = [transactions_table; user_accounts_table; profiles_table; shares_table])
  /\ (In transactions_table (writes original faults 0 db) ->
      writes original faults 0 db
      = [user_accounts_table; profiles_table; shares_table; transactions_table])
  /\ (success (fst (run original faults 0 db)) = true ->
      writes original faults 0 db
      = [user_accounts_table; profiles_table; shares_table; transactions_table]).
Proof.
  cbv zeta. split; [|split; [|split]].
  - unfold executeTradeTransactionImproved.
    destruct transactionType; all_cases;
      solve [left; reflexivity | right; eexists; reflexivity].
  - unfold executeTradeTransactionImproved.
    destruct transactionType; all_cases; intros Hs;
      solve [discriminate Hs | reflexivity | congruence].
  - unfold executeTradeTransaction.
    destruct transactionType; all_cases; intros Hin;
      solve [reflexivity | cbn [In] in Hin; intuition discriminate].
  - unfold executeTradeTransaction.
    destruct transactionType; all_cases; intros Hs;
      solve [discriminate Hs | reflexivity | congruence].
Qed.

Lemma transaction_row_write_order_witness :
  writes (executeTradeTransactionImproved "alice" "bob" 20 (10 # 1) buy)
    no_faults 0 Sample.db
  = [transactions_table; user_accounts_table; profiles_table; shares_table]
  /\ writes (executeTradeTransaction "alice" "bob" 20 (10 # 1) buy)
       no_faults 0 Sample.db
     = [user_accounts_table; profiles_table; shares_table; transactions_table].
Proof.
  destruct (transaction_row_write_order "alice" "bob" 20 (10 # 1) buy
              Sample.db no_faults) as (_ & Himproved & _ & Horiginal).
  split.
  - apply Himproved. vm_compute. reflexivity.
  - apply Horiginal. vm_compute. reflexivity.
Defined.

(** ** Statements that fail *)

Lemma fail_at_Some (k n : nat) (e e' : PostgrestError) :
  fail_at k e n = Some e' -> k = n /\ e' = e.
Proof.
  unfold fail_at. destruct (Nat.eqb n k) eqn:E; [|discriminate].
  apply Nat.eqb_eq in E. intros [= <-]. split; congruence.
Qed.

(** Writing a row back to what it was. *)
Lemma alter_alter_restore {K : Type} `{Countable K} {V : Type}
    (m : gmap K V) (k : K) (v : V) (f g : V -> V) :
  m !! k = Some v -> g (f v) = v -> alter g k (alter f k m) = m.
Proof.
  intros Hk Hgf. apply map_eq. intros j.
  destruct (decide (k = j)) as [<-|Hne].
  - rewrite !lookup_alter_eq, Hk. cbn. congruence.
  - rewrite !lookup_alter_ne by exact Hne. reflexivity.
Qed.

Lemma with_available_shares_same (p : Profile.t) :
  with_available_shares (Profile.available_shares p) p = p.
Proof. destruct p. reflexivity. Qed.

(** C3, at its failing input: the write of [available_shares]
    (statement 3 of the call) fails.  [executeTradeTransaction] reports
    the failure and leaves alice's balance debited by 200: a non-success
    outcome with a changed database. *)
Lemma original_keeps_debit_when_supply_write_fails :
  let e := {| code := "57014"; message := "canceling statement due to statement timeout" |} in
  let (result, db') :=
    run (executeTradeTransaction "alice" "bob" 20 (10 # 1) buy) (fail_at 3 e) 0 Sample.db in
  result = failed "Failed to update share availability"
  /\ user_accounts Sample.db !! "alice" = Some (1000 # 1)
  /\ user_accounts db' !! "alice" = Some (800 # 1)
  /\ db' <> Sample.db.
Proof.
  vm_compute. repeat split; try reflexivity.
  intros Heq. discriminate Heq.
Qed.

(** Case analysis of a run under a single-fault plan: once the failing
    statement is met, the later ones are known to succeed. *)
Ltac break_fault H :=
  break_run H;
  try match goal with
    | Hx : fail_at _ _ _ = Some _ |- _ =>
        apply fail_at_Some in Hx; destruct Hx; subst;
        cbn [fail_at Nat.eqb] in *
    end.

Lemma with_available_shares_restore (n : Z) (p : Profile.t) :
  with_available_shares (Profile.available_shares p) (with_available_shares n p) = p.
Proof. destruct p. reflexivity. Qed.

(** The compensating updates have put a table back. *)
Ltac restored :=
  first
    [ reflexivity
    | eapply alter_alter_restore; [eassumption | reflexivity]
    | eapply alter_alter_restore; [eassumption | apply with_available_shares_restore] ].

(** The path of a run that met no fault, followed again without a fault
    plan. *)
Ltac same_path :=
  repeat (cbn [run perform no_faults TransactionType_eqb andb
               user_accounts profiles shares transactions
               set_user_accounts set_profiles set_shares set_transactions];
          match goal with
          | E : ?x = _ |- context [match ?x with _ => _ end] => rewrite E
          end);
  cbn [run]; reflexivity.

(** What the improved variant makes of C3, with one statement failing
    and the share count it computes passing its own range check.  A
    call that reports success met no failure: it is the call without the
    fault.  A call that reports a failure has put the cash account, the
    issuer's row and the position back as they were; but its DELETE of the
    transaction row removes nothing, so that, unless it failed before it
    wrote anything, the row of the order that did not settle stays in the
    log. *)
Lemma improved_rollback_restores_all_but_the_log
    (buyerId tradeableUserId : string) (quantity : Z) (pricePerShare : Q)
    (transactionType : TransactionType) (db : Database)
    (k : nat) (e : PostgrestError) :
  (forall p, profiles db !! tradeableUserId = Some p ->
     0 <= new_available_shares transactionType p quantity <= Profile.total_shares p) ->
  let improved :=
    executeTradeTransactionImproved buyerId tradeableUserId quantity pricePerShare
      transactionType in
  let (result, db') := run improved (fail_at k e) 0 db in
  (success result = true -> run improved no_faults 0 db = (result, db'))
  /\ (success result = false ->
      user_accounts db' = user_accounts db
      /\ profiles db' = profiles db
      /\ shares db' = shares db
      /\ ((exists msg, error result = Some msg /\ In msg improved_unwritten)
          /\ transactions db' = transactions db
          \/ exists txid,
               transactions db'
               = (transactions db
                  ++ [transaction_row txid buyerId tradeableUserId quantity
                        pricePerShare transactionType])%list)).
Proof.
  intros Hsane improved. subst improved.
  destruct (run _ (fail_at k e) 0%nat db) as [result db'] eqn:H.
  unfold executeTradeTransactionImproved in H.
  destruct transactionType;
    repeat (break_fault H);
    cbn [run] in H; injection H as <- <-;
    (split; intros Hs; [try discriminate Hs | try discriminate Hs]);
    try (exfalso; specialize (Hsane _ eq_refl); cbn [new_available_shares] in Hsane;
         leb_facts; lia);
    try (simplify_eq; unfold executeTradeTransactionImproved; same_path);
    try congruence;
    cbn [user_accounts profiles shares transactions
         set_user_accounts set_profiles set_shares set_transactions
         error failed];
    (split; [restored | split; [restored | split; [restored|]]]);
    first [ left; split; [eexists; split; [reflexivity | cbn; tauto] | reflexivity]
          | right; eexists; reflexivity ].
Qed.

(** The range check of the improved variant rejects after two writes; if
    the statement that fails is then the compensating balance write, the
    call returns a failure and the balance stays changed. *)
Lemma improved_compensation_can_fail :
  let e := {| code := "57014"; message := "canceling statement due to statement timeout" |} in
  let (result, db') :=
    run (executeTradeTransactionImproved "alice" "bob" 5 (10 # 1) sell)
      (fail_at 5 e) 0 Sample.drifted in
  result = failed "Invalid share calculation"
  /\ user_accounts Sample.drifted !! "alice" = Some (1000 # 1)
  /\ user_accounts db' !! "alice" = Some (1050 # 1).
Proof. vm_compute. repeat split; reflexivity. Qed.

(** The three ways a call changes [shares] keep the quantities
    non-negative. *)
Lemma nonneg_rows_alter (m : gmap (string * string) Shares.t)
    (k : string * string) (new : Shares.t) :
  0 <= Shares.quantity new -> nonneg_rows m -> nonneg_rows (alter (fun _ => new) k m).
Proof.
  intros Hnew Hm k' pos Hk'.
  destruct (decide (k = k')) as [<-|Hne].
  - rewrite lookup_alter_eq in Hk'. destruct (m !! k); [|discriminate].
    cbn in Hk'. injection Hk' as <-. exact Hnew.
  - rewrite lookup_alter_ne in Hk' by exact Hne. exact (Hm k' pos Hk').
Qed.

Lemma nonneg_rows_insert (m : gmap (string * string) Shares.t)
    (k : string * string) (new : Shares.t) :
  0 <= Shares.quantity new -> nonneg_rows m -> nonneg_rows (<[k := new]> m).
Proof.
  intros Hnew Hm k' pos Hk'.
  destruct (decide (k = k')) as [<-|Hne].
  - rewrite lookup_insert_eq in Hk'. injection Hk' as <-. exact Hnew.
  - rewrite lookup_insert_ne in Hk' by exact Hne. exact (Hm k' pos Hk').
Qed.

(** ** Overselling *)

(** C2, at its failing input: alice holds 5 of bob's shares and sells
    10.  [executeTradeTransaction] settles the order instead of rejecting
    it: alice is paid for 10 shares, bob's [available_shares] becomes 105
    of a total of 100, and the DELETE issued for her row removes nothing,
    so that she still holds her 5 shares. *)
Lemma original_settles_oversell :
  let (result, db') :=
    run (executeTradeTransaction "alice" "bob" 10 (10 # 1) sell) no_faults 0 Sample.db in
  shares Sample.db !! ("alice", "bob")
    = Some {| Shares.quantity := 5; Shares.average_price := 10 # 1 |}
  /\ success result = true
  /\ shares db' !! ("alice", "bob")
     = Some {| Shares.quantity := 5; Shares.average_price := 10 # 1 |}
  /\ user_accounts db' !! "alice" = Some (1100 # 1)
  /\ (Profile.available_shares <$> profiles db' !! "bob") = Some 105
  /\ (Profile.total_shares <$> profiles db' !! "bob") = Some 100.
Proof. vm_compute. repeat split; reflexivity. Qed.

(** Whatever the outcome, neither the oversell nor any other order of
    non-negative quantity leaves a negative quantity in [shares]: for a
    row whose new quantity is not positive the code issues a DELETE and no
    UPDATE, so the row keeps the quantity it had. *)
Lemma original_keeps_positions_nonneg
    (buyerId tradeableUserId : string) (quantity : Z) (pricePerShare : Q)
    (transactionType : TransactionType) (db : Database) (faults : Faults) :
  0 <= quantity ->
  nonneg_rows (shares db) ->
  nonneg_rows
    (shares (snd (run (executeTradeTransaction buyerId tradeableUserId quantity
                         pricePerShare transactionType) faults 0 db))).
Proof.
  intros Hq Hdb.
  destruct (run _ faults 0%nat db) as [result db'] eqn:H. cbn [snd].
  unfold executeTradeTransaction in H.
  destruct transactionType;
    repeat (break_run H);
    cbn [run] in H; injection H as <- <-;
    cbn [shares set_user_accounts set_profiles set_shares set_transactions];
    leb_facts;
    first [ exact Hdb
          | apply nonneg_rows_alter; [cbn [Shares.quantity]; lia | exact Hdb]
          | apply nonneg_rows_insert; [cbn [Shares.quantity]; lia | exact Hdb] ].
Qed.

(** The improved variant rejects every sell of more than is held, or
    with nothing held, whatever else happens, and writes nothing. *)
Lemma improved_rejects_oversell
    (buyerId tradeableUserId : string) (quantity : Z) (pricePerShare : Q)
    (db : Database) (faults : Faults) :
  (forall pos, shares db !! (buyerId, tradeableUserId) = Some pos ->
     Shares.quantity pos < quantity) ->
  let (result, db') :=
    run (executeTradeTransactionImproved buyerId tradeableUserId quantity pricePerShare
           sell) faults 0 db in
  success result = false /\ db' = db.
Proof.
  intros Hshort.
  destruct (run _ faults 0%nat db) as [result db'] eqn:H.
  unfold executeTradeTransactionImproved in H.
  do 3 (break_run H; try (cbn [run] in H; injection H as <- <-; split; reflexivity)).
  all: try (cbn [run] in H; injection H as <- <-; split; reflexivity).
  all: repeat (break_run H; try (cbn [run] in H; injection H as <- <-; split; reflexivity)).
  all: try (specialize (Hshort _ eq_refl); leb_facts; lia).
Qed.

(** ** Conservation of shares *)

Section Conservation.

(** The issuer whose shares are counted. *)
Variable issuer : string.

Lemma held_insert (m : gmap (string * string) Shares.t)
    (k : string * string) (v : Shares.t) :
  m !! k = None -> held issuer (<[k:=v]> m) = held issuer m + counted issuer k v.
Proof.
  intros Hk. unfold held. rewrite map_fold_insert_L.
  - unfold counted. destruct (String.eqb (snd k) issuer); lia.
  - intros j1 j2 z1 z2 y _ _ _.
    destruct (String.eqb (snd j1) issuer), (String.eqb (snd j2) issuer); lia.
  - exact Hk.
Qed.

Lemma held_delete (m : gmap (string * string) Shares.t)
    (k : string * string) (v : Shares.t) :
  m !! k = Some v -> held issuer (delete k m) = held issuer m - counted issuer k v.
Proof.
  intros Hk.
  rewrite <- (insert_delete_id m k v Hk) at 2.
  rewrite held_insert by apply lookup_delete_eq. lia.
Qed.

Lemma held_alter (m : gmap (string * string) Shares.t)
    (k : string * string) (v : Shares.t) (f : Shares.t -> Shares.t) :
  m !! k = Some v ->
  held issuer (alter f k m) = held issuer m - counted issuer k v + counted issuer k (f v).
Proof.
  intros Hk.
  assert (Halter : alter f k m = <[k := f v]> (delete k m)).
  { apply map_eq. intros j. destruct (decide (k = j)) as [<-|Hne].
    - rewrite lookup_alter_eq, lookup_insert_eq, Hk. reflexivity.
    - rewrite lookup_alter_ne, lookup_insert_ne, lookup_delete_ne by exact Hne.
      reflexivity. }
  rewrite Halter, held_insert by apply lookup_delete_eq.
  rewrite (held_delete m k v Hk). lia.
Qed.

Lemma counted_own (owner : string) (pos : Shares.t) :
  counted issuer (owner, issuer) pos = Shares.quantity pos.
Proof. unfold counted. cbn [snd]. rewrite String.eqb_refl. reflexivity. Qed.

Lemma conserved_update (db db' : Database) (p : Profile.t) (n : Z) :
  profiles db !! issuer = Some p ->
  profiles db' = alter (with_available_shares n) issuer (profiles db) ->
  n + held issuer (shares db') = Profile.total_shares p ->
  conserved issuer db'.
Proof.
  intros Hp Hprofiles Hsum. exists (with_available_shares n p). split.
  - rewrite Hprofiles, lookup_alter_eq, Hp. reflexivity.
  - exact Hsum.
Qed.

(** Closing a settled branch of a conservation proof: the profile row
    carries the new count, and [held] moved by the opposite amount. *)
Ltac conserved_branch Hp :=
  split;
  [ eapply conserved_update;
    [ exact Hp
    | reflexivity
    | cbn [shares set_shares set_profiles set_user_accounts set_transactions];
      first [ erewrite held_alter by eassumption
            | rewrite held_insert by assumption ];
      rewrite ?counted_own; cbn [Shares.quantity]; lia ]
  | unfold positions_nonneg in *;
    cbn [shares set_shares set_profiles set_user_accounts set_transactions];
    first [ apply nonneg_rows_alter; [cbn [Shares.quantity]; lia | assumption]
          | apply nonneg_rows_insert; [cbn [Shares.quantity]; lia | assumption] ] ].

(** The improved variant keeps [availableShares + held = totalShares]
    (and the positions non-negative) across every order of positive
    quantity that it settles, a sell of all that the seller holds apart:
    the DELETE issued for such a sell removes nothing, the shares come
    back to the issuer and stay with the seller. *)
Lemma improved_conserves
    (buyerId : string) (quantity : Z) (pricePerShare : Q)
    (transactionType : TransactionType) (db : Database) (faults : Faults)
    (result : TradeExecutionResult) (db' : Database) :
  0 < quantity ->
  (transactionType = sell ->
   forall pos, shares db !! (buyerId, issuer) = Some pos ->
               quantity < Shares.quantity pos) ->
  run (executeTradeTransactionImproved buyerId issuer quantity pricePerShare
         transactionType) faults 0 db = (result, db') ->
  success result = true ->
  conserved issuer db /\ positions_nonneg db ->
  conserved issuer db' /\ positions_nonneg db'.
Proof.
  intros Hq Hheld H Hs [[p [Hp Hsum]] Hnonneg].
  unfold executeTradeTransactionImproved in H.
  destruct transactionType;
    settled_cases H Hs; simplify_eq; leb_facts;
    try congruence;
    try (match goal with
         | E : shares db !! _ = Some _ |- _ =>
             pose proof (Hnonneg _ _ E);
             try pose proof (Hheld eq_refl _ eq_refl)
         end);
    try lia;
    try (match goal with
         | E : profiles db !! _ = Some _ |- _ => conserved_branch E
         end).
Qed.

(** [executeTradeTransaction] keeps it too, as long as a sell asks for
    less than the seller holds. *)
Lemma original_conserves_below_position
    (buyerId : string) (quantity : Z) (pricePerShare : Q)
    (transactionType : TransactionType) (db : Database) (faults : Faults)
    (result : TradeExecutionResult) (db' : Database) :
  0 < quantity ->
  (transactionType = sell ->
   forall pos, shares db !! (buyerId, issuer) = Some pos ->
               quantity < Shares.quantity pos) ->
  run (executeTradeTransaction buyerId issuer quantity pricePerShare
         transactionType) faults 0 db = (result, db') ->
  success result = true ->
  conserved issuer db /\ positions_nonneg db ->
  conserved issuer db' /\ positions_nonneg db'.
Proof.
  intros Hq Hheld H Hs [[p [Hp Hsum]] Hnonneg].
  unfold executeTradeTransaction in H.
  destruct transactionType;
    settled_cases H Hs; simplify_eq; leb_facts;
    try congruence;
    try (match goal with
         | E : shares db !! _ = Some _ |- _ =>
             pose proof (Hnonneg _ _ E);
             try pose proof (Hheld eq_refl _ eq_refl)
         end);
    try lia;
    try (match goal with
         | E : profiles db !! _ = Some _ |- _ => conserved_branch E
         end).
Qed.

(** Over a sequence of orders of positive quantity against one issuer,
    all settled by the improved variant and none of them a sell of all
    that its seller holds, the equality holds after each order. *)
Lemma improved_sequence_conserves (orders : list Order) :
  forall db : Database,
  Forall (fun o => 0 < order_quantity o) orders ->
  sells_below_position executeTradeTransactionImproved issuer orders db ->
  conserved issuer db /\ positions_nonneg db ->
  Forall (fun outcome => success (fst outcome) = true)
    (settle_sequence executeTradeTransactionImproved issuer orders db) ->
  Forall (fun outcome => conserved issuer (snd outcome))
    (settle_sequence executeTradeTransactionImproved issuer orders db).
Proof.
  induction orders as [|o rest IH]; intros db Hpos Hsells Hdb Hall;
    cbn [settle_sequence sells_below_position] in *.
  - constructor.
  - apply Forall_cons in Hpos as [Ho Hrest].
    destruct Hsells as [Hsell Hsells].
    destruct (run (executeTradeTransactionImproved (order_buyer o) issuer
                     (order_quantity o) (order_price o) (order_type o))
                (order_faults o) 0%nat db) as [result db'] eqn:Hrun.
    cbn [fst snd] in *.
    apply Forall_cons in Hall as [Hfirst Hothers]. cbn [fst] in Hfirst.
    pose proof (improved_conserves _ _ _ _ _ _ _ _ Ho Hsell Hrun Hfirst Hdb) as Hdb'.
    constructor.
    + exact (proj1 Hdb').
    + apply IH; assumption.
Qed.

End Conservation.

(** C1, at its failing input: from a database in which the equality
    holds (95 available + 5 held = 100), the one-order sequence "alice
    sells 10" is settled by [executeTradeTransaction], and the equality is
    broken afterwards (105 available, and the 5 of alice's row, which the
    DELETE leaves in place, still held). *)
Lemma original_breaks_conservation :
  let orders :=
    [ {| order_buyer := "alice"; order_quantity := 10; order_price := 10 # 1;
         order_type := sell; order_faults := no_faults |} ] in
  conserved "bob" Sample.db
  /\ positions_nonneg Sample.db
  /\ Forall (fun outcome => success (fst outcome) = true)
       (settle_sequence executeTradeTransaction "bob" orders Sample.db)
  /\ ~ Forall (fun outcome => conserved "bob" (snd outcome))
         (settle_sequence executeTradeTransaction "bob" orders Sample.db).
Proof.
  cbv zeta. split; [|split; [|split]].
  - exists Sample.bob. split; reflexivity.
  - intros k pos Hk.
    destruct (decide (k = ("alice", "bob"))) as [->|Hne].
    + vm_compute in Hk. injection Hk as <-. cbn. lia.
    + unfold Sample.db in Hk. cbn [shares] in Hk.
      rewrite lookup_singleton_ne in Hk by congruence. discriminate.
  - cbn [settle_sequence]. constructor; [|constructor]. vm_compute. reflexivity.
  - cbn [settle_sequence]. intros Hall. inversion Hall as [|? ? Hfirst _]; subst.
    destruct Hfirst as [p [Hp Hsum]].
    vm_compute in Hp. injection Hp as <-.
    vm_compute in Hsum. discriminate Hsum.
Qed.

(** A sell of all that the seller holds: alice sells her 5 shares.
    Both variants settle the order; the counter goes up to 100 and the
    DELETE issued for her row leaves it in place, so that 105 shares are
    counted where there are 100. *)
Theorem closing_sell_leaves_the_row :
  conserved "bob" Sample.db
  /\ (let (result, db') :=
        run (executeTradeTransaction "alice" "bob" 5 (10 # 1) sell) no_faults 0 Sample.db in
      success result = true
      /\ shares db' !! ("alice", "bob")
         = Some {| Shares.quantity := 5; Shares.average_price := 10 # 1 |}
      /\ (Profile.available_shares <$> profiles db' !! "bob") = Some 100
      /\ ~ conserved "bob" db')
  /\ (let (result, db') :=
        run (executeTradeTransactionImproved "alice" "bob" 5 (10 # 1) sell)
          no_faults 0 Sample.db in
      success result = true
      /\ shares db' !! ("alice", "bob")
         = Some {| Shares.quantity := 5; Shares.average_price := 10 # 1 |}
      /\ (Profile.available_shares <$> profiles db' !! "bob") = Some 100
      /\ ~ conserved "bob" db').
Proof.
  split; [exists Sample.bob; split; reflexivity|].
  split.
  - destruct (run _ no_faults 0%nat Sample.db) as [result db'] eqn:H.
    vm_compute in H. injection H as <- <-.
    split; [reflexivity|]. split; [reflexivity|]. split; [reflexivity|].
    intros [p [Hp Hsum]]. vm_compute in Hp. injection Hp as <-.
    vm_compute in Hsum. discriminate Hsum.
  - destruct (run _ no_faults 0%nat Sample.db) as [result db'] eqn:H.
    vm_compute in H. injection H as <- <-.
    split; [reflexivity|]. split; [reflexivity|]. split; [reflexivity|].
    intros [p [Hp Hsum]]. vm_compute in Hp. injection Hp as <-.
    vm_compute in Hsum. discriminate Hsum.
Qed.

(** ** Two buyers and fifty shares *)

(** Without faults, the index a run starts from does not matter. *)
Lemma run_no_faults_index {T : Type} (p : Prog T) :
  forall (n m : nat) (db : Database), run p no_faults n db = run p no_faults m db.
Proof.
  induction p as [t|R q k IH]; intros n m db; cbn [run no_faults].
  - reflexivity.
  - destruct (perform q db) as [r db1]. apply IH.
Qed.

(** [step] is one statement of [run]. *)
Lemma run_step {T : Type} (p : Prog T) (db : Database) :
  run p no_faults 0 db
  = let (p', db1) := step p db in run p' no_faults 0 db1.
Proof.
  destruct p as [t|R q k]; cbn [run step no_faults].
  - reflexivity.
  - destruct (perform q db) as [r db1]. apply run_no_faults_index.
Qed.

(** A schedule that only ever lets the first call proceed is the serial
    execution. *)
Lemma interleave_first_only {A B : Type} (n : nat) :
  forall (p1 : Prog A) (p2 : Prog B) (db : Database),
  interleave (repeat true n) p1 p2 db = interleave [] p1 p2 db.
Proof.
  induction n as [|n IH]; intros p1 p2 db; cbn [repeat interleave].
  - reflexivity.
  - destruct (step p1 db) as [p1' db1] eqn:Hstep.
    rewrite IH. cbn [interleave].
    rewrite (run_step p1 db), Hstep. reflexivity.
Qed.

(** A call that has returned executes nothing more. *)
Lemma steps_Ret {T : Type} (n : nat) (t : T) (db : Database) :
  steps n (Ret t) db = (Ret t, db).
Proof. induction n as [|n IH]; cbn [steps step]; [reflexivity | exact IH]. Qed.

(** One more statement, after the first [n]. *)
Lemma steps_S {T : Type} (n : nat) :
  forall (p : Prog T) (db : Database),
  steps (S n) p db = let (p', db') := steps n p db in step p' db'.
Proof.
  induction n as [|n IH]; intros p db.
  - cbn [steps]. destruct (step p db). reflexivity.
  - change (steps (S (S n)) p db)
      with (let (p', db') := step p db in steps (S n) p' db').
    destruct (step p db) as [p1 db1] eqn:Hstep.
    rewrite IH. cbn [steps]. rewrite Hstep. reflexivity.
Qed.

(** A call that has executed its first [n] statements ends as the call
    does. *)
Lemma run_steps {T : Type} (n : nat) :
  forall (p : Prog T) (db : Database),
  run p no_faults 0 db = let (p', db') := steps n p db in run p' no_faults 0 db'.
Proof.
  induction n as [|n IH]; intros p db; cbn [steps].
  - reflexivity.
  - rewrite run_step. destruct (step p db) as [p1 db1]. apply IH.
Qed.

(** Once a call has returned, the other one runs alone. *)
Lemma interleave_returned_first {A B : Type} (schedule : list bool) (a : A) :
  forall (p2 : Prog B) (db : Database),
  interleave schedule (Ret a) p2 db
  = let (b, db') := run p2 no_faults 0 db in (a, b, db').
Proof.
  induction schedule as [|[|] s IH]; intros p2 db; cbn [interleave run step].
  - reflexivity.
  - apply IH.
  - destruct (step p2 db) as [p2' db1] eqn:Hstep. rewrite IH.
    rewrite (run_step p2 db), Hstep. reflexivity.
Qed.

Lemma interleave_returned_second {A B : Type} (schedule : list bool) (b : B) :
  forall (p1 : Prog A) (db : Database),
  interleave schedule p1 (Ret b) db
  = let (a, db') := run p1 no_faults 0 db in (a, b, db').
Proof.
  induction schedule as [|[|] s IH]; intros p1 db; cbn [interleave run step].
  - destruct (run p1 no_faults 0%nat db). reflexivity.
  - destruct (step p1 db) as [p1' db1] eqn:Hstep. rewrite IH.
    rewrite (run_step p1 db), Hstep. reflexivity.
  - apply IH.
Qed.

(** An update adds no row and removes none. *)
Lemma alter_is_Some {K : Type} `{Countable K} {V : Type} (f : V -> V) (k k' : K)
    (m : gmap K V) :
  is_Some (m !! k') -> is_Some (alter f k m !! k').
Proof.
  intros [v Hv]. destruct (decide (k = k')) as [<-|Hne].
  - rewrite lookup_alter_eq, Hv. eexists. reflexivity.
  - rewrite lookup_alter_ne by exact Hne. eexists. exact Hv.
Qed.

(** *** One buy of 40 out of 50 *)

Section FundedBuy.

Variables (buyerId tradeableUserId : string) (pricePerShare : Q).
Variables (db : Database) (balance : Q) (profile : Profile.t).
Hypothesis Haccount : user_accounts db !! buyerId = Some balance.
Hypothesis Hprofile : profiles db !! tradeableUserId = Some profile.
Hypothesis Havailable : Profile.available_shares profile = 50.
Hypothesis Hfunds : lt_total balance 40 pricePerShare = false.

(** A buy of 40 of the 50 shares available, by a buyer who passes the
    funds check, settles and leaves 10 available. *)
Lemma funded_buy_settles :
  let (result, db') :=
    run (executeTradeTransaction buyerId tradeableUserId 40 pricePerShare buy)
      no_faults 0 db in
  success result = true
  /\ profiles db' !! tradeableUserId = Some (with_available_shares 10 profile)
  /\ (forall other, is_Some (user_accounts db !! other) ->
                    is_Some (user_accounts db' !! other)).
Proof.
  assert (Hsupply : (Profile.available_shares profile <? 40) = false)
    by (rewrite Havailable; reflexivity).
  assert (Hleft : Profile.available_shares profile - 40 = 10)
    by (rewrite Havailable; reflexivity).
  unfold executeTradeTransaction.
  cbn [run no_faults perform]. rewrite Haccount.
  cbn [TransactionType_eqb andb]. rewrite Hfunds.
  cbn [run no_faults perform]. rewrite Hprofile.
  cbn [TransactionType_eqb andb]. rewrite Hsupply, Hleft.
  cbn [run no_faults perform shares set_profiles set_user_accounts].
  destruct (shares db !! (buyerId, tradeableUserId)) as [existing|] eqn:E.
  - destruct (Shares.quantity existing + 40 <=? 0);
      cbn [run no_faults perform profiles user_accounts set_shares set_profiles
           set_transactions set_user_accounts success succeeded];
      rewrite lookup_alter_eq, Hprofile;
      (split; [reflexivity | split; [reflexivity | intros other; apply alter_is_Some]]).
  - cbn [run no_faults perform shares set_profiles set_user_accounts].
    rewrite E.
    cbn [run no_faults perform profiles user_accounts set_shares set_profiles
         set_transactions set_user_accounts success succeeded].
    rewrite lookup_alter_eq, Hprofile.
    split; [reflexivity | split; [reflexivity | intros other; apply alter_is_Some]].
Qed.

(** While it is in progress it removes no cash account, and from its
    fourth statement on the issuer's row says 10. *)
Lemma funded_buy_in_progress (n : nat) :
  let (p', db') :=
    steps n (executeTradeTransaction buyerId tradeableUserId 40 pricePerShare buy) db in
  (forall other, is_Some (user_accounts db !! other) ->
                 is_Some (user_accounts db' !! other))
  /\ ((4 <= n)%nat ->
      profiles db' !! tradeableUserId = Some (with_available_shares 10 profile)).
Proof.
  assert (Hsupply : (Profile.available_shares profile <? 40) = false)
    by (rewrite Havailable; reflexivity).
  assert (Hleft : Profile.available_shares profile - 40 = 10)
    by (rewrite Havailable; reflexivity).
  unfold executeTradeTransaction.
  destruct n as [|n]; [cbn [steps]; split; [tauto | lia]|].
  cbn [steps step perform]. rewrite Haccount.
  cbn [TransactionType_eqb andb]. rewrite Hfunds.
  destruct n as [|n]; [cbn [steps]; split; [tauto | lia]|].
  cbn [steps step perform]. rewrite Hprofile.
  cbn [TransactionType_eqb andb]. rewrite Hsupply, Hleft.
  destruct n as [|n];
    [cbn [steps user_accounts set_user_accounts]; split; [tauto | lia]|].
  cbn [steps step perform].
  destruct n as [|n];
    [cbn [steps user_accounts set_user_accounts];
     split; [intros other; apply alter_is_Some | lia]|].
  cbn [steps step perform].
  assert (Hdone :
    forall d : Database,
      user_accounts d = alter (fun _ => (balance - inject_Z 40 * pricePerShare)%Q)
                          buyerId (user_accounts db) ->
      profiles d = alter (with_available_shares 10) tradeableUserId (profiles db) ->
      (forall other, is_Some (user_accounts db !! other) ->
                     is_Some (user_accounts d !! other))
      /\ ((4 <= S (S (S (S n))))%nat ->
          profiles d !! tradeableUserId = Some (with_available_shares 10 profile))).
  { intros d Ha Hp. split.
    - intros other. rewrite Ha. apply alter_is_Some.
    - intros _. rewrite Hp, lookup_alter_eq, Hprofile. reflexivity. }
  destruct n as [|n]; [cbn [steps]; apply Hdone; reflexivity|].
  cbn [steps step perform shares set_profiles set_user_accounts].
  destruct (shares db !! (buyerId, tradeableUserId)) as [existing|] eqn:E.
  - destruct (Shares.quantity existing + 40 <=? 0).
    + destruct n as [|n]; [cbn [steps]; apply Hdone; reflexivity|].
      cbn [steps step perform].
      destruct n as [|n]; [cbn [steps]; apply Hdone; reflexivity|].
      cbn [steps step perform]. rewrite steps_Ret. apply Hdone; reflexivity.
    + destruct n as [|n]; [cbn [steps]; apply Hdone; reflexivity|].
      cbn [steps step perform].
      destruct n as [|n]; [cbn [steps]; apply Hdone; reflexivity|].
      cbn [steps step perform]. rewrite steps_Ret. apply Hdone; reflexivity.
  - destruct n as [|n]; [cbn [steps]; apply Hdone; reflexivity|].
    cbn [steps step perform shares set_profiles set_user_accounts]. rewrite E.
    destruct n as [|n]; [cbn [steps]; apply Hdone; reflexivity|].
    cbn [steps step perform]. rewrite steps_Ret. apply Hdone; reflexivity.
Qed.

End FundedBuy.

(** The first statement of a call reads the buyer's account and changes
    nothing. *)
Lemma first_statement_reads
    (buyerId tradeableUserId : string) (quantity : Z) (pricePerShare : Q)
    (transactionType : TransactionType) (db : Database) :
  snd (step (executeTradeTransaction buyerId tradeableUserId quantity pricePerShare
               transactionType) db) = db.
Proof.
  unfold executeTradeTransaction. cbn [step perform].
  destruct (user_accounts db !! buyerId); reflexivity.
Qed.

(** A buy of more than is available, started or about to read the
    issuer's row, is refused at its next statement and has written
    nothing. *)
Lemma short_supply_buy_refused
    (buyerId tradeableUserId : string) (quantity : Z) (pricePerShare : Q)
    (call : Prog TradeExecutionResult) (db0 db : Database) (profile : Profile.t) :
  is_Some (user_accounts db0 !! buyerId) ->
  call = fst (step (executeTradeTransaction buyerId tradeableUserId quantity
                      pricePerShare buy) db0) ->
  profiles db !! tradeableUserId = Some profile ->
  Profile.available_shares profile < quantity ->
  exists msg,
    step call db = (Ret (failed msg), db)
    /\ (msg = "Insufficient shares available" \/ msg = "Insufficient funds").
Proof.
  intros [balance Hbalance] -> Hprofile Hshort. apply Z.ltb_lt in Hshort.
  unfold executeTradeTransaction. cbn [step perform fst]. rewrite Hbalance.
  cbn [TransactionType_eqb andb fst].
  destruct (lt_total balance quantity pricePerShare); cbn [fst step].
  - exists "Insufficient funds". split; [reflexivity | right; reflexivity].
  - cbn [perform]. rewrite Hprofile. cbn [TransactionType_eqb andb]. rewrite Hshort.
    exists "Insufficient shares available". split; [reflexivity | left; reflexivity].
Qed.

Lemma short_supply_buy_refused_run
    (buyerId tradeableUserId : string) (quantity : Z) (pricePerShare : Q)
    (call : Prog TradeExecutionResult) (db0 db : Database) (profile : Profile.t) :
  is_Some (user_accounts db0 !! buyerId) ->
  call = fst (step (executeTradeTransaction buyerId tradeableUserId quantity
                      pricePerShare buy) db0) ->
  profiles db !! tradeableUserId = Some profile ->
  Profile.available_shares profile < quantity ->
  exists msg,
    run call no_faults 0 db = (failed msg, db)
    /\ (msg = "Insufficient shares available" \/ msg = "Insufficient funds").
Proof.
  intros Hbalance Hcall Hprofile Hshort.
  destruct (short_supply_buy_refused _ _ _ _ _ _ _ _ Hbalance Hcall Hprofile Hshort)
    as (msg & Hstep & Hmsg).
  exists msg. split; [|exact Hmsg].
  rewrite run_step, Hstep. reflexivity.
Qed.

(** *** The two calls *)

Section TwoBuys.

Variables (buyer1 buyer2 tradeableUserId : string) (price1 price2 : Q).
Variables (db : Database) (balance1 balance2 : Q) (profile : Profile.t).
Hypothesis Haccount1 : user_accounts db !! buyer1 = Some balance1.
Hypothesis Haccount2 : user_accounts db !! buyer2 = Some balance2.
Hypothesis Hprofile : profiles db !! tradeableUserId = Some profile.
Hypothesis Havailable : Profile.available_shares profile = 50.

(** The second call has read its balance and not yet the issuer's row. *)
Lemma second_pending (schedule : list bool) :
  forall (done1 : nat) (call2 : Prog TradeExecutionResult) (db0 : Database),
  lt_total balance1 40 price1 = false ->
  second_reads_after_first_writes done1 1 schedule = true ->
  is_Some (user_accounts db0 !! buyer2) ->
  call2 = fst (step (executeTradeTransaction buyer2 tradeableUserId 40 price2 buy) db0) ->
  let (call1, db1) :=
    steps done1 (executeTradeTransaction buyer1 tradeableUserId 40 price1 buy) db in
  let '(r1, r2, db') := interleave schedule call1 call2 db1 in
  success r1 = true
  /\ success r2 = false
  /\ (error r2 = Some "Insufficient shares available"
      \/ error r2 = Some "Insufficient funds")
  /\ (Profile.available_shares <$> profiles db' !! tradeableUserId) = Some 10.
Proof.
  induction schedule as [|[|] s IH]; intros done1 call2 db0 Hfunds Hschedule Hkey Hcall2;
    cbn [second_reads_after_first_writes] in Hschedule.
  - pose proof (run_steps done1
                  (executeTradeTransaction buyer1 tradeableUserId 40 price1 buy) db)
      as Hrun.
    pose proof (funded_buy_settles buyer1 tradeableUserId price1 db balance1 profile
                  Haccount1 Hprofile Havailable Hfunds) as Hsettles.
    destruct (steps done1 _ db) as [call1 db1].
    cbn [interleave]. rewrite <- Hrun.
    destruct (run _ no_faults 0%nat db) as [r1 db2].
    destruct Hsettles as (Hs1 & Hp2 & Hkeys).
    destruct (short_supply_buy_refused_run buyer2 tradeableUserId 40 price2 call2 db0 db2
                (with_available_shares 10 profile) Hkey Hcall2 Hp2)
      as (msg & -> & Hmsg); [cbn; lia|].
    rewrite Hp2. cbn [success error failed].
    repeat split; try assumption; try reflexivity. destruct Hmsg as [-> | ->]; auto.
  - specialize (IH (S done1) call2 db0 Hfunds Hschedule Hkey Hcall2).
    rewrite steps_S in IH.
    destruct (steps done1 _ db) as [call1 db1].
    cbn [interleave]. destruct (step call1 db1) as [call1' db1']. exact IH.
  - apply Nat.leb_le in Hschedule.
    pose proof (run_steps done1
                  (executeTradeTransaction buyer1 tradeableUserId 40 price1 buy) db)
      as Hrun.
    pose proof (funded_buy_settles buyer1 tradeableUserId price1 db balance1 profile
                  Haccount1 Hprofile Havailable Hfunds) as Hsettles.
    pose proof (funded_buy_in_progress buyer1 tradeableUserId price1 db balance1 profile
                  Haccount1 Hprofile Havailable Hfunds done1) as Hprogress.
    destruct (steps done1 _ db) as [call1 db1].
    destruct Hprogress as [_ Hp1]. specialize (Hp1 Hschedule).
    cbn [interleave].
    destruct (short_supply_buy_refused buyer2 tradeableUserId 40 price2 call2 db0 db1
                (with_available_shares 10 profile) Hkey Hcall2 Hp1)
      as (msg & -> & Hmsg); [cbn; lia|].
    rewrite interleave_returned_second, <- Hrun.
    destruct (run _ no_faults 0%nat db) as [r1 db2].
    destruct Hsettles as (Hs1 & Hp2 & Hkeys).
    rewrite Hp2. cbn [success error failed].
    repeat split; try assumption; try reflexivity. destruct Hmsg as [-> | ->]; auto.
Qed.

(** The second call has not started. *)
Lemma second_not_started (schedule : list bool) :
  forall done1 : nat,
  lt_total balance1 40 price1 = false ->
  second_reads_after_first_writes done1 0 schedule = true ->
  let (call1, db1) :=
    steps done1 (executeTradeTransaction buyer1 tradeableUserId 40 price1 buy) db in
  let '(r1, r2, db') :=
    interleave schedule call1
      (executeTradeTransaction buyer2 tradeableUserId 40 price2 buy) db1 in
  success r1 = true
  /\ success r2 = false
  /\ (error r2 = Some "Insufficient shares available"
      \/ error r2 = Some "Insufficient funds")
  /\ (Profile.available_shares <$> profiles db' !! tradeableUserId) = Some 10.
Proof.
  induction schedule as [|[|] s IH]; intros done1 Hfunds Hschedule;
    cbn [second_reads_after_first_writes] in Hschedule.
  - pose proof (run_steps done1
                  (executeTradeTransaction buyer1 tradeableUserId 40 price1 buy) db)
      as Hrun.
    pose proof (funded_buy_settles buyer1 tradeableUserId price1 db balance1 profile
                  Haccount1 Hprofile Havailable Hfunds) as Hsettles.
    destruct (steps done1 _ db) as [call1 db1].
    cbn [interleave]. rewrite <- Hrun.
    destruct (run _ no_faults 0%nat db) as [r1 db2].
    destruct Hsettles as (Hs1 & Hp2 & Hkeys).
    assert (Hkey : is_Some (user_accounts db2 !! buyer2))
      by (apply Hkeys; rewrite Haccount2; eexists; reflexivity).
    rewrite (run_step (executeTradeTransaction buyer2 tradeableUserId 40 price2 buy) db2).
    pose proof (first_statement_reads buyer2 tradeableUserId 40 price2 buy db2) as Hread.
    destruct (step _ db2) as [call2 db3] eqn:Hstep. cbn [snd] in Hread. subst db3.
    destruct (short_supply_buy_refused_run buyer2 tradeableUserId 40 price2 call2 db2 db2
                (with_available_shares 10 profile) Hkey)
      as (msg & -> & Hmsg); [rewrite Hstep; reflexivity | exact Hp2 | cbn; lia |].
    rewrite Hp2. cbn [success error failed].
    repeat split; try assumption; try reflexivity. destruct Hmsg as [-> | ->]; auto.
  - specialize (IH (S done1) Hfunds Hschedule).
    rewrite steps_S in IH.
    destruct (steps done1 _ db) as [call1 db1].
    cbn [interleave]. destruct (step call1 db1) as [call1' db1']. exact IH.
  - pose proof (funded_buy_in_progress buyer1 tradeableUserId price1 db balance1 profile
                  Haccount1 Hprofile Havailable Hfunds done1) as Hprogress.
    pose proof (second_pending s done1) as Hpending.
    destruct (steps done1 _ db) as [call1 db1].
    destruct Hprogress as [Hkeys _].
    assert (Hkey : is_Some (user_accounts db1 !! buyer2))
      by (apply Hkeys; rewrite Haccount2; eexists; reflexivity).
    cbn [interleave].
    pose proof (first_statement_reads buyer2 tradeableUserId 40 price2 buy db1) as Hread.
    destruct (step _ db1) as [call2 db2] eqn:Hstep. cbn [snd] in Hread. subst db2.
    apply (Hpending call2 db1 Hfunds Hschedule Hkey). rewrite Hstep. reflexivity.
Qed.

(** The first call has read its balance and not yet the issuer's row. *)
Lemma first_pending (schedule : list bool) :
  forall (done2 : nat) (call1 : Prog TradeExecutionResult) (db0 : Database),
  lt_total balance2 40 price2 = false ->
  first_reads_after_second_writes 1 done2 schedule = true ->
  is_Some (user_accounts db0 !! buyer1) ->
  call1 = fst (step (executeTradeTransaction buyer1 tradeableUserId 40 price1 buy) db0) ->
  let (call2, db2) :=
    steps done2 (executeTradeTransaction buyer2 tradeableUserId 40 price2 buy) db in
  let '(r1, r2, db') := interleave schedule call1 call2 db2 in
  success r2 = true
  /\ success r1 = false
  /\ (error r1 = Some "Insufficient shares available"
      \/ error r1 = Some "Insufficient funds")
  /\ (Profile.available_shares <$> profiles db' !! tradeableUserId) = Some 10.
Proof.
  induction schedule as [|[|] s IH]; intros done2 call1 db0 Hfunds Hschedule Hkey Hcall1;
    cbn [first_reads_after_second_writes] in Hschedule.
  - apply Nat.leb_le in Hschedule.
    pose proof (run_steps done2
                  (executeTradeTransaction buyer2 tradeableUserId 40 price2 buy) db)
      as Hrun.
    pose proof (funded_buy_settles buyer2 tradeableUserId price2 db balance2 profile
                  Haccount2 Hprofile Havailable Hfunds) as Hsettles.
    pose proof (funded_buy_in_progress buyer2 tradeableUserId price2 db balance2 profile
                  Haccount2 Hprofile Havailable Hfunds done2) as Hprogress.
    destruct (steps done2 _ db) as [call2 db2].
    destruct Hprogress as [_ Hp2]. specialize (Hp2 Hschedule).
    cbn [interleave].
    destruct (short_supply_buy_refused_run buyer1 tradeableUserId 40 price1 call1 db0 db2
                (with_available_shares 10 profile) Hkey Hcall1 Hp2)
      as (msg & -> & Hmsg); [cbn; lia|].
    rewrite <- Hrun.
    destruct (run _ no_faults 0%nat db) as [r2 db3].
    destruct Hsettles as (Hs2 & Hp3 & Hkeys).
    rewrite Hp3. cbn [success error failed].
    repeat split; try assumption; try reflexivity. destruct Hmsg as [-> | ->]; auto.
  - apply Nat.leb_le in Hschedule.
    pose proof (run_steps done2
                  (executeTradeTransaction buyer2 tradeableUserId 40 price2 buy) db)
      as Hrun.
    pose proof (funded_buy_settles buyer2 tradeableUserId price2 db balance2 profile
                  Haccount2 Hprofile Havailable Hfunds) as Hsettles.
    pose proof (funded_buy_in_progress buyer2 tradeableUserId price2 db balance2 profile
                  Haccount2 Hprofile Havailable Hfunds done2) as Hprogress.
    destruct (steps done2 _ db) as [call2 db2].
    destruct Hprogress as [_ Hp2]. specialize (Hp2 Hschedule).
    cbn [interleave].
    destruct (short_supply_buy_refused buyer1 tradeableUserId 40 price1 call1 db0 db2
                (with_available_shares 10 profile) Hkey Hcall1 Hp2)
      as (msg & -> & Hmsg); [cbn; lia|].
    rewrite interleave_returned_first, <- Hrun.
    destruct (run _ no_faults 0%nat db) as [r2 db3].
    destruct Hsettles as (Hs2 & Hp3 & Hkeys).
    rewrite Hp3. cbn [success error failed].
    repeat split; try assumption; try reflexivity. destruct Hmsg as [-> | ->]; auto.
  - specialize (IH (S done2) call1 db0 Hfunds Hschedule Hkey Hcall1).
    rewrite steps_S in IH.
    destruct (steps done2 _ db) as [call2 db2].
    cbn [interleave]. destruct (step call2 db2) as [call2' db2']. exact IH.
Qed.

(** The first call has not started. *)
Lemma first_not_started (schedule : list bool) :
  forall done2 : nat,
  lt_total balance2 40 price2 = false ->
  first_reads_after_second_writes 0 done2 schedule = true ->
  let (call2, db2) :=
    steps done2 (executeTradeTransaction buyer2 tradeableUserId 40 price2 buy) db in
  let '(r1, r2, db') :=
    interleave schedule
      (executeTradeTransaction buyer1 tradeableUserId 40 price1 buy) call2 db2 in
  success r2 = true
  /\ success r1 = false
  /\ (error r1 = Some "Insufficient shares available"
      \/ error r1 = Some "Insufficient funds")
  /\ (Profile.available_shares <$> profiles db' !! tradeableUserId) = Some 10.
Proof.
  induction schedule as [|[|] s IH]; intros done2 Hfunds Hschedule;
    cbn [first_reads_after_second_writes] in Hschedule.
  - apply Nat.leb_le in Hschedule.
    pose proof (run_steps done2
                  (executeTradeTransaction buyer2 tradeableUserId 40 price2 buy) db)
      as Hrun.
    pose proof (funded_buy_settles buyer2 tradeableUserId price2 db balance2 profile
                  Haccount2 Hprofile Havailable Hfunds) as Hsettles.
    pose proof (funded_buy_in_progress buyer2 tradeableUserId price2 db balance2 profile
                  Haccount2 Hprofile Havailable Hfunds done2) as Hprogress.
    destruct (steps done2 _ db) as [call2 db2].
    destruct Hprogress as [Hkeys Hp2]. specialize (Hp2 Hschedule).
    assert (Hkey : is_Some (user_accounts db2 !! buyer1))
      by (apply Hkeys; rewrite Haccount1; eexists; reflexivity).
    cbn [interleave].
    rewrite (run_step (executeTradeTransaction buyer1 tradeableUserId 40 price1 buy) db2).
    pose proof (first_statement_reads buyer1 tradeableUserId 40 price1 buy db2) as Hread.
    destruct (step _ db2) as [call1 db3] eqn:Hstep. cbn [snd] in Hread. subst db3.
    destruct (short_supply_buy_refused_run buyer1 tradeableUserId 40 price1 call1 db2 db2
                (with_available_shares 10 profile) Hkey)
      as (msg & -> & Hmsg); [rewrite Hstep; reflexivity | exact Hp2 | cbn; lia |].
    rewrite <- Hrun.
    destruct (run _ no_faults 0%nat db) as [r2 db3].
    destruct Hsettles as (Hs2 & Hp3 & _).
    rewrite Hp3. cbn [success error failed].
    repeat split; try assumption; try reflexivity. destruct Hmsg as [-> | ->]; auto.
  - pose proof (funded_buy_in_progress buyer2 tradeableUserId price2 db balance2 profile
                  Haccount2 Hprofile Havailable Hfunds done2) as Hprogress.
    pose proof (first_pending s done2) as Hpending.
    destruct (steps done2 _ db) as [call2 db2].
    destruct Hprogress as [Hkeys _].
    assert (Hkey : is_Some (user_accounts db2 !! buyer1))
      by (apply Hkeys; rewrite Haccount1; eexists; reflexivity).
    cbn [interleave].
    pose proof (first_statement_reads buyer1 tradeableUserId 40 price1 buy db2) as Hread.
    destruct (step _ db2) as [call1 db3] eqn:Hstep. cbn [snd] in Hread. subst db3.
    apply (Hpending call1 db2 Hfunds Hschedule Hkey). rewrite Hstep. reflexivity.
  - specialize (IH (S done2) Hfunds Hschedule).
    rewrite steps_S in IH.
    destruct (steps done2 _ db) as [call2 db2].
    cbn [interleave]. destruct (step call2 db2) as [call2' db2']. exact IH.
Qed.

End TwoBuys.

(** C5, counterexample: both calls read their balance, then both read
    [available_shares] = 50, then each finishes: neither call reads the
    issuer's row after the other has written it.  Both orders settle; 80
    shares have been sold out of 50, and the counter says 10. *)
Lemma interleaved_buys_both_settle :
  let '(r1, r2, db') :=
    interleave [true; false; true; false]
      (executeTradeTransaction "alice" "bob" 40 (10 # 1) buy)
      (executeTradeTransaction "carol" "bob" 40 (10 # 1) buy)
      Sample.db50 in
  (Profile.available_shares <$> profiles Sample.db50 !! "bob") = Some 50
  /\ second_reads_after_first_writes 0 0 [true; false; true; false] = false
  /\ first_reads_after_second_writes 0 0 [true; false; true; false] = false
  /\ success r1 = true
  /\ success r2 = true
  /\ (Shares.quantity <$> shares db' !! ("alice", "bob")) = Some 40
  /\ (Shares.quantity <$> shares db' !! ("carol", "bob")) = Some 40
  /\ (Profile.available_shares <$> profiles db' !! "bob") = Some 10.
Proof. vm_compute. repeat split; reflexivity. Qed.

(** The improved variant reads and writes the counter in the same way. *)
Lemma improved_interleaved_buys_both_settle :
  let '(r1, r2, db') :=
    interleave [true; false; true; false]
      (executeTradeTransactionImproved "alice" "bob" 40 (10 # 1) buy)
      (executeTradeTransactionImproved "carol" "bob" 40 (10 # 1) buy)
      Sample.db50 in
  success r1 = true /\ success r2 = true
  /\ (Profile.available_shares <$> profiles db' !! "bob") = Some 10.
Proof. vm_compute. repeat split; reflexivity. Qed.

(** C5 (amended).  An issuer has 50 shares available and two buyers with
    a cash account each place a buy order of 40 shares, the statements of
    the two calls being interleaved in any order.  If the second call
    reads the issuer's row only after the first call has written it (as
    when they run one after the other) and the first buyer passes the
    funds check, the first order settles and the second is rejected, with
    'Insufficient shares available' (or with 'Insufficient funds'), and 10
    shares remain available; and the same with the two calls exchanged.
    Nothing in the code serialises two calls: the schedules left out are
    those in which both calls read the counter before either writes it. *)
Theorem ordered_buys_exactly_one_settles
    (schedule : list bool)
    (buyer1 buyer2 tradeableUserId : string) (price1 price2 : Q)
    (db : Database) (balance1 balance2 : Q) (profile : Profile.t) :
  user_accounts db !! buyer1 = Some balance1 ->
  user_accounts db !! buyer2 = Some balance2 ->
  profiles db !! tradeableUserId = Some profile ->
  Profile.available_shares profile = 50 ->
  let '(r1, r2, db') :=
    interleave schedule
      (executeTradeTransaction buyer1 tradeableUserId 40 price1 buy)
      (executeTradeTransaction buyer2 tradeableUserId 40 price2 buy)
      db in
  (second_reads_after_first_writes 0 0 schedule = true ->
   lt_total balance1 40 price1 = false ->
   success r1 = true
   /\ success r2 = false
   /\ (error r2 = Some "Insufficient shares available"
       \/ error r2 = Some "Insufficient funds")
   /\ (Profile.available_shares <$> profiles db' !! tradeableUserId) = Some 10)
  /\ (first_reads_after_second_writes 0 0 schedule = true ->
      lt_total balance2 40 price2 = false ->
      success r2 = true
      /\ success r1 = false
      /\ (error r1 = Some "Insufficient shares available"
          \/ error r1 = Some "Insufficient funds")
      /\ (Profile.available_shares <$> profiles db' !! tradeableUserId) = Some 10).
Proof.
  intros Ha1 Ha2 Hp Havail.
  pose proof (second_not_started buyer1 buyer2 tradeableUserId price1 price2 db
                balance1 balance2 profile Ha1 Ha2 Hp Havail schedule 0%nat) as Hfirst.
  pose proof (first_not_started buyer1 buyer2 tradeableUserId price1 price2 db
                balance1 balance2 profile Ha1 Ha2 Hp Havail schedule 0%nat) as Hsecond.
  cbn [steps] in Hfirst, Hsecond.
  destruct (interleave schedule _ _ db) as [[r1 r2] db'].
  split; intros Hschedule Hfunds; auto.
Qed.

Lemma ordered_buys_witness :
  (let '(r1, r2, db') :=
     interleave [true; false; true; true; true; false; true]
       (executeTradeTransaction "alice" "bob" 40 (10 # 1) buy)
       (executeTradeTransaction "carol" "bob" 40 (10 # 1) buy)
       Sample.db50 in
   success r1 = true
   /\ success r2 = false
   /\ (error r2 = Some "Insufficient shares available"
       \/ error r2 = Some "Insufficient funds")
   /\ (Profile.available_shares <$> profiles db' !! "bob") = Some 10)
  /\ (let '(r1, r2, db') :=
        interleave [false; true; false; false; false; true; false]
          (executeTradeTransaction "alice" "bob" 40 (10 # 1) buy)
          (executeTradeTransaction "carol" "bob" 40 (10 # 1) buy)
          Sample.db50 in
      success r2 = true
      /\ success r1 = false
      /\ (error r1 = Some "Insufficient shares available"
          \/ error r1 = Some "Insufficient funds")
      /\ (Profile.available_shares <$> profiles db' !! "bob") = Some 10).
Proof.
  split.
  - pose proof (ordered_buys_exactly_one_settles
                  [true; false; true; true; true; false; true]
                  "alice" "carol" "bob" (10 # 1) (10 # 1)
                  Sample.db50 (1000 # 1) (1000 # 1) Sample.bob50
                  eq_refl eq_refl eq_refl eq_refl) as H.
    destruct (interleave _ _ _ Sample.db50) as [[r1 r2] db'].
    apply (proj1 H); vm_compute; reflexivity.
  - pose proof (ordered_buys_exactly_one_settles
                  [false; true; false; false; false; true; false]
                  "alice" "carol" "bob" (10 # 1) (10 # 1)
                  Sample.db50 (1000 # 1) (1000 # 1) Sample.bob50
                  eq_refl eq_refl eq_refl eq_refl) as H.
    destruct (interleave _ _ _ Sample.db50) as [[r1 r2] db'].
    apply (proj2 H); vm_compute; reflexivity.
Defined.

(** ** Audit and repair of the share counters *)

Lemma or_zero_id (x : Z) : or_zero x = x.
Proof. unfold or_zero. destruct (x =? 0) eqn:E; [apply Z.eqb_eq in E|]; congruence. Qed.

Lemma fold_left_sum (l : list Transaction.t) (a : Z) :
  fold_left (fun sum t => sum + Transaction.quantity t) l a
  = a + foldr Z.add 0 (List.map Transaction.quantity l).
Proof.
  revert a. induction l as [|t l IH]; intros a; cbn [fold_left List.map foldr].
  - lia.
  - rewrite IH. lia.
Qed.

Lemma filter_filter_andb {A : Type} (f g : A -> bool) (l : list A) :
  List.filter g (List.filter f l) = List.filter (fun x => f x && g x) l.
Proof.
  induction l as [|x l IH]; cbn [List.filter]; [reflexivity|].
  destruct (f x); cbn [List.filter andb]; [destruct (g x)|]; congruence.
Qed.

(** The sums the code takes over the rows it selected are the sums of
    the specification. *)
Lemma sum_quantity_selected (ty : TransactionType) (issuer : string)
    (log : list Transaction.t) :
  or_zero (sum_quantity ty
             (List.filter (fun t => String.eqb (Transaction.tradeable_user_id t) issuer) log))
  = total_quantity ty issuer log.
Proof.
  rewrite or_zero_id. unfold sum_quantity, total_quantity.
  rewrite fold_left_sum, filter_filter_andb. lia.
Qed.

Lemma audit_user_selected (issuer : string) (p : Profile.t) (log : list Transaction.t) :
  let report :=
    audit_user p
      (List.filter (fun t => String.eqb (Transaction.tradeable_user_id t) issuer) log) in
  expectedAvailable report = expected_available issuer p log
  /\ actualAvailable report = Profile.available_shares p
  /\ discrepancy report = Profile.available_shares p - expected_available issuer p log
  /\ consistent report = (Profile.available_shares p =? expected_available issuer p log).
Proof.
  cbn. unfold expected_available, netIssued.
  rewrite !sum_quantity_selected.
  repeat split.
  destruct (Z.eqb_spec (Profile.available_shares p)
              (Profile.total_shares p
               - (total_quantity buy issuer log - total_quantity sell issuer log)))
    as [Heq|Hne].
  - apply Z.eqb_eq. lia.
  - apply Z.eqb_neq. lia.
Qed.

Lemma debug_loop_run (users : list (string * Profile.t)) :
  forall (console : list AuditReport) (n : nat) (db : Database),
  run (debug_loop users console) no_faults n db
  = ((console ++ List.map (report_for db) users)%list, db).
Proof.
  induction users as [|user rest IH]; intros console n db;
    cbn [debug_loop run no_faults perform List.map].
  - rewrite List.app_nil_r. reflexivity.
  - rewrite IH. rewrite <- List.app_assoc. reflexivity.
Qed.

(** The audit only reads, whatever the store answers. *)
Lemma debug_loop_reads_only (users : list (string * Profile.t)) :
  forall (console : list AuditReport) (faults : Faults) (n : nat) (db : Database),
  snd (run (debug_loop users console) faults n db) = db.
Proof.
  induction users as [|user rest IH]; intros console faults n db;
    cbn [debug_loop run perform].
  - reflexivity.
  - destruct (faults n); apply IH.
Qed.

Lemma audit_reads_only (faults : Faults) (db : Database) :
  snd (run debugAllTradeableUsers faults 0 db) = db.
Proof.
  unfold debugAllTradeableUsers. cbn [run perform].
  destruct (faults 0%nat); [reflexivity|]. apply debug_loop_reads_only.
Qed.

Lemma audit_run (db : Database) :
  run debugAllTradeableUsers no_faults 0 db
  = (List.map (report_for db) (tradeable_users db), db).
Proof.
  unfold debugAllTradeableUsers. cbn [run no_faults perform].
  rewrite debug_loop_run. reflexivity.
Qed.

Lemma fix_loop_run (users : list (string * Profile.t)) :
  forall (n : nat) (db : Database),
  run (fix_loop users) no_faults n db
  = (tt, set_profiles db (fold_left (repair_row (transactions db)) users (profiles db))).
Proof.
  induction users as [|user rest IH]; intros n db;
    cbn [fix_loop run no_faults perform fold_left].
  - destruct db; reflexivity.
  - rewrite !sum_quantity_selected.
    unfold repair_row at 2. unfold expected_available, netIssued.
    destruct (negb _); cbn [run no_faults perform]; rewrite IH; reflexivity.
Qed.

Lemma fix_loop_writes (users : list (string * Profile.t)) :
  forall (n : nat) (db : Database),
  writes (fix_loop users) no_faults n db
  = List.map (fun _ => profiles_table)
      (List.filter
         (fun up => negb (Profile.available_shares (snd up)
                          =? expected_available (fst up) (snd up) (transactions db)))
         users).
Proof.
  induction users as [|user rest IH]; intros n db;
    cbn [fix_loop writes no_faults perform written is_data List.filter List.map].
  - reflexivity.
  - rewrite !sum_quantity_selected.
    unfold expected_available at 1, netIssued.
    destruct (negb _); cbn [writes no_faults perform written is_data List.map];
      rewrite IH; reflexivity.
Qed.

Section Repair.

(** The transaction log, which the repair loop reads and never writes. *)
Variable log : list Transaction.t.

Lemma repair_row_other (m : gmap string Profile.t)
    (user : string * Profile.t) (u : string) :
  fst user <> u -> repair_row log m user !! u = m !! u.
Proof.
  intros Hne. unfold repair_row. destruct (negb _); [|reflexivity].
  apply lookup_alter_ne. exact Hne.
Qed.

Lemma repair_row_own (m : gmap string Profile.t)
    (u : string) (p : Profile.t) :
  m !! u = Some p ->
  repair_row log m (u, p) !! u
  = Some (with_available_shares (expected_available u p log) p).
Proof.
  intros Hu. unfold repair_row. cbn [fst snd].
  destruct (Z.eqb_spec (Profile.available_shares p) (expected_available u p log))
    as [Heq|Hne]; cbn [negb].
  - rewrite Hu, <- Heq, with_available_shares_same. reflexivity.
  - rewrite lookup_alter_eq, Hu. reflexivity.
Qed.

Lemma fold_repair_other (users : list (string * Profile.t)) :
  forall (m : gmap string Profile.t) (u : string),
  ~ In u (List.map fst users) ->
  fold_left (repair_row log) users m !! u = m !! u.
Proof.
  induction users as [|user rest IH]; intros m u Hnotin; cbn [fold_left].
  - reflexivity.
  - cbn [List.map In] in Hnotin. rewrite IH by tauto.
    apply repair_row_other. tauto.
Qed.

Lemma fold_repair_own (users : list (string * Profile.t)) :
  forall (m : gmap string Profile.t) (u : string) (p : Profile.t),
  List.NoDup (List.map fst users) ->
  In (u, p) users ->
  m !! u = Some p ->
  fold_left (repair_row log) users m !! u
  = Some (with_available_shares (expected_available u p log) p).
Proof.
  induction users as [|user rest IH]; intros m u p Hnodup Hin Hu; cbn [fold_left].
  - destruct Hin.
  - cbn [List.map] in Hnodup. apply List.NoDup_cons_iff in Hnodup as [Hfresh Hnodup].
    destruct Hin as [->|Hin].
    + cbn [fst] in Hfresh. rewrite fold_repair_other by exact Hfresh.
      apply repair_row_own. exact Hu.
    + assert (Hne : fst user <> u).
      { intros <-. apply Hfresh. apply (List.in_map fst) in Hin. exact Hin. }
      apply IH; [exact Hnodup | exact Hin |].
      rewrite repair_row_other by exact Hne. exact Hu.
Qed.

End Repair.

Lemma tradeable_users_spec (db : Database) (u : string) (p : Profile.t) :
  In (u, p) (tradeable_users db)
  <-> profiles db !! u = Some p /\ Profile.is_tradeable p = true.
Proof.
  unfold tradeable_users. rewrite List.filter_In. cbn [snd].
  rewrite <- list_elem_of_In, elem_of_map_to_list. reflexivity.
Qed.

Lemma tradeable_users_NoDup (db : Database) :
  List.NoDup (List.map fst (tradeable_users db)).
Proof.
  unfold tradeable_users.
  pose proof (NoDup_fst_map_to_list (profiles db)) as Hnodup.
  induction (map_to_list (profiles db)) as [|user rest IH]; cbn [List.filter].
  - constructor.
  - cbn in Hnodup. apply NoDup_cons in Hnodup as [Hfresh Hnodup].
    destruct (Profile.is_tradeable (snd user)); [|apply IH; exact Hnodup].
    cbn [List.map]. constructor; [|apply IH; exact Hnodup].
    intros Hin. apply Hfresh.
    apply List.in_map_iff in Hin as [[u' p'] [Hfst Hin]].
    apply List.filter_In in Hin as [Hin _].
    apply list_elem_of_fmap. exists (u', p').
    split; [symmetry; exact Hfst | apply list_elem_of_In; exact Hin].
Qed.

Lemma repair_run (db : Database) :
  run fixShareCountDiscrepancies no_faults 0 db
  = (tt, set_profiles db
           (fold_left (repair_row (transactions db)) (tradeable_users db) (profiles db))).
Proof.
  unfold fixShareCountDiscrepancies. cbn [run no_faults perform].
  apply fix_loop_run.
Qed.

(** After repair, every row of [profiles] is the [repaired] row. *)
Lemma repair_profiles (db : Database) (u : string) :
  profiles (snd (run fixShareCountDiscrepancies no_faults 0 db)) !! u
  = repaired (transactions db) u <$> profiles db !! u.
Proof.
  rewrite repair_run. cbn [snd profiles set_profiles].
  destruct (profiles db !! u) as [p|] eqn:Hu; cbn [fmap option_fmap option_map].
  - unfold repaired. destruct (Profile.is_tradeable p) eqn:Htradeable.
    + apply fold_repair_own; [apply tradeable_users_NoDup | | exact Hu].
      apply tradeable_users_spec. split; assumption.
    + rewrite fold_repair_other; [exact Hu|].
      intros Hin. apply List.in_map_iff in Hin as [[u' p'] [Hfst Hin]].
      cbn [fst] in Hfst. subst u'.
      apply tradeable_users_spec in Hin as [Hu' Htradeable'].
      congruence.
  - rewrite fold_repair_other; [exact Hu|].
    intros Hin. apply List.in_map_iff in Hin as [[u' p'] [Hfst Hin]].
    cbn [fst] in Hfst. subst u'.
    apply tradeable_users_spec in Hin as [Hu' _]. congruence.
Qed.

Lemma repair_writes (db : Database) :
  writes fixShareCountDiscrepancies no_faults 0 db
  = List.map (fun _ => profiles_table) (drifted_users db).
Proof.
  unfold fixShareCountDiscrepancies. cbn [writes no_faults perform written].
  rewrite fix_loop_writes. reflexivity.
Qed.

(** A repaired, tradeable row passes the audit. *)
Lemma repaired_row_consistent (db : Database) (u : string) (p' : Profile.t) :
  let db' := snd (run fixShareCountDiscrepancies no_faults 0 db) in
  In (u, p') (tradeable_users db') ->
  consistent (report_for db' (u, p')) = true
  /\ discrepancy (report_for db' (u, p')) = 0.
Proof.
  intros db' Hin.
  apply tradeable_users_spec in Hin as [Hu' Htradeable'].
  subst db'. rewrite repair_profiles in Hu'.
  assert (Hlog : transactions (snd (run fixShareCountDiscrepancies no_faults 0 db))
                 = transactions db).
  { rewrite repair_run. reflexivity. }
  destruct (profiles db !! u) as [p|]; [|discriminate].
  cbn in Hu'. injection Hu' as <-.
  unfold report_for. cbn [fst snd]. rewrite Hlog.
  destruct (audit_user_selected u (repaired (transactions db) u p) (transactions db))
    as (_ & _ & Hd & Hc).
  rewrite Hc, Hd. clear Hc Hd.
  unfold repaired in *. destruct (Profile.is_tradeable p) eqn:Htradeable.
  - unfold expected_available. cbn [with_available_shares Profile.available_shares
                                     Profile.total_shares].
    split; [apply Z.eqb_eq; reflexivity | lia].
  - congruence.
Qed.

(** C6. For every tradeable user the audit computes
    [expectedAvailable = totalShares - (sum of buys - sum of sells)] over
    the log and reports whether the stored counter equals it.  Repair
    sets the counter of every tradeable user to that value, issuing a
    write exactly for the users whose counter differs, and touches
    nothing else.  An audit that follows a repair reports every user
    consistent, and an audit changes nothing, so that a second audit
    returns what the first did.  (All statements of the store succeed.) *)
Theorem audit_and_repair_reconcile (db : Database) :
  let (reports, db_audited) := run debugAllTradeableUsers no_faults 0 db in
  let db_repaired := snd (run fixShareCountDiscrepancies no_faults 0 db) in
  (* the audit *)
  reports = List.map (report_for db) (tradeable_users db)
  /\ (forall (u : string) (p : Profile.t),
        expectedAvailable (report_for db (u, p))
        = Profile.total_shares p
          - (total_quantity buy u (transactions db)
             - total_quantity sell u (transactions db))
        /\ consistent (report_for db (u, p))
           = (Profile.available_shares p =? expectedAvailable (report_for db (u, p))))
  (* the repair *)
  /\ (forall u : string,
        profiles db_repaired !! u = repaired (transactions db) u <$> profiles db !! u)
  /\ writes fixShareCountDiscrepancies no_faults 0 db
     = List.map (fun _ => profiles_table) (drifted_users db)
  /\ user_accounts db_repaired = user_accounts db
  /\ shares db_repaired = shares db
  /\ transactions db_repaired = transactions db
  (* repair, then audit *)
  /\ Forall (fun report => consistent report = true /\ discrepancy report = 0)
       (fst (run debugAllTradeableUsers no_faults 0 db_repaired))
  (* audit twice *)
  /\ db_audited = db
  /\ run debugAllTradeableUsers no_faults 0 db_audited = (reports, db_audited).
Proof.
  rewrite audit_run. cbv zeta.
  split; [reflexivity|].
  split.
  { intros u p.
    destruct (audit_user_selected u p (transactions db)) as (He & _ & _ & Hc).
    unfold report_for. cbn [fst snd]. rewrite Hc, He. split; reflexivity. }
  split; [apply repair_profiles|].
  split; [apply repair_writes|].
  rewrite repair_run at 1 2 3. cbn [snd user_accounts shares transactions set_profiles].
  split; [reflexivity|]. split; [reflexivity|]. split; [reflexivity|].
  split.
  { rewrite audit_run. cbn [fst].
    apply List.Forall_forall. intros report Hin.
    apply List.in_map_iff in Hin as [[u p'] [<- Hin]].
    apply repaired_row_consistent. exact Hin. }
  split; [reflexivity|]. apply audit_run.
Qed.

(** ** The scenario of the specification

    A buys 100 at 100, then sells 40 at 120: both orders settle; the
    position goes to (100, 100) and then (60, 100), the available shares
    to 9900 and then 9940, the cash to 10000 and then 14800. *)
Example specification_scenario :
  let orders :=
    [ {| order_buyer := "A"; order_quantity := 100; order_price := 100 # 1;
         order_type := buy; order_faults := no_faults |};
      {| order_buyer := "A"; order_quantity := 40; order_price := 120 # 1;
         order_type := sell; order_faults := no_faults |} ] in
  let outcomes :=
    settle_sequence executeTradeTransaction "issuer" orders Sample.fresh_market in
  List.map (fun o => success (fst o)) outcomes = [true; true]
  /\ List.map (fun o => shares (snd o) !! ("A", "issuer")) outcomes
     = [ Some {| Shares.quantity := 100; Shares.average_price := 100 # 1 |};
         Some {| Shares.quantity := 60; Shares.average_price := 100 # 1 |} ]
  /\ List.map (fun o => Profile.available_shares <$> profiles (snd o) !! "issuer") outcomes
     = [Some 9900; Some 9940]
  /\ List.map (fun o => user_accounts (snd o) !! "A") outcomes
     = [Some (10000 # 1); Some (14800 # 1)].
Proof. vm_compute. repeat split; reflexivity. Qed.

(** * Further properties of the settlement functions *)

(** ** What a call leaves alone *)

(** Case analysis of a call, every outcome kept. *)
Ltac every_outcome H :=
  repeat (break_run H);
  cbn [run] in H; injection H as <- <-;
  cbn [user_accounts profiles shares transactions
       set_user_accounts set_profiles set_shares set_transactions].

(** Whatever the outcome and whatever the store answers, a call of either
    variant changes no account but the buyer's, no profile but the
    issuer's, no [shares] row but the buyer's row for that issuer, and it
    never changes anybody's [total_shares]. *)
Theorem settlement_touches_only_its_rows
    (buyerId tradeableUserId : string) (quantity : Z) (pricePerShare : Q)
    (transactionType : TransactionType) (db : Database) (faults : Faults) :
  forall settle,
  settle = executeTradeTransaction \/ settle = executeTradeTransactionImproved ->
  let db' :=
    snd (run (settle buyerId tradeableUserId quantity pricePerShare transactionType)
           faults 0 db) in
  (forall u, u <> buyerId -> user_accounts db' !! u = user_accounts db !! u)
  /\ (forall u, u <> tradeableUserId -> profiles db' !! u = profiles db !! u)
  /\ (forall k, k <> (buyerId, tradeableUserId) -> shares db' !! k = shares db !! k)
  /\ (forall u, (Profile.total_shares <$> profiles db' !! u)
                = (Profile.total_shares <$> profiles db !! u)).
Proof.
  intros settle Hsettle db'. subst db'.
  destruct (run _ faults 0%nat db) as [result db'] eqn:H. cbn [snd].
  assert (Htotal : forall (m : gmap string Profile.t) (n : Z) (i u : string),
             (Profile.total_shares <$> alter (with_available_shares n) i m !! u)
             = (Profile.total_shares <$> m !! u)).
  { intros m n i u. destruct (decide (i = u)) as [<-|Hne].
    - rewrite lookup_alter_eq. destruct (m !! i); reflexivity.
    - rewrite lookup_alter_ne by exact Hne. reflexivity. }
  destruct Hsettle as [-> | ->];
    [unfold executeTradeTransaction in H | unfold executeTradeTransactionImproved in H];
    destruct transactionType; every_outcome H;
    (split; [|split; [|split]]);
    intros;
    rewrite ?Htotal, ?Htotal;
    rewrite ?lookup_alter_ne, ?lookup_insert_ne by congruence;
    rewrite ?lookup_alter_ne by congruence;
    reflexivity.
Qed.

Lemma settlement_touches_only_its_rows_witness :
  let db' :=
    snd (run (executeTradeTransaction "alice" "bob" 20 (10 # 1) buy)
           no_faults 0 Sample.db) in
  (forall u, u <> "alice" -> user_accounts db' !! u = user_accounts Sample.db !! u)
  /\ (forall u, u <> "bob" -> profiles db' !! u = profiles Sample.db !! u)
  /\ (forall k, k <> ("alice", "bob") -> shares db' !! k = shares Sample.db !! k)
  /\ (forall u, (Profile.total_shares <$> profiles db' !! u)
                = (Profile.total_shares <$> profiles Sample.db !! u)).
Proof.
  exact (settlement_touches_only_its_rows "alice" "bob" 20 (10 # 1) buy
           Sample.db no_faults executeTradeTransaction (or_introl eq_refl)).
Defined.

(** ** The transaction log *)

(** [executeTradeTransaction] adds a row to [transactions] exactly when
    it settles: a settled order appends one row, carrying the order as
    given, quantity x pricePerShare as [total_amount], the buyer as
    [seller_id] on a sell and no seller on a buy, and returns that row's
    id; a call that fails leaves the log as it was, wherever it failed.
    A settled order of the improved variant appends the same row. *)
Theorem settled_orders_are_logged
    (buyerId tradeableUserId : string) (quantity : Z) (pricePerShare : Q)
    (transactionType : TransactionType) (db : Database) (faults : Faults) :
  (let (result, db') :=
     run (executeTradeTransaction buyerId tradeableUserId quantity pricePerShare
            transactionType) faults 0 db in
   (success result = true ->
    exists txid,
      transactionId result = Some txid
      /\ transactions db'
         = (transactions db
            ++ [transaction_row txid buyerId tradeableUserId quantity pricePerShare
                  transactionType])%list)
   /\ (success result = false ->
       transactionId result = None /\ transactions db' = transactions db))
  /\ (let (result, db') :=
        run (executeTradeTransactionImproved buyerId tradeableUserId quantity
               pricePerShare transactionType) faults 0 db in
      success result = true ->
      exists txid,
        transactionId result = Some txid
        /\ transactions db'
           = (transactions db
              ++ [transaction_row txid buyerId tradeableUserId quantity pricePerShare
                    transactionType])%list).
Proof.
  split.
  - destruct (run _ faults 0%nat db) as [result db'] eqn:H.
    unfold executeTradeTransaction in H.
    destruct transactionType; every_outcome H;
      (split; intros Hs; [try discriminate Hs | try discriminate Hs]);
      first [ eexists; split; reflexivity | split; reflexivity ].
  - destruct (run _ faults 0%nat db) as [result db'] eqn:H.
    intros Hs. unfold executeTradeTransactionImproved in H.
    destruct transactionType; settled_cases H Hs;
      injection H as <- <-;
      cbn [transactions set_user_accounts set_profiles set_shares set_transactions];
      eexists; split; reflexivity.
Qed.

Lemma settled_orders_are_logged_witness :
  (let (result, db') :=
     run (executeTradeTransaction "alice" "bob" 2 (12 # 1) sell) no_faults 0 Sample.db in
   exists txid,
     transactionId result = Some txid
     /\ transactions db'
        = (transactions Sample.db
           ++ [transaction_row txid "alice" "bob" 2 (12 # 1) sell])%list)
  /\ (let (result, db') :=
        run (executeTradeTransaction "alice" "bob" 200 (10 # 1) buy)
          no_faults 0 Sample.db in
      transactionId result = None /\ transactions db' = transactions Sample.db)
  /\ (let (result, db') :=
        run (executeTradeTransactionImproved "alice" "bob" 2 (12 # 1) sell)
          no_faults 0 Sample.db in
      exists txid,
        transactionId result = Some txid
        /\ transactions db'
           = (transactions Sample.db
              ++ [transaction_row txid "alice" "bob" 2 (12 # 1) sell])%list).
Proof.
  split; [|split].
  - destruct (settled_orders_are_logged "alice" "bob" 2 (12 # 1) sell
                Sample.db no_faults) as [H _].
    destruct (run _ no_faults 0%nat Sample.db) as [result db'] eqn:E.
    apply (proj1 H). vm_compute in E. injection E as <- _. reflexivity.
  - destruct (settled_orders_are_logged "alice" "bob" 200 (10 # 1) buy
                Sample.db no_faults) as [H _].
    destruct (run _ no_faults 0%nat Sample.db) as [result db'] eqn:E.
    apply (proj2 H). vm_compute in E. injection E as <- _. reflexivity.
  - destruct (settled_orders_are_logged "alice" "bob" 2 (12 # 1) sell
                Sample.db no_faults) as [_ H].
    destruct (run _ no_faults 0%nat Sample.db) as [result db'] eqn:E.
    apply H. vm_compute in E. injection E as <- _. reflexivity.
Defined.

(** ** Settlement and the auditor *)

Lemma foldr_add_app (l1 l2 : list Z) :
  foldr Z.add 0 (l1 ++ l2) = foldr Z.add 0 l1 + foldr Z.add 0 l2.
Proof.
  induction l1 as [|x l1 IH]; cbn [foldr app]; [reflexivity|]. rewrite IH. lia.
Qed.

Lemma total_quantity_app (ty : TransactionType) (issuer : string)
    (log : list Transaction.t) (t : Transaction.t) :
  total_quantity ty issuer (log ++ [t])
  = total_quantity ty issuer log
    + (if String.eqb (Transaction.tradeable_user_id t) issuer
          && TransactionType_eqb (Transaction.transaction_type t) ty
       then Transaction.quantity t else 0).
Proof.
  unfold total_quantity.
  rewrite List.filter_app, List.map_app, foldr_add_app. cbn [List.filter].
  destruct (String.eqb (Transaction.tradeable_user_id t) issuer
            && TransactionType_eqb (Transaction.transaction_type t) ty);
    cbn [List.map foldr]; lia.
Qed.

(** One settled order, seen from the counter of any issuer [i]. *)
Lemma counter_matches_log_step
    (i : string) (db db' : Database) (n : Z) (txid : nat)
    (buyerId tradeableUserId : string) (quantity : Z) (pricePerShare : Q)
    (transactionType : TransactionType) :
  profiles db' = alter (with_available_shares n) tradeableUserId (profiles db) ->
  transactions db'
  = (transactions db
     ++ [transaction_row txid buyerId tradeableUserId quantity pricePerShare
           transactionType])%list ->
  (forall p, profiles db !! tradeableUserId = Some p ->
             n = new_available_shares transactionType p quantity) ->
  counter_matches_log i db -> counter_matches_log i db'.
Proof.
  intros Hprofiles Hlog Hn [p [Hp Hcounter]].
  unfold counter_matches_log. rewrite Hprofiles, Hlog.
  destruct (decide (tradeableUserId = i)) as [->|Hne].
  - exists (with_available_shares n p). split.
    + rewrite lookup_alter_eq, Hp. reflexivity.
    + rewrite (Hn p Hp).
      unfold expected_available, netIssued in *.
      rewrite !total_quantity_app.
      cbn [transaction_row Transaction.tradeable_user_id Transaction.transaction_type
           Transaction.quantity with_available_shares Profile.available_shares
           Profile.total_shares].
      rewrite String.eqb_refl.
      destruct transactionType;
        cbn [TransactionType_eqb andb new_available_shares]; lia.
  - exists p. split.
    + rewrite lookup_alter_ne by exact Hne. exact Hp.
    + unfold expected_available, netIssued in *.
      rewrite !total_quantity_app.
      cbn [transaction_row Transaction.tradeable_user_id].
      apply String.eqb_neq in Hne. rewrite Hne. cbn [andb]. lia.
Qed.

(** A settled order moves the counter and the log together: for every
    issuer whose [available_shares] equals
    [total_shares - (buys - sells)] before a call of either variant, it
    still does after the call has settled, oversells and orders of
    non-positive quantity included. *)
Theorem settled_order_keeps_counter_and_log_agreeing
    (i buyerId tradeableUserId : string) (quantity : Z) (pricePerShare : Q)
    (transactionType : TransactionType) (db : Database) (faults : Faults) :
  counter_matches_log i db ->
  (let (result, db') :=
     run (executeTradeTransaction buyerId tradeableUserId quantity pricePerShare
            transactionType) faults 0 db in
   success result = true -> counter_matches_log i db')
  /\ (let (result, db') :=
        run (executeTradeTransactionImproved buyerId tradeableUserId quantity
               pricePerShare transactionType) faults 0 db in
      success result = true -> counter_matches_log i db').
Proof.
  intros Hcounter.
  assert (Hstep : forall (ty : TransactionType) (db' : Database) (n : Z),
             profiles db' = alter (with_available_shares n) tradeableUserId (profiles db) ->
             transactions db'
             = (transactions db
                ++ [transaction_row (fresh_id (transactions db)) buyerId tradeableUserId
                      quantity pricePerShare ty])%list ->
             (forall p, profiles db !! tradeableUserId = Some p ->
                        n = new_available_shares ty p quantity) ->
             counter_matches_log i db').
  { intros ty db' n Hprofiles Hlog Hn.
    exact (counter_matches_log_step i db db' n _ _ _ _ _ ty Hprofiles Hlog Hn Hcounter). }
  split.
  - destruct (run _ faults 0%nat db) as [result db'] eqn:H.
    intros Hs. unfold executeTradeTransaction in H.
    destruct transactionType;
      [ settled_cases H Hs; injection H as <- <-; eapply (Hstep buy)
      | settled_cases H Hs; injection H as <- <-; eapply (Hstep sell) ];
      first [ reflexivity | intros p [= <-]; reflexivity ].
  - destruct (run _ faults 0%nat db) as [result db'] eqn:H.
    intros Hs. unfold executeTradeTransactionImproved in H.
    destruct transactionType;
      [ settled_cases H Hs; injection H as <- <-; eapply (Hstep buy)
      | settled_cases H Hs; injection H as <- <-; eapply (Hstep sell) ];
      first [ reflexivity | intros p [= <-]; reflexivity ].
Qed.

Lemma sample_counter_matches_log : counter_matches_log "bob" Sample.db.
Proof. exists Sample.bob. split; reflexivity. Qed.

Lemma settled_order_keeps_counter_and_log_agreeing_witness :
  counter_matches_log "bob"
    (snd (run (executeTradeTransaction "alice" "bob" 10 (10 # 1) sell)
            no_faults 0 Sample.db))
  /\ counter_matches_log "bob"
       (snd (run (executeTradeTransactionImproved "carol" "bob" 20 (10 # 1) buy)
               no_faults 0 Sample.db)).
Proof.
  split.
  - destruct (settled_order_keeps_counter_and_log_agreeing "bob" "alice" "bob" 10
                (10 # 1) sell Sample.db no_faults sample_counter_matches_log) as [H _].
    destruct (run _ no_faults 0%nat Sample.db) as [result db'] eqn:E.
    apply H. vm_compute in E. injection E as <- _. reflexivity.
  - destruct (settled_order_keeps_counter_and_log_agreeing "bob" "carol" "bob" 20
                (10 # 1) buy Sample.db no_faults sample_counter_matches_log) as [_ H].
    destruct (run _ no_faults 0%nat Sample.db) as [result db'] eqn:E.
    apply H. vm_compute in E. injection E as <- _. reflexivity.
Defined.

(** The database [executeTradeTransaction] leaves when it refuses a sell
    for want of a [shares] row. *)
Lemma refused_sell_database
    (buyerId tradeableUserId : string) (quantity : Z) (pricePerShare : Q)
    (db : Database) (faults : Faults) (balance : Q) (profile : Profile.t) :
  user_accounts db !! buyerId = Some balance ->
  profiles db !! tradeableUserId = Some profile ->
  shares db !! (buyerId, tradeableUserId) = None ->
  (forall n, (n < 5)%nat -> faults n = None) ->
  snd (run (executeTradeTransaction buyerId tradeableUserId quantity pricePerShare sell)
         faults 0 db)
  = set_profiles
      (set_user_accounts db
         (alter (fun _ => (balance + inject_Z quantity * pricePerShare)%Q) buyerId
            (user_accounts db)))
      (alter (with_available_shares (Profile.available_shares profile + quantity))
         tradeableUserId (profiles db)).
Proof.
  intros Ha Hp Hs Hf.
  unfold executeTradeTransaction.
  cbn [run]. rewrite (Hf 0%nat) by lia. cbn [perform]. rewrite Ha.
  cbn [run TransactionType_eqb andb]. rewrite (Hf 1%nat) by lia.
  cbn [perform]. rewrite Hp.
  cbn [run TransactionType_eqb andb]. rewrite (Hf 2%nat) by lia. cbn [perform].
  cbn [run]. rewrite (Hf 3%nat) by lia. cbn [perform].
  cbn [run]. rewrite (Hf 4%nat) by lia.
  cbn [perform shares set_profiles set_user_accounts]. rewrite Hs.
  reflexivity.
Qed.

(** The sell that [executeTradeTransaction] refuses for want of a
    [shares] row leaves a drift the reconciliation routines find and
    undo: if the issuer's counter agreed with the log before the call,
    the audit then reports a discrepancy equal to the order's quantity,
    and [fixShareCountDiscrepancies] puts the issuer's profile back to
    what it was before the call. *)
Theorem refused_sell_drift_is_found_and_repaired
    (buyerId tradeableUserId : string) (quantity : Z) (pricePerShare : Q)
    (db : Database) (faults : Faults) (balance : Q) (profile : Profile.t) :
  user_accounts db !! buyerId = Some balance ->
  profiles db !! tradeableUserId = Some profile ->
  shares db !! (buyerId, tradeableUserId) = None ->
  (forall n, (n < 5)%nat -> faults n = None) ->
  Profile.is_tradeable profile = true ->
  counter_matches_log tradeableUserId db ->
  let db1 :=
    snd (run (executeTradeTransaction buyerId tradeableUserId quantity pricePerShare
                sell) faults 0 db) in
  (exists p1, profiles db1 !! tradeableUserId = Some p1
     /\ In (report_for db1 (tradeableUserId, p1))
          (fst (run debugAllTradeableUsers no_faults 0 db1))
     /\ discrepancy (report_for db1 (tradeableUserId, p1)) = quantity)
  /\ profiles (snd (run fixShareCountDiscrepancies no_faults 0 db1)) !! tradeableUserId
     = Some profile.
Proof.
  intros Ha Hp Hs Hf Htradeable [p [Hp' Hcounter]] db1.
  rewrite Hp in Hp'. injection Hp' as <-.
  subst db1.
  rewrite (refused_sell_database _ _ _ _ _ _ _ _ Ha Hp Hs Hf).
  set (db1 := set_profiles _ _).
  assert (Hp1 : profiles db1 !! tradeableUserId
                = Some (with_available_shares
                          (Profile.available_shares profile + quantity) profile)).
  { subst db1. cbn [profiles set_profiles]. rewrite lookup_alter_eq, Hp. reflexivity. }
  assert (Hlog : transactions db1 = transactions db) by reflexivity.
  split.
  - eexists. split; [exact Hp1|]. split.
    + rewrite audit_run. cbn [fst]. apply List.in_map.
      apply tradeable_users_spec. split; [exact Hp1 | exact Htradeable].
    + unfold report_for. cbn [fst snd]. rewrite Hlog.
      destruct (audit_user_selected tradeableUserId
                  (with_available_shares
                     (Profile.available_shares profile + quantity) profile)
                  (transactions db)) as (_ & _ & Hd & _).
      rewrite Hd. unfold expected_available in *.
      cbn [with_available_shares Profile.available_shares Profile.total_shares]. lia.
  - rewrite repair_profiles, Hp1, Hlog. cbn [fmap option_fmap option_map].
    unfold repaired. cbn [with_available_shares Profile.is_tradeable].
    rewrite Htradeable. f_equal.
    unfold expected_available in *.
    cbn [with_available_shares Profile.total_shares].
    rewrite <- Hcounter. destruct profile; reflexivity.
Qed.

Lemma refused_sell_drift_witness :
  let db1 :=
    snd (run (executeTradeTransaction "carol" "bob" 10 (10 # 1) sell)
           no_faults 0 Sample.db) in
  (exists p1, profiles db1 !! "bob" = Some p1
     /\ In (report_for db1 ("bob", p1))
          (fst (run debugAllTradeableUsers no_faults 0 db1))
     /\ discrepancy (report_for db1 ("bob", p1)) = 10)
  /\ profiles (snd (run fixShareCountDiscrepancies no_faults 0 db1)) !! "bob"
     = Some Sample.bob.
Proof.
  apply (refused_sell_drift_is_found_and_repaired "carol" "bob" 10 (10 # 1)
           Sample.db no_faults (1000 # 1) Sample.bob).
  - reflexivity.
  - reflexivity.
  - reflexivity.
  - intros n _. reflexivity.
  - reflexivity.
  - exact sample_counter_matches_log.
Defined.

(** ** Failures that have written nothing *)

(** Membership in a list of messages, decided. *)
Ltac message_cases :=
  cbn [original_unwritten improved_unwritten early_rejections app In
       error failed succeeded];
  split;
  [ intros (msg & Hmsg & Hin);
    first [ reflexivity
          | exfalso; simplify_eq; intuition discriminate ]
  | intros Hw;
    first [ discriminate Hw
          | eexists; split; [reflexivity | cbn [In]; tauto] ] ].

(** [executeTradeTransaction] has written nothing exactly when it
    returns one of five failures: the two failed reads, 'Insufficient
    funds', 'Insufficient shares available' and 'Failed to update account
    balance'.  Every other outcome, 'Cannot sell shares you do not own'
    included, comes after at least one write.  The improved variant has
    written nothing exactly when it returns one of the first four,
    'Cannot sell shares you do not own' or 'Failed to record
    transaction'.  In both, no write means an unchanged database. *)
Theorem failures_that_wrote_nothing
    (buyerId tradeableUserId : string) (quantity : Z) (pricePerShare : Q)
    (transactionType : TransactionType) (db : Database) (faults : Faults) :
  let original :=
    executeTradeTransaction buyerId tradeableUserId quantity pricePerShare
      transactionType in
  let improved :=
    executeTradeTransactionImproved buyerId tradeableUserId quantity pricePerShare
      transactionType in
  ((exists msg, error (fst (run original faults 0 db)) = Some msg
                /\ In msg original_unwritten)
   <-> writes original faults 0 db = [])
  /\ ((exists msg, error (fst (run improved faults 0 db)) = Some msg
                   /\ In msg improved_unwritten)
      <-> writes improved faults 0 db = [])
  /\ (writes original faults 0 db = [] -> snd (run original faults 0 db) = db)
  /\ (writes improved faults 0 db = [] -> snd (run improved faults 0 db) = db).
Proof.
  intros original improved. subst original improved.
  split; [|split; [|split]].
  - unfold executeTradeTransaction.
    destruct transactionType; all_cases; message_cases.
  - unfold executeTradeTransactionImproved.
    destruct transactionType; all_cases; message_cases.
  - unfold executeTradeTransaction.
    destruct transactionType; all_cases; intros Hw;
      first [discriminate Hw | reflexivity].
  - unfold executeTradeTransactionImproved.
    destruct transactionType; all_cases; intros Hw;
      first [discriminate Hw | reflexivity].
Qed.

Lemma failures_that_wrote_nothing_witness :
  writes (executeTradeTransaction "alice" "bob" 200 (10 # 1) buy) no_faults 0 Sample.db
  = []
  /\ snd (run (executeTradeTransaction "alice" "bob" 200 (10 # 1) buy)
            no_faults 0 Sample.db) = Sample.db
  /\ writes (executeTradeTransactionImproved "carol" "bob" 10 (10 # 1) sell)
       no_faults 0 Sample.db = []
  /\ snd (run (executeTradeTransactionImproved "carol" "bob" 10 (10 # 1) sell)
            no_faults 0 Sample.db) = Sample.db.
Proof.
  destruct (failures_that_wrote_nothing "alice" "bob" 200 (10 # 1) buy
              Sample.db no_faults) as (Horiginal & _ & Hsame & _).
  destruct (failures_that_wrote_nothing "carol" "bob" 10 (10 # 1) sell
              Sample.db no_faults) as (_ & Himproved & _ & Hsame').
  cbv zeta in *.
  assert (H1 : writes (executeTradeTransaction "alice" "bob" 200 (10 # 1) buy)
                 no_faults 0 Sample.db = []).
  { apply Horiginal. exists "Insufficient funds". split; [reflexivity|].
    cbn. tauto. }
  assert (H2 : writes (executeTradeTransactionImproved "carol" "bob" 10 (10 # 1) sell)
                 no_faults 0 Sample.db = []).
  { apply Himproved. exists "Cannot sell shares you do not own".
    split; [reflexivity|]. cbn. tauto. }
  repeat split; auto.
Defined.

(** ** The improved variant's range check *)

(** Every order the improved variant settles leaves the issuer's
    [available_shares] between 0 and [total_shares], whatever the
    database held before. *)
Theorem improved_keeps_supply_in_range
    (buyerId tradeableUserId : string) (quantity : Z) (pricePerShare : Q)
    (transactionType : TransactionType) (db : Database) (faults : Faults) :
  let (result, db') :=
    run (executeTradeTransactionImproved buyerId tradeableUserId quantity
           pricePerShare transactionType) faults 0 db in
  success result = true ->
  exists p', profiles db' !! tradeableUserId = Some p'
    /\ 0 <= Profile.available_shares p' <= Profile.total_shares p'.
Proof.
  destruct (run _ faults 0%nat db) as [result db'] eqn:H.
  intros Hs. unfold executeTradeTransactionImproved in H.
  destruct transactionType; settled_cases H Hs; injection H as <- <-;
    cbn [profiles set_user_accounts set_profiles set_shares set_transactions];
    rewrite lookup_alter_eq; known_row; cbn [fmap option_fmap option_map];
    eexists; (split; [reflexivity|]);
    cbn [with_available_shares Profile.available_shares Profile.total_shares];
    leb_facts; lia.
Qed.

Lemma improved_keeps_supply_in_range_witness :
  let (result, db') :=
    run (executeTradeTransactionImproved "alice" "bob" 5 (10 # 1) sell)
      no_faults 0 Sample.db in
  exists p', profiles db' !! "bob" = Some p'
    /\ 0 <= Profile.available_shares p' <= Profile.total_shares p'.
Proof.
  pose proof (improved_keeps_supply_in_range "alice" "bob" 5 (10 # 1) sell
                Sample.db no_faults) as H.
  destruct (run _ no_faults 0%nat Sample.db) as [result db'] eqn:E.
  apply H. vm_compute in E. injection E as <- _. reflexivity.
Defined.

(** ** Cash *)

(** In both variants a settled order has moved the buyer's balance by
    exactly quantity x pricePerShare: down on a buy, up on a sell (a sell
    is never checked against the balance). *)
Theorem settled_order_moves_cash_exactly
    (buyerId tradeableUserId : string) (quantity : Z) (pricePerShare : Q)
    (transactionType : TransactionType) (db : Database) (faults : Faults)
    (balance : Q) :
  user_accounts db !! buyerId = Some balance ->
  let newBalance :=
    match transactionType with
    | buy => (balance - inject_Z quantity * pricePerShare)%Q
    | sell => (balance + inject_Z quantity * pricePerShare)%Q
    end in
  (let (result, db') :=
     run (executeTradeTransaction buyerId tradeableUserId quantity pricePerShare
            transactionType) faults 0 db in
   success result = true -> user_accounts db' !! buyerId = Some newBalance)
  /\ (let (result, db') :=
        run (executeTradeTransactionImproved buyerId tradeableUserId quantity
               pricePerShare transactionType) faults 0 db in
      success result = true -> user_accounts db' !! buyerId = Some newBalance).
Proof.
  intros Ha newBalance. subst newBalance. split.
  - destruct (run _ faults 0%nat db) as [result db'] eqn:H.
    intros Hs. unfold executeTradeTransaction in H.
    destruct transactionType; settled_cases H Hs; injection H as <- <-;
      cbn [user_accounts set_user_accounts set_profiles set_shares set_transactions];
      rewrite lookup_alter_eq; known_row; cbn; congruence.
  - destruct (run _ faults 0%nat db) as [result db'] eqn:H.
    intros Hs. unfold executeTradeTransactionImproved in H.
    destruct transactionType; settled_cases H Hs; injection H as <- <-;
      cbn [user_accounts set_user_accounts set_profiles set_shares set_transactions];
      rewrite lookup_alter_eq; known_row; cbn; congruence.
Qed.

Lemma settled_order_moves_cash_witness :
  (let (result, db') :=
     run (executeTradeTransaction "alice" "bob" 2 (12 # 1) sell) no_faults 0 Sample.db in
   user_accounts db' !! "alice" = Some ((1000 # 1) + inject_Z 2 * (12 # 1))%Q)
  /\ (let (result, db') :=
        run (executeTradeTransactionImproved "alice" "bob" 20 (10 # 1) buy)
          no_faults 0 Sample.db in
      user_accounts db' !! "alice" = Some ((1000 # 1) - inject_Z 20 * (10 # 1))%Q).
Proof.
  split.
  - destruct (settled_order_moves_cash_exactly "alice" "bob" 2 (12 # 1) sell
                Sample.db no_faults (1000 # 1) eq_refl) as [H _].
    destruct (run _ no_faults 0%nat Sample.db) as [result db'] eqn:E.
    apply H. vm_compute in E. injection E as <- _. reflexivity.
  - destruct (settled_order_moves_cash_exactly "alice" "bob" 20 (10 # 1) buy
                Sample.db no_faults (1000 # 1) eq_refl) as [_ H].
    destruct (run _ no_faults 0%nat Sample.db) as [result db'] eqn:E.
    apply H. vm_compute in E. injection E as <- _. reflexivity.
Defined.

(** ** Positions *)

(** A settled buy by an owner who has no [shares] row for the issuer
    creates the row with the order's quantity and the order's price as
    average price, in both variants. *)
Theorem first_buy_opens_position
    (buyerId tradeableUserId : string) (quantity : Z) (pricePerShare : Q)
    (db : Database) (faults : Faults) :
  shares db !! (buyerId, tradeableUserId) = None ->
  let opened :=
    Some {| Shares.quantity := quantity; Shares.average_price := pricePerShare |} in
  (let (result, db') :=
     run (executeTradeTransaction buyerId tradeableUserId quantity pricePerShare buy)
       faults 0 db in
   success result = true -> shares db' !! (buyerId, tradeableUserId) = opened)
  /\ (let (result, db') :=
        run (executeTradeTransactionImproved buyerId tradeableUserId quantity
               pricePerShare buy) faults 0 db in
      success result = true -> shares db' !! (buyerId, tradeableUserId) = opened).
Proof.
  intros Hnone opened. subst opened. split.
  - destruct (run _ faults 0%nat db) as [result db'] eqn:H.
    intros Hs. unfold executeTradeTransaction in H.
    settled_cases H Hs; simplify_eq.
    cbn [shares set_user_accounts set_profiles set_shares set_transactions].
    apply lookup_insert_eq.
  - destruct (run _ faults 0%nat db) as [result db'] eqn:H.
    intros Hs. unfold executeTradeTransactionImproved in H.
    settled_cases H Hs; simplify_eq.
    cbn [shares set_user_accounts set_profiles set_shares set_transactions].
    apply lookup_insert_eq.
Qed.

Lemma first_buy_opens_position_witness :
  (let (result, db') :=
     run (executeTradeTransaction "carol" "bob" 20 (10 # 1) buy) no_faults 0 Sample.db in
   shares db' !! ("carol", "bob")
   = Some {| Shares.quantity := 20; Shares.average_price := 10 # 1 |})
  /\ (let (result, db') :=
        run (executeTradeTransactionImproved "carol" "bob" 20 (10 # 1) buy)
          no_faults 0 Sample.db in
      shares db' !! ("carol", "bob")
      = Some {| Shares.quantity := 20; Shares.average_price := 10 # 1 |}).
Proof.
  split.
  - destruct (first_buy_opens_position "carol" "bob" 20 (10 # 1)
                Sample.db no_faults eq_refl) as [H _].
    destruct (run _ no_faults 0%nat Sample.db) as [result db'] eqn:E.
    apply H. vm_compute in E. injection E as <- _. reflexivity.
  - destruct (first_buy_opens_position "carol" "bob" 20 (10 # 1)
                Sample.db no_faults eq_refl) as [_ H].
    destruct (run _ no_faults 0%nat Sample.db) as [result db'] eqn:E.
    apply H. vm_compute in E. injection E as <- _. reflexivity.
Defined.

(** In the improved variant, against an existing position [(q1, avg1)]:
    a settled buy of [q2 > 0] at [p2] (with [q1 >= 0]) leaves the
    quantity [q1 + q2] and the average cost [(q1*avg1 + q2*p2) / (q1 + q2)]
    as the DECIMAL(10,2) column keeps it: a whole number of cents within
    half a cent of it, and that value itself when it is a whole number of
    cents.  A sell that settles sold no more than was held; it leaves
    [(q1 - q2, avg1)] when something is left (the stored average being a
    whole number of cents), and when it sold everything the row stays as
    it was, the DELETE issued for it removing nothing. *)
Theorem improved_position_law
    (buyerId tradeableUserId : string) (q2 : Z) (p2 : Q)
    (transactionType : TransactionType)
    (db : Database) (faults : Faults) (q1 : Z) (avg1 : Q) :
  shares db !! (buyerId, tradeableUserId)
    = Some {| Shares.quantity := q1; Shares.average_price := avg1 |} ->
  let (result, db') :=
    run (executeTradeTransactionImproved buyerId tradeableUserId q2 p2 transactionType)
      faults 0 db in
  success result = true ->
  let position := shares db' !! (buyerId, tradeableUserId) in
  match transactionType with
  | buy =>
      0 <= q1 -> 0 < q2 ->
      let average :=
        ((inject_Z q1 * avg1 + inject_Z q2 * p2) / inject_Z (q1 + q2))%Q in
      exists stored,
        position = Some {| Shares.quantity := q1 + q2; Shares.average_price := stored |}
        /\ whole_cents stored = true
        /\ (Qabs (stored - average) <= 1 # 200)%Q
        /\ (whole_cents average = true -> stored = average)
  | sell =>
      q2 <= q1
      /\ (q2 < q1 -> whole_cents avg1 = true ->
          position = Some {| Shares.quantity := q1 - q2; Shares.average_price := avg1 |})
      /\ (q2 = q1 ->
          position = Some {| Shares.quantity := q1; Shares.average_price := avg1 |})
  end.
Proof.
  intros Hpos.
  destruct (run _ faults 0%nat db) as [result db'] eqn:H.
  intros Hs position. subst position.
  unfold executeTradeTransactionImproved in H.
  destruct transactionType.
  - intros Hq1 Hq2 average.
    settled_cases H Hs; simplify_eq; leb_facts;
      cbn [shares set_transactions set_shares set_profiles set_user_accounts
           Shares.quantity Shares.average_price] in *; try lia.
    rewrite lookup_alter_eq. known_row. cbn [fmap option_fmap option_map].
    eexists. split; [reflexivity|].
    split; [apply decimal_10_2_whole|].
    split; [apply decimal_10_2_near | apply decimal_10_2_exact].
  - settled_cases H Hs; simplify_eq; leb_facts;
      cbn [shares set_transactions set_shares set_profiles set_user_accounts
           Shares.quantity Shares.average_price] in *; try congruence.
    + split; [lia|]. split; [intros; lia | intros _; assumption].
    + rewrite lookup_alter_eq. known_row. cbn [fmap option_fmap option_map].
      split; [lia|]. split; [|intros; lia].
      intros _ Hcents. rewrite (decimal_10_2_exact _ Hcents). reflexivity.
Qed.

Lemma improved_position_law_witness :
  (let (result, db') :=
     run (executeTradeTransactionImproved "alice" "bob" 20 (12 # 1) buy)
       no_faults 0 Sample.db in
   shares db' !! ("alice", "bob")
   = Some {| Shares.quantity := 5 + 20;
             Shares.average_price :=
               ((inject_Z 5 * (10 # 1) + inject_Z 20 * (12 # 1)) / inject_Z (5 + 20))%Q |})
  /\ (let (result, db') :=
        run (executeTradeTransactionImproved "alice" "bob" 2 (12 # 1) sell)
          no_faults 0 Sample.db in
      shares db' !! ("alice", "bob")
      = Some {| Shares.quantity := 5 - 2; Shares.average_price := 10 # 1 |})
  /\ (let (result, db') :=
        run (executeTradeTransactionImproved "alice" "bob" 5 (12 # 1) sell)
          no_faults 0 Sample.db in
      shares db' !! ("alice", "bob")
      = Some {| Shares.quantity := 5; Shares.average_price := 10 # 1 |}).
Proof.
  split; [|split].
  - pose proof (improved_position_law "alice" "bob" 20 (12 # 1) buy
                  Sample.db no_faults 5 (10 # 1) eq_refl) as H.
    destruct (run _ no_faults 0%nat Sample.db) as [result db'] eqn:E.
    destruct H as (stored & Hposition & _ & _ & Hexact); [|lia|lia|].
    { vm_compute in E. injection E as <- _. reflexivity. }
    rewrite Hposition, Hexact; reflexivity.
  - pose proof (improved_position_law "alice" "bob" 2 (12 # 1) sell
                  Sample.db no_faults 5 (10 # 1) eq_refl) as H.
    destruct (run _ no_faults 0%nat Sample.db) as [result db'] eqn:E.
    apply H; [|lia|reflexivity]. vm_compute in E. injection E as <- _. reflexivity.
  - pose proof (improved_position_law "alice" "bob" 5 (12 # 1) sell
                  Sample.db no_faults 5 (10 # 1) eq_refl) as H.
    destruct (run _ no_faults 0%nat Sample.db) as [result db'] eqn:E.
    apply H; [|reflexivity]. vm_compute in E. injection E as <- _. reflexivity.
Defined.

(** ** The sample database, for the witnesses below *)

Lemma sample_positions_nonneg : positions_nonneg Sample.db.
Proof.
  intros k pos Hk.
  destruct (decide (k = ("alice", "bob"))) as [->|Hne].
  - vm_compute in Hk. injection Hk as <-. cbn. lia.
  - unfold Sample.db in Hk. cbn [shares] in Hk.
    rewrite lookup_singleton_ne in Hk by congruence. discriminate.
Qed.

Lemma sample_conserved : conserved "bob" Sample.db.
Proof. exists Sample.bob. split; reflexivity. Qed.

Lemma improved_rejects_oversell_witness :
  let (result, db') :=
    run (executeTradeTransactionImproved "alice" "bob" 10 (10 # 1) sell)
      no_faults 0 Sample.db in
  success result = false /\ db' = Sample.db.
Proof.
  apply (improved_rejects_oversell "alice" "bob" 10 (10 # 1) Sample.db no_faults).
  intros pos Hpos. vm_compute in Hpos. injection Hpos as <-. cbn. lia.
Defined.

Lemma improved_rollback_witness :
  let improved := executeTradeTransactionImproved "alice" "bob" 20 (10 # 1) buy in
  let (result, db') := run improved (fail_at 5 no_rows) 0 Sample.db in
  (success result = true -> run improved no_faults 0 Sample.db = (result, db'))
  /\ (success result = false ->
      user_accounts db' = user_accounts Sample.db
      /\ profiles db' = profiles Sample.db
      /\ shares db' = shares Sample.db
      /\ ((exists msg, error result = Some msg /\ In msg improved_unwritten)
          /\ transactions db' = transactions Sample.db
          \/ exists txid,
               transactions db'
               = (transactions Sample.db
                  ++ [transaction_row txid "alice" "bob" 20 (10 # 1) buy])%list)).
Proof.
  apply (improved_rollback_restores_all_but_the_log "alice" "bob" 20 (10 # 1) buy
           Sample.db 5 no_rows).
  intros p Hp. vm_compute in Hp. injection Hp as <-. cbn. lia.
Defined.

Lemma improved_sequence_conserves_witness :
  let orders :=
    [ {| order_buyer := "alice"; order_quantity := 2; order_price := 12 # 1;
         order_type := sell; order_faults := no_faults |};
      {| order_buyer := "carol"; order_quantity := 20; order_price := 10 # 1;
         order_type := buy; order_faults := no_faults |} ] in
  Forall (fun outcome => conserved "bob" (snd outcome))
    (settle_sequence executeTradeTransactionImproved "bob" orders Sample.db).
Proof.
  cbv zeta. apply improved_sequence_conserves.
  - repeat constructor.
  - split.
    + intros _ pos Hpos. vm_compute in Hpos. injection Hpos as <-. cbn. lia.
    + split; [intros Hsell; discriminate Hsell | exact I].
  - split; [exact sample_conserved | exact sample_positions_nonneg].
  - cbn [settle_sequence]. repeat constructor; vm_compute; reflexivity.
Defined.

Lemma original_conserves_below_position_witness :
  conserved "bob"
    (snd (run (executeTradeTransaction "alice" "bob" 2 (12 # 1) sell)
            no_faults 0 Sample.db)).
Proof.
  refine (proj1 (original_conserves_below_position "bob" "alice" 2 (12 # 1) sell
                   Sample.db no_faults
                   (fst (run (executeTradeTransaction "alice" "bob" 2 (12 # 1) sell)
                           no_faults 0 Sample.db))
                   _ _ _ _ _ _)).
  - lia.
  - intros _ pos Hpos. vm_compute in Hpos. injection Hpos as <-. cbn. lia.
  - vm_compute. reflexivity.
  - vm_compute. reflexivity.
  - split; [exact sample_conserved | exact sample_positions_nonneg].
Defined.

Lemma original_keeps_positions_nonneg_witness :
  nonneg_rows
    (shares (snd (run (executeTradeTransaction "alice" "bob" 10 (10 # 1) sell)
                    no_faults 0 Sample.db))).
Proof.
  apply original_keeps_positions_nonneg.
  - lia.
  - exact sample_positions_nonneg.
Defined.

(** ** Repair, when the store fails and when it is run again *)

(** Whatever statements of [fixShareCountDiscrepancies] fail, it leaves
    accounts, positions and the log untouched, and every profile is
    either as it was or repaired: no counter is ever set to anything but
    the value expected from the log. *)
Theorem repair_under_failures_is_partial_at_worst (faults : Faults) (db : Database) :
  let db' := snd (run fixShareCountDiscrepancies faults 0 db) in
  user_accounts db' = user_accounts db
  /\ shares db' = shares db
  /\ transactions db' = transactions db
  /\ forall u,
       profiles db' !! u = profiles db !! u
       \/ profiles db' !! u = repaired (transactions db) u <$> profiles db !! u.
Proof.
  intros db'. subst db'.
  unfold fixShareCountDiscrepancies. cbn [run perform].
  destruct (faults 0%nat); [cbn; auto|].
  fold (tradeable_users db).
  assert (Hloop : forall (users : list (string * Profile.t)) (n : nat) (cur : Database),
             (forall u p, In (u, p) users ->
                profiles db !! u = Some p /\ Profile.is_tradeable p = true) ->
             user_accounts cur = user_accounts db
             /\ shares cur = shares db
             /\ transactions cur = transactions db
             /\ (forall u,
                   profiles cur !! u = profiles db !! u
                   \/ profiles cur !! u
                      = repaired (transactions db) u <$> profiles db !! u) ->
             let cur' := snd (run (fix_loop users) faults n cur) in
             user_accounts cur' = user_accounts db
             /\ shares cur' = shares db
             /\ transactions cur' = transactions db
             /\ (forall u,
                   profiles cur' !! u = profiles db !! u
                   \/ profiles cur' !! u
                      = repaired (transactions db) u <$> profiles db !! u)).
  { induction users as [|[u0 p0] rest IH]; intros n cur Husers Hcur;
      cbn [fix_loop run perform fst snd].
    - exact Hcur.
    - assert (Hrest : forall u p, In (u, p) rest ->
                 profiles db !! u = Some p /\ Profile.is_tradeable p = true).
      { intros u p Hin. apply Husers. right. exact Hin. }
      destruct (faults n); [apply IH; assumption|].
      destruct Hcur as (Ha & Hs & Ht & Hp).
      rewrite Ht, !sum_quantity_selected.
      destruct (negb _); [|apply IH; [assumption | repeat split; assumption]].
      cbn [run perform].
      destruct (faults (S n)); [apply IH; [assumption | repeat split; assumption]|].
      apply IH; [assumption|].
      cbn [user_accounts shares transactions profiles set_profiles].
      repeat split; try assumption.
      intros u. destruct (decide (u0 = u)) as [<-|Hne].
      + right. rewrite lookup_alter_eq.
        destruct (Husers u0 p0 (or_introl eq_refl)) as [Hu0 Htradeable].
        rewrite Hu0. cbn [fmap option_fmap option_map].
        unfold repaired. rewrite Htradeable.
        destruct (Hp u0) as [Hcur|Hcur]; rewrite Hcur, Hu0;
          cbn [fmap option_fmap option_map]; unfold repaired;
          rewrite ?Htradeable; reflexivity.
      + rewrite lookup_alter_ne by exact Hne. apply Hp. }
  apply Hloop.
  - intros u p Hin. apply tradeable_users_spec. exact Hin.
  - repeat split. intros u. left. reflexivity.
Qed.

Lemma fold_repair_noop (log : list Transaction.t) (users : list (string * Profile.t))
    (m : gmap string Profile.t) :
  (forall up, In up users ->
     Profile.available_shares (snd up) = expected_available (fst up) (snd up) log) ->
  fold_left (repair_row log) users m = m.
Proof.
  revert m. induction users as [|up rest IH]; intros m Hall; cbn [fold_left].
  - reflexivity.
  - unfold repair_row at 2.
    rewrite (Hall up (or_introl eq_refl)), Z.eqb_refl. cbn [negb].
    apply IH. intros up' Hin. apply Hall. right. exact Hin.
Qed.

(** Repair is idempotent: once it has run (every statement succeeding),
    running it again issues no write and returns the same database. *)
Theorem repair_twice_is_repair_once (db : Database) :
  let db1 := snd (run fixShareCountDiscrepancies no_faults 0 db) in
  run fixShareCountDiscrepancies no_faults 0 db1 = (tt, db1)
  /\ writes fixShareCountDiscrepancies no_faults 0 db1 = [].
Proof.
  intros db1.
  assert (Hsettled : forall up, In up (tradeable_users db1) ->
             Profile.available_shares (snd up)
             = expected_available (fst up) (snd up) (transactions db1)).
  { intros [u p'] Hin. cbn [fst snd].
    destruct (repaired_row_consistent db u p' Hin) as [_ Hd].
    fold db1 in Hd.
    destruct (audit_user_selected u p' (transactions db1)) as (_ & _ & Hd' & _).
    unfold report_for in Hd. cbn [fst snd] in Hd. rewrite Hd' in Hd. lia. }
  split.
  - rewrite repair_run, (fold_repair_noop _ _ _ Hsettled).
    destruct db1; reflexivity.
  - rewrite repair_writes. unfold drifted_users.
    induction (tradeable_users db1) as [|up rest IH]; cbn [List.filter List.map].
    + reflexivity.
    + rewrite (Hsettled up (or_introl eq_refl)), Z.eqb_refl. cbn [negb].
      apply IH. intros up' Hin. apply Hsettled. right. exact Hin.
Qed.

(** ** Positions and the log *)

Lemma traded_quantity_app (ty : TransactionType) (owner issuer : string)
    (log : list Transaction.t) (t : Transaction.t) :
  traded_quantity ty owner issuer (log ++ [t])
  = traded_quantity ty owner issuer log
    + (if String.eqb (Transaction.buyer_id t) owner
          && String.eqb (Transaction.tradeable_user_id t) issuer
          && TransactionType_eqb (Transaction.transaction_type t) ty
       then Transaction.quantity t else 0).
Proof.
  unfold traded_quantity.
  rewrite List.filter_app, List.map_app, foldr_add_app. cbn [List.filter].
  destruct (String.eqb (Transaction.buyer_id t) owner
            && String.eqb (Transaction.tradeable_user_id t) issuer
            && TransactionType_eqb (Transaction.transaction_type t) ty);
    cbn [List.map foldr]; lia.
Qed.

(** One settled order, seen from every position. *)
Lemma positions_match_log_step
    (db db' : Database) (txid : nat) (buyerId tradeableUserId : string)
    (quantity : Z) (pricePerShare : Q) (transactionType : TransactionType) :
  (forall k, k <> (buyerId, tradeableUserId) -> shares db' !! k = shares db !! k) ->
  holding buyerId tradeableUserId db'
  = holding buyerId tradeableUserId db
    + match transactionType with buy => quantity | sell => - quantity end ->
  transactions db'
  = (transactions db
     ++ [transaction_row txid buyerId tradeableUserId quantity pricePerShare
           transactionType])%list ->
  positions_match_log db -> positions_match_log db'.
Proof.
  intros Hframe Hown Hlog Hdb owner issuer.
  unfold net_bought. rewrite Hlog, !traded_quantity_app.
  cbn [transaction_row Transaction.buyer_id Transaction.tradeable_user_id
       Transaction.transaction_type Transaction.quantity].
  destruct (decide ((owner, issuer) = (buyerId, tradeableUserId))) as [[= -> ->]|Hne].
  - rewrite Hown, (Hdb buyerId tradeableUserId), !String.eqb_refl.
    unfold net_bought.
    destruct transactionType; cbn [TransactionType_eqb andb]; lia.
  - unfold holding. rewrite (Hframe _ Hne).
    fold (holding owner issuer db). rewrite (Hdb owner issuer). unfold net_bought.
    destruct (String.eqb_spec buyerId owner) as [->|Hb];
      destruct (String.eqb_spec tradeableUserId issuer) as [->|Ht];
      cbn [andb]; try lia.
    congruence.
Qed.

(** Closing a settled branch: the row of the order moved by the order's
    quantity, the other rows did not move, the log gained the order. *)
Ltac position_branch Hstep ty :=
  eapply (Hstep ty);
  [ intros k Hne;
    cbn [shares set_shares set_profiles set_user_accounts set_transactions];
    rewrite ?lookup_alter_ne, ?lookup_insert_ne by congruence;
    reflexivity
  | unfold holding;
    cbn [shares set_shares set_profiles set_user_accounts set_transactions];
    rewrite ?lookup_alter_eq, ?lookup_insert_eq;
    repeat known_row;
    cbn [fmap option_fmap option_map Shares.quantity]; lia
  | reflexivity ].

(** The [shares] table stays recoverable from the log: if every
    position equals what its owner has bought minus what they have sold
    according to the log (and no position is negative), this is still so
    after an order of positive quantity that either variant settles, a
    sell of all that the seller holds, or of more, apart: such a sell is
    logged while its DELETE leaves the row as it was. *)
Theorem settled_order_keeps_positions_and_log_agreeing
    (buyerId tradeableUserId : string) (quantity : Z) (pricePerShare : Q)
    (transactionType : TransactionType) (db : Database) (faults : Faults) :
  0 < quantity ->
  positions_nonneg db ->
  positions_match_log db ->
  (transactionType = sell ->
   forall pos, shares db !! (buyerId, tradeableUserId) = Some pos ->
               quantity < Shares.quantity pos) ->
  (let (result, db') :=
     run (executeTradeTransactionImproved buyerId tradeableUserId quantity
            pricePerShare transactionType) faults 0 db in
   success result = true -> positions_match_log db')
  /\ (let (result, db') :=
        run (executeTradeTransaction buyerId tradeableUserId quantity pricePerShare
               transactionType) faults 0 db in
      success result = true -> positions_match_log db').
Proof.
  intros Hq Hnonneg Hdb Hheld.
  assert (Hstep : forall (ty : TransactionType) (db' : Database),
             (forall k, k <> (buyerId, tradeableUserId) ->
                        shares db' !! k = shares db !! k) ->
             holding buyerId tradeableUserId db'
             = holding buyerId tradeableUserId db
               + match ty with buy => quantity | sell => - quantity end ->
             transactions db'
             = (transactions db
                ++ [transaction_row (fresh_id (transactions db)) buyerId
                      tradeableUserId quantity pricePerShare ty])%list ->
             positions_match_log db').
  { intros ty db' Hframe Hown Hlog.
    exact (positions_match_log_step db db' _ _ _ _ _ ty Hframe Hown Hlog Hdb). }
  split.
  - destruct (run _ faults 0%nat db) as [result db'] eqn:H.
    intros Hs. unfold executeTradeTransactionImproved in H.
    destruct transactionType;
      [ settled_cases H Hs; injection H as <- <-; simplify_eq; leb_facts;
        try (match goal with
             | E : shares db !! _ = Some _ |- _ => pose proof (Hnonneg _ _ E)
             end);
        try lia;
        position_branch Hstep buy
      | settled_cases H Hs; injection H as <- <-; simplify_eq; leb_facts;
        try (match goal with
             | E : shares db !! _ = Some _ |- _ =>
                 pose proof (Hnonneg _ _ E);
                 pose proof (Hheld eq_refl _ eq_refl)
             end);
        try lia;
        position_branch Hstep sell ].
  - destruct (run _ faults 0%nat db) as [result db'] eqn:H.
    intros Hs. unfold executeTradeTransaction in H.
    destruct transactionType;
      [ settled_cases H Hs; injection H as <- <-; simplify_eq; leb_facts;
        try (match goal with
             | E : shares db !! _ = Some _ |- _ => pose proof (Hnonneg _ _ E)
             end);
        try lia;
        position_branch Hstep buy
      | settled_cases H Hs; injection H as <- <-; simplify_eq; leb_facts;
        try (match goal with
             | E : shares db !! _ = Some _ |- _ =>
                 pose proof (Hnonneg _ _ E);
                 pose proof (Hheld eq_refl _ eq_refl)
             end);
        try lia;
        position_branch Hstep sell ].
Qed.

Lemma sample_positions_match_log : positions_match_log Sample.db.
Proof.
  intros owner issuer. unfold holding, net_bought, traded_quantity.
  cbn [Sample.db shares transactions List.filter
       Transaction.buyer_id Transaction.tradeable_user_id Transaction.transaction_type].
  destruct (decide (("alice", "bob") = (owner, issuer))) as [[= <- <-]|Hne].
  - reflexivity.
  - rewrite lookup_singleton_ne by exact Hne.
    destruct (String.eqb_spec "alice" owner) as [<-|Ho];
      destruct (String.eqb_spec "bob" issuer) as [<-|Hi];
      cbn [andb List.map foldr]; first [congruence | reflexivity].
Qed.

Lemma settled_order_keeps_positions_and_log_agreeing_witness :
  positions_match_log
    (snd (run (executeTradeTransactionImproved "carol" "bob" 20 (10 # 1) buy)
            no_faults 0 Sample.db))
  /\ positions_match_log
       (snd (run (executeTradeTransaction "alice" "bob" 2 (12 # 1) sell)
               no_faults 0 Sample.db)).
Proof.
  split.
  - assert (Hq : 0 < 20) by lia.
    assert (Hheld : buy = sell ->
              forall pos, shares Sample.db !! ("carol", "bob") = Some pos ->
                          20 < Shares.quantity pos).
    { intros Hsell. discriminate Hsell. }
    destruct (settled_order_keeps_positions_and_log_agreeing "carol" "bob" 20 (10 # 1)
                buy Sample.db no_faults Hq sample_positions_nonneg
                sample_positions_match_log Hheld) as [H _].
    destruct (run _ no_faults 0%nat Sample.db) as [result db'] eqn:E.
    apply H. vm_compute in E. injection E as <- _. reflexivity.
  - assert (Hq : 0 < 2) by lia.
    assert (Hheld : sell = sell ->
              forall pos, shares Sample.db !! ("alice", "bob") = Some pos ->
                          2 < Shares.quantity pos).
    { intros _ pos Hpos. vm_compute in Hpos. injection Hpos as <-. cbn. lia. }
    destruct (settled_order_keeps_positions_and_log_agreeing "alice" "bob" 2 (12 # 1)
                sell Sample.db no_faults Hq sample_positions_nonneg
                sample_positions_match_log Hheld) as [_ H].
    destruct (run _ no_faults 0%nat Sample.db) as [result db'] eqn:E.
    apply H. vm_compute in E. injection E as <- _. reflexivity.
Defined.

(** * The technical indicators *)

Lemma at_index_nat {A : Type} (arr : list A) (n : nat) :
  at_index arr (Z.of_nat n) = arr !! n.
Proof.
  unfold at_index. destruct (Z.ltb_spec (Z.of_nat n) 0) as [Hneg|_]; [lia|].
  rewrite Nat2Z.id. reflexivity.
Qed.

Lemma at_index_negative {A : Type} (arr : list A) (i : Z) :
  i < 0 -> at_index arr i = None.
Proof. intros Hi. unfold at_index. apply Z.ltb_lt in Hi. rewrite Hi. reflexivity. Qed.

Lemma at_index_beyond {A : Type} (arr : list A) (i : Z) :
  Z.of_nat (List.length arr) <= i -> at_index arr i = None.
Proof.
  intros Hi. unfold at_index. destruct (Z.ltb_spec i 0) as [_|Hpos]; [reflexivity|].
  apply lookup_ge_None. lia.
Qed.

(** A loop whose first turn throws, throws. *)
Lemma for_range_throws {S : Type} (from to : Z) (body : Z -> S -> option S) (s : S) :
  from < to -> body from s = None -> for_range from to body s = None.
Proof.
  intros Hlt Hbody. unfold for_range.
  destruct (Z.to_nat (to - from)) as [|count] eqn:Hcount; [lia|].
  cbn [for_loop]. rewrite Hbody. reflexivity.
Qed.

(** A loop that runs no turn returns its initial state. *)
Lemma for_range_empty {S : Type} (from to : Z) (body : Z -> S -> option S) (s : S) :
  to <= from -> for_range from to body s = Some s.
Proof.
  intros Hle. unfold for_range.
  replace (Z.to_nat (to - from)) with 0%nat by lia. reflexivity.
Qed.

Section Loops.

(** The array a loop walks, and the timestamps of its items. *)
Context {X : Type} (arr : list X) (time_of : X -> Z).

(** The loop state, the points it has pushed, and their timestamps. *)
Context {S A : Type} (pushed : S -> list A) (stamp : A -> Z).

(** A loop over [i] that reads [arr[i + shift]], and pushes one point
    carrying that item's timestamp in each turn, pushes the timestamps of
    the items it walked, in order. *)
Lemma for_loop_stamps (shift : Z) (body : Z -> S -> option S) :
  (forall i s x, at_index arr (i + shift) = Some x ->
     exists s' a, body i s = Some s'
       /\ pushed s' = (pushed s ++ [a])%list /\ stamp a = time_of x) ->
  forall (count : nat) (i : Z) (m : nat) (s : S),
  i + shift = Z.of_nat m ->
  (m + count <= List.length arr)%nat ->
  exists s' rest, for_loop count i body s = Some s'
    /\ pushed s' = (pushed s ++ rest)%list
    /\ stamp <$> rest = time_of <$> take count (drop m arr).
Proof.
  intros Hbody. induction count as [|count IH]; intros i m s Him Hm; cbn [for_loop].
  - exists s, []. split; [reflexivity|]. rewrite take_0, List.app_nil_r.
    split; reflexivity.
  - destruct (lookup_lt_is_Some_2 arr m) as [x Hx]; [lia|].
    destruct (Hbody i s x) as (s1 & a & Hs1 & Hpushed & Hstamp).
    { rewrite Him, at_index_nat. exact Hx. }
    rewrite Hs1.
    destruct (IH (i + 1) (Datatypes.S m) s1) as (s' & rest & Hs' & Hrest & Hstamps);
      [lia | lia |].
    exists s', (a :: rest). split; [exact Hs'|]. split.
    + rewrite Hrest, Hpushed, <- List.app_assoc. reflexivity.
    + rewrite (drop_S arr x m Hx). cbn [take fmap list_fmap].
      rewrite Hstamp. f_equal. exact Hstamps.
Qed.

(** A loop that pushes, in each turn, a point computed from the index
    and the item read pushes those points, in order. *)
Lemma for_loop_points (shift : Z) (point : Z -> X -> A) (body : Z -> S -> option S) :
  (forall i s x, at_index arr (i + shift) = Some x ->
     exists s', body i s = Some s' /\ pushed s' = (pushed s ++ [point i x])%list) ->
  forall (count : nat) (i : Z) (m : nat) (s : S),
  i + shift = Z.of_nat m ->
  (m + count <= List.length arr)%nat ->
  exists s', for_loop count i body s = Some s'
    /\ pushed s'
       = (pushed s
          ++ imap (fun j x => point (i + Z.of_nat j) x) (take count (drop m arr)))%list.
Proof.
  intros Hbody. induction count as [|count IH]; intros i m s Him Hm; cbn [for_loop].
  - exists s. split; [reflexivity|]. rewrite take_0. cbn [imap].
    rewrite List.app_nil_r. reflexivity.
  - destruct (lookup_lt_is_Some_2 arr m) as [x Hx]; [lia|].
    destruct (Hbody i s x) as (s1 & Hs1 & Hpushed).
    { rewrite Him, at_index_nat. exact Hx. }
    rewrite Hs1.
    destruct (IH (i + 1) (Datatypes.S m) s1) as (s' & Hs' & Hpoints); [lia | lia |].
    exists s'. split; [exact Hs'|].
    rewrite Hpoints, Hpushed, <- List.app_assoc.
    rewrite (drop_S arr x m Hx). cbn [take imap app].
    rewrite Z.add_0_r. do 2 f_equal.
    apply imap_ext. intros j y _. cbn. f_equal. lia.
Qed.

End Loops.

Lemma js_slice_inside {A : Type} (arr : list A) (start stop : Z) :
  0 <= start <= stop -> stop <= Z.of_nat (List.length arr) ->
  js_slice arr start stop = take (Z.to_nat (stop - start)) (drop (Z.to_nat start) arr).
Proof.
  intros Hstart Hstop. unfold js_slice.
  destruct (Z.ltb_spec start 0) as [Hneg|_]; [lia|].
  destruct (Z.ltb_spec stop 0) as [Hneg|_]; [lia|].
  rewrite !Z.min_l by lia. reflexivity.
Qed.

(** ** calculateSMA *)

(** The points of [calculateSMA]. *)
Lemma sma_points (data : list Candle.t) (period : Z) :
  let P := Z.to_nat period in
  (period <= 0 -> calculateSMA data period = None)
  /\ (1 <= period ->
      exists out,
        calculateSMA data period = Some out
        /\ List.length out = (List.length data - (P - 1))%nat
        /\ forall (j : nat) (item : Candle.t),
             data !! (j + (P - 1))%nat = Some item ->
             out !! j
             = Some {| indicator_time := Candle.time item;
                       indicator_value :=
                         (sum_close (take P (drop j data)) / inject_Z period)%Q |}).
Proof.
  intros P. split.
  - intros Hperiod. unfold calculateSMA.
    apply for_range_throws; [lia|].
    rewrite at_index_negative by lia. reflexivity.
  - intros Hperiod. unfold calculateSMA, for_range.
    set (body := fun (i : Z) (smaData : list IndicatorData) => _).
    set (point := fun (i : Z) (item : Candle.t) =>
           {| indicator_time := Candle.time item;
              indicator_value :=
                (sum_close (js_slice data (i - period + 1) (i + 1)) / inject_Z period)%Q |}).
    destruct (Nat.le_gt_cases (List.length data) (P - 1)) as [Hshort|Hlong].
    + (* fewer items than the period: the loop does not run *)
      replace (Z.to_nat (Z.of_nat (List.length data) - (period - 1))) with 0%nat by lia.
      cbn [for_loop]. exists []. split; [reflexivity|]. split; [cbn; lia|].
      intros j item Hitem. apply lookup_lt_Some in Hitem. lia.
    + destruct (for_loop_points data (fun s : list IndicatorData => s) 0 point body)
        with (count := (List.length data - (P - 1))%nat) (i := period - 1)
             (m := (P - 1)%nat) (s := @nil IndicatorData)
        as (out & Hout & Hpoints).
      { intros i s x Hx. rewrite Z.add_0_r in Hx. subst body. cbn beta.
        rewrite Hx. eexists. split; reflexivity. }
      { lia. }
      { lia. }
      replace (Z.to_nat (Z.of_nat (List.length data) - (period - 1)))
        with (List.length data - (P - 1))%nat by lia.
      exists out. split; [exact Hout|].
      cbn [app] in Hpoints. rewrite Hpoints.
      rewrite take_ge by (rewrite length_drop; lia).
      split; [rewrite length_imap, length_drop; reflexivity|].
      intros j item Hitem.
      rewrite list_lookup_imap, lookup_drop.
      replace (P - 1 + j)%nat with (j + (P - 1))%nat by lia.
      rewrite Hitem. cbn [fmap option_fmap option_map]. subst point. cbn beta.
      do 3 f_equal.
      apply lookup_lt_Some in Hitem.
      rewrite js_slice_inside by lia.
      f_equal. f_equal; [lia | f_equal; lia].
Qed.

(** [calculateSMA] throws for every period below 1, whatever the data.
    For a period of at least 1 it returns one point for each item from
    index [period - 1] on (none when the data is shorter than the
    period): the point at position [j] carries the time of item
    [j + period - 1] and the mean of the [period] closes that end
    there. *)
Theorem calculateSMA_shape (data : list Candle.t) (period : Z) :
  let P := Z.to_nat period in
  (period <= 0 -> calculateSMA data period = None)
  /\ (1 <= period ->
      exists out,
        calculateSMA data period = Some out
        /\ List.length out = (List.length data - (P - 1))%nat
        /\ forall (j : nat) (item : Candle.t),
             data !! (j + (P - 1))%nat = Some item ->
             out !! j
             = Some {| indicator_time := Candle.time item;
                       indicator_value :=
                         (sum_close (take P (drop j data)) / inject_Z period)%Q |}).
Proof. exact (sma_points data period). Qed.

Lemma calculateSMA_shape_witness :
  let data :=
    [ Candle.mk 10 (1 # 1) (1 # 1) (1 # 1) (1 # 1);
      Candle.mk 20 (1 # 1) (1 # 1) (1 # 1) (2 # 1);
      Candle.mk 30 (1 # 1) (1 # 1) (1 # 1) (6 # 1) ] in
  calculateSMA data 0 = None
  /\ exists out,
       calculateSMA data 2 = Some out
       /\ List.length out = 2%nat
       /\ out !! 1%nat
          = Some {| indicator_time := 30;
                    indicator_value :=
                      (sum_close (take 2 (drop 1 data)) / inject_Z 2)%Q |}.
Proof.
  cbv zeta. split.
  - apply (calculateSMA_shape _ 0). lia.
  - destruct (proj2 (calculateSMA_shape
                       [ Candle.mk 10 (1 # 1) (1 # 1) (1 # 1) (1 # 1);
                         Candle.mk 20 (1 # 1) (1 # 1) (1 # 1) (2 # 1);
                         Candle.mk 30 (1 # 1) (1 # 1) (1 # 1) (6 # 1) ] 2))
      as (out & Hout & Hlen & Hpoints); [lia|].
    exists out. split; [exact Hout|]. split; [exact Hlen|].
    apply (Hpoints 1%nat (Candle.mk 30 (1 # 1) (1 # 1) (1 # 1) (6 # 1))).
    reflexivity.
Defined.

(** ** calculateEMA *)

(** The points of [calculateEMA]. *)
Lemma ema_points (data : list Candle.t) (period : Z) :
  let P := Z.to_nat period in
  calculateEMA [] period = Some []
  /\ (data <> [] ->
      period <= 0 \/ Z.of_nat (List.length data) < period ->
      calculateEMA data period = None)
  /\ (1 <= period <= Z.of_nat (List.length data) ->
      exists out sma,
        calculateEMA data period = Some out
        /\ indicator_time <$> out = Candle.time <$> drop (P - 1) data
        /\ calculateSMA data period = Some sma
        /\ is_Some (out !! 0%nat)
        /\ out !! 0%nat = sma !! 0%nat).
Proof.
  intros P. split; [reflexivity|]. split.
  - intros Hdata Hperiod. unfold calculateEMA.
    destruct data as [|first rest]; [congruence|]. cbn [List.length Nat.eqb].
    assert (Hnone : at_index (first :: rest) (period - 1) = None).
    { destruct Hperiod as [Hlow|Hhigh].
      - apply at_index_negative. lia.
      - apply at_index_beyond. lia. }
    rewrite Hnone. reflexivity.
  - intros Hperiod. unfold calculateEMA.
    destruct (List.length data =? 0)%nat eqn:Hempty;
      [apply Nat.eqb_eq in Hempty; lia|].
    destruct (lookup_lt_is_Some_2 data (P - 1)) as [first Hfirst]; [lia|].
    assert (Hat : at_index data (period - 1) = Some first).
    { replace (period - 1) with (Z.of_nat (P - 1)) by lia.
      rewrite at_index_nat. exact Hfirst. }
    rewrite Hat.
    set (body := fun (i : Z) (state : Q * list IndicatorData) => _).
    set (seed := (sum_close (js_slice data 0 period) / inject_Z period)%Q).
    destruct (for_loop_stamps data Candle.time
                (snd : Q * list IndicatorData -> list IndicatorData)
                indicator_time 0 body)
      with (count := (List.length data - P)%nat) (i := period) (m := P)
           (s := (seed, [ {| indicator_time := Candle.time first;
                             indicator_value := seed |} ]))
      as (s' & rest & Hs' & Hpushed & Hstamps).
    { intros i [ema emaData] x Hx. rewrite Z.add_0_r in Hx. subst body. cbn beta iota.
      rewrite Hx. eexists _, _. split; [reflexivity|]. split; reflexivity. }
    { lia. }
    { lia. }
    unfold for_range.
    replace (Z.to_nat (Z.of_nat (List.length data) - period))
      with (List.length data - P)%nat by lia.
    rewrite Hs'. cbn [option_map snd] in *.
    destruct (proj2 (sma_points data period)) as (sma & Hsma & _ & Hpoints);
      [lia|].
    exists (snd s'), sma. split; [reflexivity|]. rewrite Hpushed. split; [|split; [|split]].
    + cbn [app fmap list_fmap]. fold (fmap indicator_time rest). rewrite Hstamps.
      rewrite take_ge by (rewrite length_drop; lia).
      replace P with (Datatypes.S (P - 1)) at 1 by lia.
      rewrite (drop_S data first (P - 1) Hfirst). reflexivity.
    + exact Hsma.
    + eexists. reflexivity.
    + cbn [app lookup list_lookup].
      rewrite (Hpoints 0%nat first) by exact Hfirst.
      subst seed. rewrite js_slice_inside by lia.
      rewrite Z.sub_0_r. reflexivity.
Qed.

(** [calculateEMA] returns no point for empty data.  For data that is
    not empty it throws when the period is below 1 or exceeds the number
    of items (where [calculateSMA] returns an empty series).  Otherwise
    it returns one point for each item from index [period - 1] on, with
    that item's time, and its first point is the first point of
    [calculateSMA]: the mean of the first [period] closes. *)
Theorem calculateEMA_shape (data : list Candle.t) (period : Z) :
  let P := Z.to_nat period in
  calculateEMA [] period = Some []
  /\ (data <> [] ->
      period <= 0 \/ Z.of_nat (List.length data) < period ->
      calculateEMA data period = None)
  /\ (1 <= period <= Z.of_nat (List.length data) ->
      exists out sma,
        calculateEMA data period = Some out
        /\ indicator_time <$> out = Candle.time <$> drop (P - 1) data
        /\ calculateSMA data period = Some sma
        /\ is_Some (out !! 0%nat)
        /\ out !! 0%nat = sma !! 0%nat).
Proof. exact (ema_points data period). Qed.


Lemma calculateEMA_shape_witness :
  let data :=
    [ Candle.mk 10 (1 # 1) (1 # 1) (1 # 1) (1 # 1);
      Candle.mk 20 (1 # 1) (1 # 1) (1 # 1) (2 # 1);
      Candle.mk 30 (1 # 1) (1 # 1) (1 # 1) (6 # 1) ] in
  calculateEMA data 5 = None
  /\ exists out sma,
       calculateEMA data 2 = Some out
       /\ indicator_time <$> out = [20; 30]
       /\ calculateSMA data 2 = Some sma
       /\ is_Some (out !! 0%nat)
       /\ out !! 0%nat = sma !! 0%nat.
Proof.
  cbv zeta. split.
  - apply (calculateEMA_shape _ 5); [discriminate | right; cbn; lia].
  - apply (calculateEMA_shape
             [ Candle.mk 10 (1 # 1) (1 # 1) (1 # 1) (1 # 1);
               Candle.mk 20 (1 # 1) (1 # 1) (1 # 1) (2 # 1);
               Candle.mk 30 (1 # 1) (1 # 1) (1 # 1) (6 # 1) ] 2).
    cbn. lia.
Defined.

Lemma ema_length (data : list Candle.t) (period : Z) (out : list IndicatorData) :
  indicator_time <$> out = Candle.time <$> drop (Z.to_nat period - 1) data ->
  List.length out = (List.length data - (Z.to_nat period - 1))%nat.
Proof.
  intros H. apply (f_equal (@List.length Z)) in H.
  rewrite !length_fmap, length_drop in H. exact H.
Qed.

(** ** calculateMACD *)

(** For periods [1 <= fast <= slow] and [1 <= signal], and [n] items of
    data, let [M = n - 2*slow + fast + 1] (the length of the MACD line).
    [calculateMACD] returns no point for empty data, throws for
    [0 < n < slow], returns no point when [slow <= n] and [M <= 0], throws
    again for [0 < M < signal], and otherwise returns one point for each
    item from index [2*slow - fast + signal - 2] on, with that item's
    time.  With the default periods 12, 26 and 9: no point up to 39 items
    except an exception from 1 to 25, an exception from 40 to 47 items,
    and [n - 47] points from 48 items on. *)
Theorem calculateMACD_shape
    (data : list Candle.t) (fastPeriod slowPeriod signalPeriod : Z) :
  1 <= fastPeriod <= slowPeriod ->
  1 <= signalPeriod ->
  let n := Z.of_nat (List.length data) in
  let M := n - 2 * slowPeriod + fastPeriod + 1 in
  (data = [] -> calculateMACD data fastPeriod slowPeriod signalPeriod = Some [])
  /\ (0 < n < slowPeriod ->
      calculateMACD data fastPeriod slowPeriod signalPeriod = None)
  /\ (slowPeriod <= n -> M <= 0 ->
      calculateMACD data fastPeriod slowPeriod signalPeriod = Some [])
  /\ (0 < M < signalPeriod ->
      calculateMACD data fastPeriod slowPeriod signalPeriod = None)
  /\ (signalPeriod <= M ->
      exists out,
        calculateMACD data fastPeriod slowPeriod signalPeriod = Some out
        /\ macd_time <$> out
           = Candle.time
             <$> drop (Z.to_nat (2 * slowPeriod - fastPeriod + signalPeriod - 2)) data).
Proof.
  intros Hfast Hsignal n M.
  split; [intros ->; reflexivity|].
  split.
  { intros Hn. unfold calculateMACD.
    assert (Hdata : data <> []) by (intros ->; cbn in n; lia).
    destruct (Z.lt_ge_cases n fastPeriod) as [Hshort|Hlong].
    - rewrite (proj1 (proj2 (ema_points data fastPeriod)) Hdata) by (right; exact Hshort).
      reflexivity.
    - destruct (proj2 (proj2 (ema_points data fastPeriod))) as (fe & _ & -> & _); [lia|].
      rewrite (proj1 (proj2 (ema_points data slowPeriod)) Hdata) by (right; lia).
      reflexivity. }
  (* from here on the data holds at least [slowPeriod] items *)
  assert (Hlong : slowPeriod <= n ->
            exists macdLine,
              calculateMACD data fastPeriod slowPeriod signalPeriod
              = match
                  calculateEMA
                    (List.map (fun item =>
                                 {| Candle.time := indicator_time item;
                                    Candle.close := indicator_value item;
                                    Candle.open := indicator_value item;
                                    Candle.high := indicator_value item;
                                    Candle.low := indicator_value item |}) macdLine)
                    signalPeriod
                with
                | None => None
                | Some signalLine =>
                    for_range 0
                      (Z.min (Z.of_nat (List.length macdLine))
                         (Z.of_nat (List.length signalLine)))
                      (fun i (macdData : list MACDData) =>
                         let macdValue :=
                           value_or_zero
                             (at_index macdLine
                                (i + (Z.of_nat (List.length macdLine)
                                      - Z.of_nat (List.length signalLine)))) in
                         let signalValue := value_or_zero (at_index signalLine i) in
                         match at_index signalLine i with
                         | None => None
                         | Some point =>
                             Some (macdData ++ [ {| macd_time := indicator_time point;
                                                    macd := macdValue;
                                                    signal := signalValue;
                                                    histogram := (macdValue - signalValue)%Q |} ])%list
                         end)
                      []
                end
              /\ indicator_time <$> macdLine
                 = Candle.time
                   <$> drop (Z.to_nat (2 * slowPeriod - fastPeriod - 1)) data).
  { intros Hn. unfold calculateMACD.
    destruct (proj2 (proj2 (ema_points data fastPeriod))) as (fe & _ & -> & Hfe & _); [lia|].
    destruct (proj2 (proj2 (ema_points data slowPeriod))) as (se & _ & -> & Hse & _); [lia|].
    apply ema_length in Hfe, Hse.
    unfold for_range at 1.
    set (body := fun (i : Z) (macdLine : list IndicatorData) => _).
    destruct (Z.le_gt_cases M 0) as [HM|HM].
    { (* the loop does not run *)
      replace (Z.to_nat _) with 0%nat by (unfold M, n in *; lia).
      cbn [for_loop]. exists []. split; [reflexivity|].
      rewrite drop_ge by (unfold M, n in *; lia). reflexivity. }
    destruct (for_loop_stamps data Candle.time (fun s : list IndicatorData => s)
                indicator_time (slowPeriod - 1) body)
      with (count := Z.to_nat (Z.min (Z.of_nat (List.length fe)) (Z.of_nat (List.length se))
                               - (Z.max (Z.of_nat (List.length fe)) (Z.of_nat (List.length se))
                                  - Z.min (Z.of_nat (List.length fe)) (Z.of_nat (List.length se)))))
           (i := Z.max (Z.of_nat (List.length fe)) (Z.of_nat (List.length se))
                 - Z.min (Z.of_nat (List.length fe)) (Z.of_nat (List.length se)))
           (m := Z.to_nat (2 * slowPeriod - fastPeriod - 1))
           (s := @nil IndicatorData)
      as (macdLine & rest & Hloop & Hpushed & Hstamps).
    { intros i s x Hx. subst body. cbn beta.
      replace (i + slowPeriod - 1) with (i + (slowPeriod - 1)) by lia. rewrite Hx.
      eexists _, _. split; [reflexivity|]. split; reflexivity. }
    { unfold M, n in *. lia. }
    { unfold M, n in *. lia. }
    rewrite Hloop. exists macdLine. split; [reflexivity|].
    cbn [app] in Hpushed. subst rest. rewrite Hstamps.
    rewrite take_ge by (rewrite length_drop; unfold M, n in *; lia). reflexivity. }
  split.
  { intros Hn HM. destruct (Hlong Hn) as (macdLine & -> & Hstamps).
    assert (HmacdLine : macdLine = []).
    { apply (f_equal (@List.length Z)) in Hstamps.
      rewrite !length_fmap, length_drop in Hstamps.
      destruct macdLine; [reflexivity|]. cbn [List.length] in Hstamps. unfold M, n in *; lia. }
    subst macdLine. reflexivity. }
  assert (Hlen : slowPeriod <= n -> forall macdLine,
            indicator_time <$> macdLine
            = Candle.time <$> drop (Z.to_nat (2 * slowPeriod - fastPeriod - 1)) data ->
            Z.of_nat (List.length macdLine) = Z.max M 0).
  { intros Hn macdLine Hstamps.
    apply (f_equal (@List.length Z)) in Hstamps.
    rewrite !length_fmap, length_drop in Hstamps. unfold M, n in *; lia. }
  split.
  { intros HM. assert (Hn : slowPeriod <= n) by (unfold M, n in *; lia).
    destruct (Hlong Hn) as (macdLine & -> & Hstamps).
    pose proof (Hlen Hn macdLine Hstamps) as HlenM.
    rewrite (proj1 (proj2 (ema_points _ signalPeriod))); [reflexivity | |].
    - destruct macdLine; [cbn [List.length] in HlenM; lia | discriminate].
    - right. rewrite List.length_map. lia. }
  { intros HM. assert (Hn : slowPeriod <= n) by (unfold M, n in *; lia).
    destruct (Hlong Hn) as (macdLine & -> & Hstamps).
    pose proof (Hlen Hn macdLine Hstamps) as HlenM.
    destruct (proj2 (proj2 (ema_points
                (List.map (fun item =>
                             {| Candle.time := indicator_time item;
                                Candle.close := indicator_value item;
                                Candle.open := indicator_value item;
                                Candle.high := indicator_value item;
                                Candle.low := indicator_value item |}) macdLine)
                signalPeriod)))
      as (sl & _ & -> & Hsl & _); [rewrite List.length_map; lia|].
    pose proof (ema_length _ _ _ Hsl) as Hsllen. rewrite List.length_map in Hsllen.
    unfold for_range.
    set (body := fun (i : Z) (macdData : list MACDData) => _).
    destruct (for_loop_stamps sl indicator_time (fun s : list MACDData => s)
                macd_time 0 body)
      with (count := Z.to_nat (Z.min (Z.of_nat (List.length macdLine))
                                 (Z.of_nat (List.length sl)) - 0))
           (i := 0) (m := 0%nat) (s := @nil MACDData)
      as (out & rest & Hloop & Hpushed & Hout).
    { intros i s x Hx. rewrite Z.add_0_r in Hx. subst body. cbn beta. rewrite Hx.
      eexists _, _. split; [reflexivity|]. split; reflexivity. }
    { reflexivity. }
    { lia. }
    rewrite Hloop. exists out. split; [reflexivity|].
    cbn [app] in Hpushed. subst rest. rewrite Hout.
    rewrite drop_0, take_ge by lia.
    rewrite Hsl, fmap_drop.
    assert (Htimes : forall l : list IndicatorData,
              Candle.time
              <$> List.map (fun item =>
                              {| Candle.time := indicator_time item;
                                 Candle.close := indicator_value item;
                                 Candle.open := indicator_value item;
                                 Candle.high := indicator_value item;
                                 Candle.low := indicator_value item |}) l
              = indicator_time <$> l).
    { induction l as [|x l IH]; [reflexivity|]. cbn. f_equal. exact IH. }
    rewrite Htimes, Hstamps, <- fmap_drop, drop_drop.
    do 2 f_equal. lia. }
Qed.

Lemma calculateMACD_shape_witness :
  calculateMACD (sample_candles 10) 12 26 9 = None
  /\ calculateMACD (sample_candles 30) 12 26 9 = Some []
  /\ calculateMACD (sample_candles 44) 12 26 9 = None
  /\ exists out,
       calculateMACD (sample_candles 50) 12 26 9 = Some out
       /\ macd_time <$> out = Candle.time <$> drop 47 (sample_candles 50).
Proof.
  assert (Hperiods : 1 <= 12 <= 26) by lia.
  assert (Hsignal : 1 <= 9) by lia.
  split; [|split; [|split]].
  - destruct (calculateMACD_shape (sample_candles 10) 12 26 9 Hperiods Hsignal)
      as (_ & Hthrows & _).
    apply Hthrows.
    replace (Z.of_nat (List.length (sample_candles 10))) with 10 by reflexivity. lia.
  - destruct (calculateMACD_shape (sample_candles 30) 12 26 9 Hperiods Hsignal)
      as (_ & _ & Hnone & _).
    apply Hnone;
      replace (Z.of_nat (List.length (sample_candles 30))) with 30 by reflexivity; lia.
  - destruct (calculateMACD_shape (sample_candles 44) 12 26 9 Hperiods Hsignal)
      as (_ & _ & _ & Hthrows & _).
    apply Hthrows.
    replace (Z.of_nat (List.length (sample_candles 44))) with 44 by reflexivity. lia.
  - destruct (calculateMACD_shape (sample_candles 50) 12 26 9 Hperiods Hsignal)
      as (_ & _ & _ & _ & Hpoints).
    apply Hpoints.
    replace (Z.of_nat (List.length (sample_candles 50))) with 50 by reflexivity. lia.
Defined.

(** * The chart aggregation *)

Section ChartProperties.

(** The offset of local time from UTC, in minutes. *)
Variable zone : Z.

Lemma interval_ms_pos (interval : TimeInterval) : 0 < interval_ms interval.
Proof. destruct interval; cbn; lia. Qed.

(** Every interval start is a floor, in local time, to the length of
    the interval. *)
Lemma getTimeIntervalStart_floor (date : Z) (interval : TimeInterval) :
  getTimeIntervalStart zone date interval
  = from_local zone (local zone date / interval_ms interval * interval_ms interval).
Proof.
  unfold getTimeIntervalStart, startOfMinute, startOfHour, startOfDay, setMinutes,
    getMinutes, from_local.
  generalize (local zone date). intros l.
  destruct interval; cbn [interval_ms]; try reflexivity.
  - f_equal. Z.div_mod_to_equations. lia.
  - f_equal. Z.div_mod_to_equations. lia.
Qed.

(** ** getTimeIntervalStart *)

(** The start of the interval of a date is never after the date and
    less than one interval before it, it falls on a multiple of the
    interval's length in local time, and it is its own interval start. *)
Theorem interval_start_is_a_floor (date : Z) (interval : TimeInterval) :
  let start := getTimeIntervalStart zone date interval in
  start <= date < start + interval_ms interval
  /\ local zone start mod interval_ms interval = 0
  /\ getTimeIntervalStart zone start interval = start.
Proof.
  intros start. subst start.
  rewrite !getTimeIntervalStart_floor.
  pose proof (interval_ms_pos interval) as Hpos.
  unfold from_local, local.
  set (L := interval_ms interval) in *.
  set (l := date + zone * 60000).
  replace (l / L * L - zone * 60000 + zone * 60000) with (l / L * L) by lia.
  rewrite Z.mod_mul by lia. rewrite Z.div_mul by lia.
  split; [|split; reflexivity].
  pose proof (Z.mul_div_le l L Hpos).
  pose proof (Z.mul_succ_div_gt l L Hpos).
  subst l. lia.
Qed.

(** In a zone whose offset is a multiple of 15 minutes, the starts of the
    1, 5 and 15 minute intervals do not depend on the zone. *)
Theorem minute_interval_starts_ignore_the_zone (date : Z) (interval : TimeInterval) :
  zone mod 15 = 0 ->
  interval = interval_1min \/ interval = interval_5min \/ interval = interval_15min ->
  getTimeIntervalStart zone date interval
  = date / interval_ms interval * interval_ms interval.
Proof.
  intros Hzone Hinterval.
  rewrite getTimeIntervalStart_floor. unfold from_local, local.
  destruct Hinterval as [-> | [-> | ->]]; cbn [interval_ms];
    Z.div_mod_to_equations; lia.
Qed.

(** ** generateTimeRange *)

Lemma advance_adds (current : Z) (interval : TimeInterval) :
  advance current interval = current + interval_ms interval.
Proof. destruct interval; reflexivity. Qed.

Lemma time_range_loop_closed (interval : TimeInterval) (endDate : Z) (fuel : nat) :
  forall (current : Z) (timePoints : list Z),
    (turns current endDate interval <= fuel)%nat ->
    time_range_loop fuel current endDate interval timePoints
    = (timePoints
       ++ ((fun k => current + Z.of_nat k * interval_ms interval)
             <$> seq 0 (turns current endDate interval)))%list.
Proof.
  pose proof (interval_ms_pos interval) as Hpos.
  unfold turns.
  induction fuel as [|fuel IH]; intros current timePoints Hfuel.
  - assert (Z.to_nat ((endDate - current) / interval_ms interval + 1) = 0%nat) as ->
      by lia.
    cbn. now rewrite app_nil_r.
  - cbn [time_range_loop].
    destruct (Z.leb_spec current endDate) as [Hle | Hgt].
    + rewrite advance_adds.
      assert ((endDate - current) / interval_ms interval + 1
              = ((endDate - (current + interval_ms interval)) / interval_ms interval + 1) + 1)
        as Hturn.
      { replace (endDate - current)
          with ((endDate - (current + interval_ms interval)) + 1 * interval_ms interval)
          by lia.
        rewrite Z.div_add by lia. lia. }
      assert (0 <= (endDate - (current + interval_ms interval)) / interval_ms interval + 1)
        as Hnonneg.
      { assert (- 1 <= (endDate - (current + interval_ms interval)) / interval_ms interval);
          [|lia].
        apply Z.div_le_lower_bound; lia. }
      rewrite Hturn in Hfuel |- *.
      rewrite Z2Nat.inj_add in Hfuel |- * by lia.
      change (Z.to_nat 1) with 1%nat in *.
      rewrite Nat.add_1_r in Hfuel |- *.
      rewrite IH by lia.
      rewrite <- app_assoc. f_equal.
      cbn [seq fmap list_fmap app]. rewrite <- fmap_S_seq, <- list_fmap_compose.
      f_equal; [lia|].
      apply list_fmap_ext. intros _ k _. cbn. lia.
    + assert ((endDate - current) / interval_ms interval + 1 <= 0) as Hzero.
      { assert ((endDate - current) / interval_ms interval < 0); [|lia].
        apply Z.div_lt_upper_bound; lia. }
      replace (Z.to_nat ((endDate - current) / interval_ms interval + 1)) with 0%nat by lia.
      cbn. now rewrite app_nil_r.
Qed.

(** With the turns [generateTimeRange] gives it, or any more, the loop
    reaches its exit. *)
Lemma time_range_loop_exits (interval : TimeInterval) (current endDate : Z)
    (timePoints : list Z) (more : nat) :
  time_range_loop (turns current endDate interval + more) current endDate interval
    timePoints
  = time_range_loop (turns current endDate interval) current endDate interval timePoints.
Proof. rewrite !time_range_loop_closed by lia. reflexivity. Qed.

Lemma generateTimeRange_closed (startDate endDate : Z) (interval : TimeInterval) :
  generateTimeRange zone startDate endDate interval
  = (fun k => getTimeIntervalStart zone startDate interval
              + Z.of_nat k * interval_ms interval)
      <$> seq 0 (turns (getTimeIntervalStart zone startDate interval) endDate interval).
Proof.
  unfold generateTimeRange.
  rewrite time_range_loop_closed by lia. reflexivity.
Qed.

Lemma generateTimeRange_elem (startDate endDate : Z) (interval : TimeInterval) (t : Z) :
  t ∈ generateTimeRange zone startDate endDate interval
  <-> getTimeIntervalStart zone startDate interval <= t <= endDate
      /\ (t - getTimeIntervalStart zone startDate interval) mod interval_ms interval = 0.
Proof.
  pose proof (interval_ms_pos interval) as Hpos.
  rewrite generateTimeRange_closed. unfold turns.
  set (c := getTimeIntervalStart zone startDate interval).
  set (L := interval_ms interval) in *.
  rewrite list_elem_of_fmap. split.
  - intros (k & -> & Hk). apply elem_of_seq in Hk.
    assert (Z.of_nat k < (endDate - c) / L + 1) as Hlt by lia.
    assert (Z.of_nat k * L <= endDate - c).
    { etransitivity; [|apply (Z.mul_div_le (endDate - c) L Hpos)].
      rewrite (Z.mul_comm L). apply Z.mul_le_mono_nonneg_r; lia. }
    split; [lia|].
    replace (c + Z.of_nat k * L - c) with (Z.of_nat k * L) by lia.
    apply Z.mod_mul. lia.
  - intros [[Hlo Hhi] Hmod].
    exists (Z.to_nat ((t - c) / L)).
    assert (0 <= (t - c) / L) by (apply Z.div_pos; lia).
    split.
    + rewrite Z2Nat.id by lia.
      pose proof (Z.div_mod (t - c) L ltac:(lia)) as Hdm. rewrite Hmod in Hdm. lia.
    + apply elem_of_seq.
      assert ((t - c) / L <= (endDate - c) / L) by (apply Z.div_le_mono; lia).
      lia.
Qed.

Lemma generateTimeRange_NoDup (startDate endDate : Z) (interval : TimeInterval) :
  NoDup (generateTimeRange zone startDate endDate interval).
Proof.
  pose proof (interval_ms_pos interval) as Hpos.
  rewrite generateTimeRange_closed.
  apply NoDup_fmap_2; [|apply NoDup_seq].
  intros j k Hjk. nia.
Qed.

(** The time points are, in increasing order and each once, the instants
    from the interval start of [startDate] up to [endDate] that are a
    whole number of intervals after it; the loop has reached its exit by
    the turns it is given. *)
Theorem time_range_is_the_grid (startDate endDate : Z) (interval : TimeInterval) :
  let start := getTimeIntervalStart zone startDate interval in
  let timePoints := generateTimeRange zone startDate endDate interval in
  (forall t, t ∈ timePoints
             <-> start <= t <= endDate /\ (t - start) mod interval_ms interval = 0)
  /\ (forall i t, timePoints !! i = Some t -> t = start + Z.of_nat i * interval_ms interval)
  /\ NoDup timePoints
  /\ (forall more,
        time_range_loop (turns start endDate interval + more) start endDate interval []
        = timePoints).
Proof.
  cbn zeta. split; [|split; [|split]].
  - intros t. apply generateTimeRange_elem.
  - intros i t. rewrite generateTimeRange_closed, list_lookup_fmap.
    intros Hi. apply fmap_Some in Hi as (k & Hk & ->).
    apply lookup_seq in Hk as [-> _]. reflexivity.
  - apply generateTimeRange_NoDup.
  - intros more. apply time_range_loop_exits.
Qed.

(** ** Sorting by time *)

Lemma insert_by_time_perm (t : ChartTransaction.t) (l : list ChartTransaction.t) :
  insert_by_time t l ≡ₚ t :: l.
Proof.
  induction l as [|u rest IH]; cbn; [reflexivity|].
  destruct (_ <=? _); [reflexivity|].
  rewrite IH. apply Permutation_swap.
Qed.

Lemma sort_by_time_perm (l : list ChartTransaction.t) : sort_by_time l ≡ₚ l.
Proof.
  induction l as [|t rest IH]; cbn; [reflexivity|].
  fold (sort_by_time rest). rewrite insert_by_time_perm, IH. reflexivity.
Qed.





Lemma last_cons (u d : ChartTransaction.t) (rest : list ChartTransaction.t) :
  List.last (u :: rest) d = List.last rest u.
Proof.
  revert u d. induction rest as [|a rest IH]; intros u d; [reflexivity|].
  change (List.last (u :: a :: rest) d) with (List.last (a :: rest) d).
  rewrite !IH. reflexivity.
Qed.



Lemma last_elem (first : ChartTransaction.t) (others : list ChartTransaction.t) :
  List.last others first ∈ first :: others.
Proof.
  revert first. induction others as [|u rest IH]; intros first; [left|].
  right. rewrite last_cons. apply IH.
Qed.

(** ** Volumes *)

Lemma traded_app (l l' : list ChartTransaction.t) :
  traded (l ++ l') = traded l + traded l'.
Proof.
  induction l as [|t l IH]; [reflexivity|].
  unfold traded in *. cbn [app foldr]. lia.
Qed.

Lemma traded_perm (l l' : list ChartTransaction.t) : l ≡ₚ l' -> traded l = traded l'.
Proof. unfold traded. induction 1; cbn [foldr]; lia. Qed.

Lemma fold_left_quantity (l : list ChartTransaction.t) (sum : Z) :
  fold_left (fun sum t => sum + ChartTransaction.quantity t) l sum = sum + traded l.
Proof.
  revert sum. induction l as [|t l IH]; intros sum; [cbn; lia|].
  cbn [fold_left]. rewrite IH. unfold traded. cbn [foldr]. lia.
Qed.

Lemma total_volume_app (l l' : list VolumeData) :
  total_volume (l ++ l') = total_volume l + total_volume l'.
Proof.
  induction l as [|bar l IH]; [reflexivity|].
  unfold total_volume in *. cbn [app foldr]. lia.
Qed.

(** ** The interval map *)




Lemma group_fold (interval : TimeInterval) (l : list ChartTransaction.t) :
  forall (m : gmap Z (list ChartTransaction.t)) (k : Z),
    default [] (fold_left
       (fun intervalMap transaction =>
          let transactionDate := ChartTransaction.created_at transaction in
          let key := getTimeIntervalStart zone transactionDate interval in
          <[key := (default [] (intervalMap !! key) ++ [transaction])%list]> intervalMap)
       l m !! k)
    = (default [] (m !! k) ++ filter (fun t => interval_of zone interval t = k) l)%list.
Proof.
  induction l as [|t l IH]; intros m k; cbn [fold_left].
  - rewrite filter_nil, app_nil_r. reflexivity.
  - rewrite IH, filter_cons. cbn zeta.
    fold (interval_of zone interval t).
    destruct (decide (interval_of zone interval t = k)) as [-> | Hne].
    + rewrite lookup_insert_eq. simpl. rewrite <- app_assoc. reflexivity.
    + rewrite lookup_insert_ne by assumption. reflexivity.
Qed.

(** The interval map holds, under each interval start, the transactions of
    that interval in their sorted order. *)
Lemma group_by_interval_lookup (interval : TimeInterval) (l : list ChartTransaction.t)
    (k : Z) :
  default [] (group_by_interval zone interval l !! k)
  = filter (fun t => interval_of zone interval t = k) l.
Proof. unfold group_by_interval. rewrite group_fold, lookup_empty. reflexivity. Qed.

(** ** Candles *)

Lemma max_price_bounds (rest : list Q) :
  forall first : Q,
    (first <= max_price first rest)%Q
    /\ Forall (fun p => (p <= max_price first rest)%Q) rest.
Proof.
  unfold max_price.
  induction rest as [|p rest IH]; intros first; cbn [fold_left].
  - split; [apply Qle_refl | constructor].
  - destruct (IH (Qmax first p)) as [Hhead Hrest]. split; [|constructor].
    + eapply Qle_trans; [apply Q.le_max_l | exact Hhead].
    + eapply Qle_trans; [apply Q.le_max_r | exact Hhead].
    + exact Hrest.
Qed.

Lemma min_price_bounds (rest : list Q) :
  forall first : Q,
    (min_price first rest <= first)%Q
    /\ Forall (fun p => (min_price first rest <= p)%Q) rest.
Proof.
  unfold min_price.
  induction rest as [|p rest IH]; intros first; cbn [fold_left].
  - split; [apply Qle_refl | constructor].
  - destruct (IH (Qmin first p)) as [Hhead Hrest]. split; [|constructor].
    + eapply Qle_trans; [exact Hhead | apply Q.le_min_l].
    + eapply Qle_trans; [exact Hhead | apply Q.le_min_r].
    + exact Hrest.
Qed.

Lemma candle_of_well_formed (m : gmap Z (list ChartTransaction.t)) (lastPrice : Q)
    (timePoint : Z) :
  well_formed (candle_of m lastPrice timePoint).1.2.
Proof.
  unfold candle_of, well_formed.
  destruct (sort_by_time (default [] (m !! timePoint))) as [|first rest]; cbn.
  - repeat split; apply Qle_refl.
  - set (prices := List.map ChartTransaction.price_per_share rest).
    destruct (max_price_bounds prices (ChartTransaction.price_per_share first))
      as [Hmax Hmaxes].
    destruct (min_price_bounds prices (ChartTransaction.price_per_share first))
      as [Hmin Hmins].
    assert (ChartTransaction.price_per_share (List.last rest first)
            = ChartTransaction.price_per_share first
            \/ In (ChartTransaction.price_per_share (List.last rest first)) prices)
      as Hlast.
    { pose proof (last_elem first rest) as Hin.
      apply elem_of_cons in Hin as [-> | Hin]; [left; reflexivity|].
      right. apply in_map, list_elem_of_In, Hin. }
    rewrite List.Forall_forall in Hmaxes, Hmins.
    split; split; [assumption | assumption | |].
    + destruct Hlast as [-> | Hin]; auto.
    + destruct Hlast as [-> | Hin]; auto.
Qed.

Lemma candle_of_bar (m : gmap Z (list ChartTransaction.t)) (lastPrice : Q)
    (timePoint : Z) :
  (candle_of m lastPrice timePoint).2
  = {| volume_time := timePoint / 1000;
       volume_value := traded (default [] (m !! timePoint)) |}
  /\ Candle.time (candle_of m lastPrice timePoint).1.2 = timePoint / 1000.
Proof.
  unfold candle_of.
  rewrite <- (traded_perm _ _ (sort_by_time_perm (default [] (m !! timePoint)))).
  destruct (sort_by_time (default [] (m !! timePoint))) as [|first rest]; cbn.
  - split; reflexivity.
  - rewrite fold_left_quantity. split; [|reflexivity].
    f_equal; unfold traded; cbn [foldr]; lia.
Qed.


Lemma candles_of_snoc (m : gmap Z (list ChartTransaction.t)) (timePoints : list Z)
    (timePoint : Z) :
  candles_of m (timePoints ++ [timePoint])
  = let '(lastPrice, candlestickData, volumeData) := candles_of m timePoints in
    let '(lastPrice', candle, volume) := candle_of m lastPrice timePoint in
    (lastPrice', (candlestickData ++ [candle])%list, (volumeData ++ [volume])%list).
Proof. unfold candles_of. rewrite fold_left_app. reflexivity. Qed.

(** One candle and one bar for each time point, in order, stamped with
    the time point in seconds; every bar shows the shares traded in its
    interval and every candle is well formed. *)
Lemma candles_of_shape (m : gmap Z (list ChartTransaction.t)) (timePoints : list Z) :
  Candle.time <$> (candles_of m timePoints).1.2 = (fun tp => tp / 1000) <$> timePoints
  /\ (candles_of m timePoints).2
     = (fun tp => {| volume_time := tp / 1000;
                     volume_value := traded (default [] (m !! tp)) |}) <$> timePoints
  /\ Forall well_formed (candles_of m timePoints).1.2.
Proof.
  induction timePoints as [|timePoint timePoints IH] using rev_ind.
  - cbn. repeat split; constructor.
  - rewrite candles_of_snoc.
    destruct (candles_of m timePoints) as [[lastPrice candlestickData] volumeData].
    cbn [fst snd] in IH. destruct IH as (Htimes & Hbars & Hformed).
    pose proof (candle_of_bar m lastPrice timePoint) as [Hbar Htime].
    pose proof (candle_of_well_formed m lastPrice timePoint) as Hcandle.
    destruct (candle_of m lastPrice timePoint) as [[lastPrice' candle] volume].
    cbn [fst snd] in *. rewrite !fmap_app. cbn [fmap list_fmap].
    rewrite Htimes, Hbars, Htime, Hbar. repeat split.
    apply Forall_app. split; [assumption|].
    constructor; [assumption | constructor].
Qed.

Lemma seq_increasing (n : nat) : forall start : nat, StronglySorted lt (seq start n).
Proof.
  induction n as [|n IH]; intros start; cbn [seq]; constructor; [apply IH|].
  apply Forall_forall. intros k Hk. apply elem_of_seq in Hk. lia.
Qed.

Lemma generateTimeRange_increasing (startDate endDate : Z) (interval : TimeInterval) :
  StronglySorted (fun t t' => t + interval_ms interval <= t')
    (generateTimeRange zone startDate endDate interval).
Proof.
  pose proof (interval_ms_pos interval) as Hpos.
  rewrite generateTimeRange_closed.
  eapply StronglySorted_fmap; [|apply seq_increasing].
  cbn. intros j k Hjk. nia.
Qed.

Lemma seconds_increasing (interval : TimeInterval) (timePoints : list Z) :
  StronglySorted (fun t t' => t + interval_ms interval <= t') timePoints ->
  StronglySorted Z.lt ((fun tp => tp / 1000) <$> timePoints).
Proof.
  apply StronglySorted_fmap. intros t t' Hlater.
  assert (1000 <= interval_ms interval) by (destruct interval; cbn; lia).
  assert ((t + 1 * 1000) / 1000 <= t' / 1000) as Hdiv by (apply Z.div_le_mono; lia).
  rewrite Z.div_add in Hdiv by lia. lia.
Qed.

(** ** aggregateToOHLCV *)

Lemma sort_by_time_nil (transactions : list ChartTransaction.t) :
  sort_by_time transactions = [] -> transactions = [].
Proof.
  intros Hsort. pose proof (sort_by_time_perm transactions) as Hperm.
  rewrite Hsort in Hperm. symmetry. apply Permutation_nil_l. exact Hperm.
Qed.

(** What [aggregateToOHLCV] returns for one transaction or more, in
    terms of the time points and the interval map it builds. *)
Lemma aggregateToOHLCV_some (now : Z) (transactions : list ChartTransaction.t)
    (interval : TimeInterval) (first : ChartTransaction.t)
    (others : list ChartTransaction.t) :
  sort_by_time transactions = first :: others ->
  let timePoints :=
    generateTimeRange zone (ChartTransaction.created_at first - 24 * 60 * 60 * 1000)
      (Z.max (ChartTransaction.created_at (List.last others first)) now) interval in
  let state := candles_of (group_by_interval zone interval (first :: others)) timePoints in
  let result := aggregateToOHLCV zone now transactions interval in
  let firstPrice :=
    match state.1.2 with
    | c :: _ => if Qeq_bool (Candle.open c) (0 # 1) then 100 # 1 else Candle.open c
    | [] => 100 # 1
    end in
  candlestickData result = state.1.2
  /\ volumeData result = state.2
  /\ currentPrice result = state.1.1
  /\ priceChange result = (state.1.1 - firstPrice)%Q
  /\ priceChangePercent result
     = if Qltb (0 # 1) firstPrice
       then ((state.1.1 - firstPrice) / firstPrice * (100 # 1))%Q
       else 0 # 1.
Proof.
  intros Hsort. cbn zeta. unfold aggregateToOHLCV.
  destruct transactions as [|t rest]; [discriminate Hsort|].
  cbn [List.length Nat.eqb]. rewrite Hsort.
  destruct (candles_of _ _) as [[lastPrice candles] bars]. cbn [fst snd].
  repeat split.
Qed.







(** *** Shape of the chart *)

(** Every candle of the chart has its open and its close between its low
    and its high; the candles and the volume bars carry the same time
    stamps in the same order, and the time stamps strictly increase, as the
    chart series they are handed to requires. *)
Theorem chart_candles_are_well_formed (now : Z) (transactions : list ChartTransaction.t)
    (interval : TimeInterval) :
  let result := aggregateToOHLCV zone now transactions interval in
  Forall well_formed (candlestickData result)
  /\ Candle.time <$> candlestickData result = volume_time <$> volumeData result
  /\ StronglySorted Z.lt (Candle.time <$> candlestickData result).
Proof.
  cbn zeta.
  destruct (sort_by_time transactions) as [|first others] eqn:Hsort.
  - apply sort_by_time_nil in Hsort as ->. cbn. split; [|split; [reflexivity|]].
    + constructor; [|constructor].
      unfold well_formed. cbn. split; split; apply Qle_refl.
    + repeat constructor.
  - destruct (aggregateToOHLCV_some now transactions interval first others Hsort)
      as (-> & -> & _).
    destruct (candles_of_shape (group_by_interval zone interval (first :: others))
                (generateTimeRange zone
                   (ChartTransaction.created_at first - 24 * 60 * 60 * 1000)
                   (Z.max (ChartTransaction.created_at (List.last others first)) now)
                   interval))
      as (Htimes & Hbars & Hformed).
    split; [assumption|]. split.
    + rewrite Htimes, Hbars, <- list_fmap_compose. reflexivity.
    + rewrite Htimes. eapply seconds_increasing, generateTimeRange_increasing.
Qed.


(** *** First candle and last price *)









(** *** Prices of the chart *)

Lemma max_price_within (highest : Q) (rest : list Q) :
  forall first : Q,
    (first <= highest)%Q -> Forall (fun p => (p <= highest)%Q) rest ->
    (max_price first rest <= highest)%Q.
Proof.
  unfold max_price. induction rest as [|p rest IH]; intros first Hfirst Hrest;
    cbn [fold_left]; [assumption|].
  apply Forall_cons in Hrest as [Hp Hrest].
  apply IH; [|assumption]. apply Q.max_lub; assumption.
Qed.

Lemma min_price_within (lowest : Q) (rest : list Q) :
  forall first : Q,
    (lowest <= first)%Q -> Forall (fun p => (lowest <= p)%Q) rest ->
    (lowest <= min_price first rest)%Q.
Proof.
  unfold min_price. induction rest as [|p rest IH]; intros first Hfirst Hrest;
    cbn [fold_left]; [assumption|].
  apply Forall_cons in Hrest as [Hp Hrest].
  apply IH; [|assumption]. apply Q.min_glb; assumption.
Qed.

Lemma candle_of_within (m : gmap Z (list ChartTransaction.t)) (lastPrice : Q)
    (timePoint : Z) (lowest highest : Q) :
  within lowest highest lastPrice ->
  (forall t, t ∈ default [] (m !! timePoint) ->
     within lowest highest (ChartTransaction.price_per_share t)) ->
  within lowest highest (candle_of m lastPrice timePoint).1.1
  /\ (lowest <= Candle.low (candle_of m lastPrice timePoint).1.2)%Q
  /\ (Candle.high (candle_of m lastPrice timePoint).1.2 <= highest)%Q.
Proof.
  intros Hlast Hprices. unfold candle_of.
  pose proof (sort_by_time_perm (default [] (m !! timePoint))) as Hperm.
  destruct (sort_by_time (default [] (m !! timePoint))) as [|first rest]; cbn.
  - destruct Hlast. repeat split; assumption.
  - assert (forall t, t ∈ first :: rest ->
              within lowest highest (ChartTransaction.price_per_share t)) as Hsorted.
    { intros t Ht. apply Hprices. rewrite <- Hperm. exact Ht. }
    split; [apply Hsorted, last_elem|]. split.
    + apply min_price_within; [apply Hsorted; left|].
      apply Forall_forall. intros p Hp. apply list_elem_of_fmap in Hp as (t & -> & Ht).
      apply Hsorted. right. exact Ht.
    + apply max_price_within; [apply Hsorted; left|].
      apply Forall_forall. intros p Hp. apply list_elem_of_fmap in Hp as (t & -> & Ht).
      apply Hsorted. right. exact Ht.
Qed.

Lemma candles_of_within (m : gmap Z (list ChartTransaction.t)) (timePoints : list Z)
    (lowest highest : Q) :
  within lowest highest (100 # 1) ->
  (forall tp t, t ∈ default [] (m !! tp) ->
     within lowest highest (ChartTransaction.price_per_share t)) ->
  within lowest highest (candles_of m timePoints).1.1
  /\ Forall (fun c => (lowest <= Candle.low c)%Q /\ (Candle.high c <= highest)%Q)
       (candles_of m timePoints).1.2.
Proof.
  intros Hstart Hprices.
  induction timePoints as [|timePoint timePoints IH] using rev_ind.
  - cbn. split; [assumption | constructor].
  - rewrite candles_of_snoc.
    destruct (candles_of m timePoints) as [[lastPrice candlestickData] volumeData].
    cbn [fst snd] in IH. destruct IH as [Hlast Hcandles].
    pose proof (candle_of_within m lastPrice timePoint lowest highest Hlast
                  (Hprices timePoint)) as (Hprice & Hlow & Hhigh).
    destruct (candle_of m lastPrice timePoint) as [[lastPrice' candle] volume].
    cbn [fst snd] in *. split; [assumption|].
    apply Forall_app. split; [assumption|].
    constructor; [split; assumption | constructor].
Qed.

Lemma traded_nonneg (l : list ChartTransaction.t) :
  (forall t, t ∈ l -> 0 <= ChartTransaction.quantity t) -> 0 <= traded l.
Proof.
  induction l as [|t l IH]; intros Hl; unfold traded in *; cbn [foldr]; [lia|].
  pose proof (Hl t ltac:(left)).
  assert (0 <= foldr (fun t sum => ChartTransaction.quantity t + sum) 0 l)
    by (apply IH; intros u Hu; apply Hl; right; exact Hu).
  lia.
Qed.

(** The chart of transactions whose prices lie between two bounds that
    hold 100: its candles are well formed and within the bounds, and its
    bars are not negative where no quantity is. *)
Lemma aggregate_within (now : Z) (transactions : list ChartTransaction.t)
    (interval : TimeInterval) (lowest highest : Q) :
  within lowest highest (100 # 1) ->
  (forall t, t ∈ transactions ->
     within lowest highest (ChartTransaction.price_per_share t)) ->
  let result := aggregateToOHLCV zone now transactions interval in
  within lowest highest (currentPrice result)
  /\ Forall (fun c => well_formed c
                      /\ (lowest <= Candle.low c)%Q /\ (Candle.high c <= highest)%Q)
       (candlestickData result)
  /\ ((forall t, t ∈ transactions -> 0 <= ChartTransaction.quantity t) ->
      Forall (fun bar => 0 <= volume_value bar) (volumeData result)).
Proof.
  intros Hstart Hprices. cbn zeta.
  destruct (sort_by_time transactions) as [|first others] eqn:Hsort.
  - apply sort_by_time_nil in Hsort as ->. cbn. split; [assumption|]. split.
    + constructor; [|constructor]. destruct Hstart. unfold well_formed. cbn.
      repeat split; try assumption; apply Qle_refl.
    + intros _. constructor; [cbn; lia | constructor].
  - destruct (aggregateToOHLCV_some now transactions interval first others Hsort)
      as (-> & -> & -> & _).
    pose proof (sort_by_time_perm transactions) as Hperm. rewrite Hsort in Hperm.
    set (m := group_by_interval zone interval (first :: others)).
    set (timePoints := generateTimeRange zone _ _ interval).
    assert (forall tp t, t ∈ default [] (m !! tp) -> t ∈ transactions) as Hgroup.
    { intros tp t Ht. subst m. rewrite group_by_interval_lookup in Ht.
      apply list_elem_of_filter in Ht as [_ Ht]. rewrite <- Hperm. exact Ht. }
    destruct (candles_of_within m timePoints lowest highest Hstart) as [Hprice Hwithin].
    { intros tp t Ht. apply Hprices. apply (Hgroup tp t Ht). }
    destruct (candles_of_shape m timePoints) as (_ & Hbars & Hformed).
    split; [assumption|]. split.
    + rewrite Forall_forall in Hformed, Hwithin. apply Forall_forall.
      intros c Hc. split; [apply Hformed, Hc | apply Hwithin, Hc].
    + intros Hquantities. rewrite Hbars. apply Forall_forall.
      intros bar Hbar. apply list_elem_of_fmap in Hbar as (tp & -> & _).
      cbn [volume_value]. apply traded_nonneg.
      intros t Ht. apply Hquantities. apply (Hgroup tp t Ht).
Qed.

(** The candles and the current price of the chart stay between any two
    bounds that hold the starting price 100 and every transaction's
    price. *)
Theorem chart_prices_within_trade_range (now : Z)
    (transactions : list ChartTransaction.t) (interval : TimeInterval)
    (lowest highest : Q) :
  within lowest highest (100 # 1) ->
  (forall t, t ∈ transactions ->
     within lowest highest (ChartTransaction.price_per_share t)) ->
  let result := aggregateToOHLCV zone now transactions interval in
  within lowest highest (currentPrice result)
  /\ Forall (fun c => (lowest <= Candle.low c)%Q /\ (Candle.high c <= highest)%Q)
       (candlestickData result).
Proof.
  intros Hstart Hprices. cbn zeta.
  destruct (aggregate_within now transactions interval lowest highest Hstart Hprices)
    as (Hprice & Hcandles & _).
  split; [assumption|].
  eapply Forall_impl; [exact Hcandles|]. cbn. tauto.
Qed.

(** * The volume weighted average price *)

(** A loop over the whole of an array, whose body keeps an invariant
    wherever it reads the array, runs to its end and keeps it. *)
Lemma for_loop_invariant {X S : Type} (arr : list X) (Inv : S -> Prop)
    (body : Z -> S -> option S) :
  (forall i s x, arr !! i = Some x -> Inv s ->
     exists s', body (Z.of_nat i) s = Some s' /\ Inv s') ->
  forall (count m : nat) (s : S),
    (m + count <= List.length arr)%nat -> Inv s ->
    exists s', for_loop count (Z.of_nat m) body s = Some s' /\ Inv s'.
Proof.
  intros Hbody. induction count as [|count IH]; intros m s Hm Hs; cbn [for_loop].
  - exists s. split; [reflexivity | assumption].
  - destruct (lookup_lt_is_Some_2 arr m) as [x Hx]; [lia|].
    destruct (Hbody m s x Hx Hs) as (s1 & -> & Hs1).
    replace (Z.of_nat m + 1) with (Z.of_nat (Datatypes.S m)) by lia.
    apply IH; [lia | assumption].
Qed.

Lemma vwap_times (candlestickData : list Candle.t)
    (volumeData : list VolumeData) :
  exists vwapData,
    calculateVWAP candlestickData volumeData = Some vwapData
    /\ indicator_time <$> vwapData = Candle.time <$> candlestickData.
Proof.
  unfold calculateVWAP, for_range. rewrite Z.sub_0_r, Nat2Z.id.
  match goal with
  | |- context [for_loop _ _ ?body _] =>
      destruct (for_loop_stamps candlestickData Candle.time
                  (fun s : Q * Q * list IndicatorData => s.2) indicator_time 0 body)
        with (count := List.length candlestickData) (i := 0) (m := 0%nat)
             (s := (0 # 1, 0 # 1, @nil IndicatorData))
        as (s' & rest & -> & Hpushed & Hstamps)
  end.
  - intros i [[cumulativePriceVolume cumulativeVolume] vwapData] candle Hcandle.
    rewrite Z.add_0_r in Hcandle. rewrite Hcandle.
    eexists _, _. split; [reflexivity|]. split; reflexivity.
  - reflexivity.
  - lia.
  - cbn [option_map]. exists s'.2. split; [reflexivity|].
    cbn [snd app] in Hpushed. rewrite Hpushed, Hstamps, drop_0, take_ge by lia.
    reflexivity.
Qed.

(** [calculateVWAP] never throws, whatever the length of the volume
    data, and returns one point for each candle, in order, with the
    candle's time. *)
Theorem calculateVWAP_shape (candlestickData : list Candle.t)
    (volumeData : list VolumeData) :
  exists vwapData,
    calculateVWAP candlestickData volumeData = Some vwapData
    /\ indicator_time <$> vwapData = Candle.time <$> candlestickData.
Proof. exact (vwap_times candlestickData volumeData). Qed.

End ChartProperties.

(** ** The chart of the sample trades *)

Lemma minute_interval_starts_ignore_the_zone_witness :
  120 mod 15 = 0
  /\ getTimeIntervalStart 120 1000000 interval_5min = 900000.
Proof.
  assert (Hzone : 120 mod 15 = 0) by reflexivity.
  split; [exact Hzone|].
  rewrite (minute_interval_starts_ignore_the_zone 120 1000000 interval_5min Hzone)
    by (right; left; reflexivity).
  reflexivity.
Defined.



Lemma sample_trades_within (t : ChartTransaction.t) :
  t ∈ sample_trades -> within (100 # 1) (105 # 1) (ChartTransaction.price_per_share t).
Proof.
  unfold sample_trades. intros Ht.
  repeat (apply elem_of_cons in Ht as [-> | Ht]; [unfold within; cbn; lra|]).
  inversion Ht.
Qed.

Lemma chart_prices_within_trade_range_witness :
  within (100 # 1) (105 # 1) (100 # 1)
  /\ within (100 # 1) (105 # 1)
       (currentPrice (aggregateToOHLCV 0 9000000 sample_trades interval_1h)).
Proof.
  assert (Hstart : within (100 # 1) (105 # 1) (100 # 1)) by (unfold within; lra).
  split; [exact Hstart|].
  destruct (chart_prices_within_trade_range 0 9000000 sample_trades interval_1h
              (100 # 1) (105 # 1) Hstart sample_trades_within) as [Hprice _].
  exact Hprice.
Defined.
